(** * quiz.py: storage layer and quiz runtime

    A shallow embedding of [src/quiz.py].

    - [Storage] embeds class [QuizDatabase]: the two tables of
      [init_database], the SQL statements each method executes, and the
      connection discipline (connect, execute, commit, close).
    - [Runtime] embeds class [Quiz]: the question loop over standard
      input and output, the score, and the banded result.
    - [Cli] embeds the command functions and [main]: the console, the
      database file and the options, without the parsing of [argparse].

    Conventions.  A Python [str] is a Rocq [string], the bytes of its
    UTF-8 encoding; the operations that look at code points ([ord],
    [strip], [lower]) are modelled on the ASCII range.  Python [int]s are
    [Z] (row ids, answer indices) or [nat] (lengths and counters); SQLite's
    rowids are taken unbounded, one insertion per call being far from
    exhausting 63 bits.  Python [float]s are the binary64 floats of
    [PrimFloat].  A Python exception is a constructor of [exn]; a call
    that can raise returns a [result]. *)

From Stdlib Require Import ZArith Ascii String DecimalString DecimalNat Floats Uint63 Sorted
  OrdersEx Lia.
From stdpp Require Import base tactics option list strings sorting.

Local Open Scope Z_scope.

(** ** Exceptions *)

Inductive exn : Type :=
  | ValueError (msg : string)
  | IntegrityError (msg : string)
  | IndexError
  | TypeError
  | EOFError
  | ZeroDivisionError
  | SystemError.

Inductive result (A : Type) : Type :=
  | Ok (a : A)
  | Raise (e : exn).
Arguments Ok {A} a.
Arguments Raise {A} e.

(** The two error classes the specification names are both raised as
    [ValueError] by the code; they differ by message. *)
Definition DuplicateNameError (name : string) : exn :=
  ValueError ("Quiz '" +:+ name +:+ "' already exists!").
Definition QuizNotFoundError (name : string) : exn :=
  ValueError ("Quiz '" +:+ name +:+ "' not found!").

(** ** SQL helpers *)

(** [ORDER BY key]: a stable insertion sort on a total boolean order. *)
Section OrderBy.
Context {A K : Type} (leb : K -> K -> bool) (key : A -> K).

Fixpoint insert_row (x : A) (l : list A) : list A :=
  match l with
  | [] => [x]
  | y :: l' => if leb (key x) (key y) then x :: l else y :: insert_row x l'
  end.

Definition order_by (l : list A) : list A := foldr insert_row [] l.
End OrderBy.

(** The question record handed to the runtime: the dictionary built by
    [get_quiz_questions], keys 'question', 'choices', 'correct' and
    'explanation'. *)
Record Question : Type := mkQuestion {
  question : string;
  choices : list string;
  correct : Z;
  explanation : string
}.

(** [ord(c)] for a string of one character; a [TypeError] otherwise. *)
Definition ord (s : string) : result Z :=
  match s with
  | String c EmptyString => Ok (Z.of_nat (nat_of_ascii c))
  | _ => Raise TypeError
  end.

Module Storage.

(** [CURRENT_TIMESTAMP]: read from the environment at insertion. *)
Definition timestamp : Type := Z.

(** Table [quizzes]. [description] is the one nullable column. *)
Record quiz_row : Type := mk_quiz_row {
  qz_id : Z;
  qz_name : string;
  qz_title : string;
  qz_description : option string;
  qz_created_at : timestamp
}.

(** Table [questions]. [explanation] is nullable. *)
Record question_row : Type := mk_question_row {
  q_id : Z;
  q_quiz_id : Z;
  q_question : string;
  q_choice_a : string;
  q_choice_b : string;
  q_choice_c : string;
  q_choice_d : string;
  q_correct_answer : string;
  q_explanation : option string;
  q_created_at : timestamp
}.

(** The database file: both tables in rowid order, and for each the
    AUTOINCREMENT counter kept in [sqlite_sequence] (the largest rowid
    ever handed out; 0 before the first insertion). *)
Record database : Type := mk_database {
  quizzes : list quiz_row;
  questions : list question_row;
  seq_quizzes : Z;
  seq_questions : Z
}.

(** What [init_database] leaves on a fresh file. *)
Definition empty_database : database := mk_database [] [] 0 0.

(** [CREATE TABLE IF NOT EXISTS]: an existing file is left as it is. *)
Definition init_database (file : database) : database := file.

(** A connection: the working copy of the file inside the implicit
    transaction, and the [foreign_keys] pragma of this connection. *)
Record connection : Type := mk_connection {
  conn_db : database;
  foreign_keys : bool
}.

(** [sqlite3.connect(path)].  SQLite enforces foreign keys only on a
    connection that ran [PRAGMA foreign_keys = ON]; a new connection has
    it off. *)
Definition sqlite_default_foreign_keys : bool := false.

Definition connect_with (fk : bool) (file : database) : connection :=
  mk_connection file fk.

Definition connect (file : database) : connection :=
  connect_with sqlite_default_foreign_keys file.

(** [conn.commit()] writes the working copy to the file; [conn.close()]
    without a commit drops it. *)
Definition commit (conn : connection) : database := conn_db conn.

(** Largest rowid in a table, 0 when empty. *)
Definition max_rowid {A} (id : A -> Z) (rows : list A) : Z :=
  foldr (fun r m => Z.max (id r) m) 0 rows.

(** AUTOINCREMENT: one more than the largest rowid that ever existed. *)
Definition next_rowid {A} (id : A -> Z) (rows : list A) (seq : Z) : Z :=
  Z.max (max_rowid id rows) seq + 1.

Definition name_is (name : string) (qz : quiz_row) : bool :=
  String.eqb (qz_name qz) name.

(** [INSERT INTO quizzes (name, title, description) VALUES (?, ?, ?)];
    returns [lastrowid].  [name] is UNIQUE. *)
Definition insert_quiz (now : timestamp) (name title description : string)
    (conn : connection) : result (Z * connection) :=
  let db := conn_db conn in
  if existsb (name_is name) (quizzes db) then
    Raise (IntegrityError "UNIQUE constraint failed: quizzes.name")
  else
    let id := next_rowid qz_id (quizzes db) (seq_quizzes db) in
    let row := mk_quiz_row id name title (Some description) now in
    Ok (id, mk_connection
              (mk_database (quizzes db ++ [row]) (questions db)
                           id (seq_questions db))
              (foreign_keys conn)).

(** [SELECT id FROM quizzes WHERE name = ?] followed by [fetchone()]. *)
Definition select_quiz_id (name : string) (conn : connection) : option Z :=
  match filter (name_is name) (quizzes (conn_db conn)) with
  | [] => None
  | qz :: _ => Some (qz_id qz)
  end.

(** The CHECK constraint of column [correct_answer]. *)
Definition check_correct_answer (c : string) : bool :=
  existsb (String.eqb c) ["a"; "b"; "c"; "d"].

(** [INSERT INTO questions (quiz_id, question, choice_a, ..., explanation)
    VALUES (?, ?, ?, ?, ?, ?, ?, ?)]. *)
Definition insert_question (now : timestamp) (quiz_id : Z)
    (text a b c d correct_answer explanation : string)
    (conn : connection) : result connection :=
  let db := conn_db conn in
  if negb (check_correct_answer correct_answer) then
    Raise (IntegrityError "CHECK constraint failed: correct_answer IN ('a', 'b', 'c', 'd')")
  else if foreign_keys conn
          && negb (existsb (fun qz => qz_id qz =? quiz_id) (quizzes db)) then
    Raise (IntegrityError "FOREIGN KEY constraint failed")
  else
    let id := next_rowid q_id (questions db) (seq_questions db) in
    let row := mk_question_row id quiz_id text a b c d correct_answer
                               (Some explanation) now in
    Ok (mk_connection
          (mk_database (quizzes db) (questions db ++ [row])
                       (seq_quizzes db) id)
          (foreign_keys conn)).

(** [DELETE FROM quizzes WHERE name = ?]; returns [rowcount], the number
    of quiz rows deleted.  ON DELETE CASCADE removes the questions of the
    deleted quizzes when, and only when, the connection enforces foreign
    keys. *)
Definition delete_quizzes (name : string) (conn : connection)
    : nat * connection :=
  let db := conn_db conn in
  let gone := filter (name_is name) (quizzes db) in
  let kept := filter (fun qz => negb (name_is name qz)) (quizzes db) in
  let owned (q : question_row) :=
    existsb (fun qz => qz_id qz =? q_quiz_id q) gone in
  let questions' :=
    if foreign_keys conn
    then filter (fun q => negb (owned q)) (questions db)
    else questions db in
  (length gone,
   mk_connection
     (mk_database kept questions' (seq_quizzes db) (seq_questions db))
     (foreign_keys conn)).

(** *** Methods of [QuizDatabase]

    Each takes the file and returns the outcome with the file as the call
    leaves it. *)

(** [choices[i]] on a Python list, for the indices 0 to 3 used here. *)
Definition index (choices : list string) (i : nat) : result string :=
  match choices !! i with
  | Some c => Ok c
  | None => Raise IndexError
  end.

Definition create_quiz (now : timestamp) (name title description : string)
    (file : database) : result Z * database :=
  let conn := connect file in
  match insert_quiz now name title description conn with
  | Ok (quiz_id, conn') => (Ok quiz_id, commit conn')
  | Raise (IntegrityError _) => (Raise (DuplicateNameError name), file)
  | Raise e => (Raise e, file)
  end.

Definition add_question (now : timestamp) (quiz_name text : string)
    (choices : list string) (correct explanation : string)
    (file : database) : result unit * database :=
  let conn := connect file in
  match select_quiz_id quiz_name conn with
  | None => (Raise (QuizNotFoundError quiz_name), file)
  | Some quiz_id =>
    match index choices 0, index choices 1, index choices 2, index choices 3 with
    | Ok a, Ok b, Ok c, Ok d =>
      match insert_question now quiz_id text a b c d correct explanation conn with
      | Ok conn' => (Ok tt, commit conn')
      | Raise e => (Raise e, file)
      end
    | _, _, _, _ => (Raise IndexError, file)
    end
  end.

(** The rows of [questions q JOIN quizzes qz ON q.quiz_id = qz.id
    WHERE qz.name = ?]: one per matching pair. *)
Definition join_questions (name : string) (db : database) : list question_row :=
  q ← questions db;
  qz ← filter (fun qz => (q_quiz_id q =? qz_id qz) && name_is name qz)
                   (quizzes db);
  [q].

(** One fetched row turned into the dictionary of [get_quiz_questions]. *)
Definition row_to_question (row : question_row) : result Question :=
  match ord (q_correct_answer row) with
  | Ok code =>
    Ok (mkQuestion (q_question row)
                   [q_choice_a row; q_choice_b row; q_choice_c row; q_choice_d row]
                   (code - 97)
                   (default "" (q_explanation row)))
  | Raise e => Raise e
  end.

Fixpoint rows_to_questions (rows : list question_row) : result (list Question) :=
  match rows with
  | [] => Ok []
  | row :: rows' =>
    match row_to_question row with
    | Raise e => Raise e
    | Ok q =>
      match rows_to_questions rows' with
      | Raise e => Raise e
      | Ok qs => Ok (q :: qs)
      end
    end
  end.

Definition get_quiz_questions (quiz_name : string) (file : database)
    : result (list Question) :=
  let conn := connect file in
  rows_to_questions (order_by Z.leb q_id (join_questions quiz_name (conn_db conn))).

(** The dictionary of [get_quiz_info] and [list_quizzes]. *)
Record QuizInfo : Type := mkQuizInfo {
  name : string;
  title : string;
  description : option string;
  question_count : nat
}.

(** One group of [quizzes qz LEFT JOIN questions q ON qz.id = q.quiz_id
    GROUP BY qz.id], with [COUNT(q.id)]. *)
Definition info_row (db : database) (qz : quiz_row) : QuizInfo :=
  mkQuizInfo (qz_name qz) (qz_title qz) (qz_description qz)
    (length (filter (fun q => qz_id qz =? q_quiz_id q) (questions db))).

Definition get_quiz_info (quiz_name : string) (file : database)
    : option QuizInfo :=
  let conn := connect file in
  let db := conn_db conn in
  match info_row db <$> filter (name_is quiz_name) (quizzes db) with
  | [] => None
  | r :: _ => Some r
  end.

Definition list_quizzes (file : database) : list QuizInfo :=
  let conn := connect file in
  let db := conn_db conn in
  order_by String.leb name (info_row db <$> quizzes db).

(** Name order on the rows of a listing: byte-wise, as SQLite compares
    TEXT. *)
Definition name_le (x y : QuizInfo) : Prop := String.leb (name x) (name y) = true.

Definition delete_quiz (quiz_name : string) (file : database)
    : bool * database :=
  let conn := connect file in
  let '(rowcount, conn') := delete_quizzes quiz_name conn in
  let deleted := (0 <? rowcount)%nat in
  (deleted, commit conn').

(** *** The state of the file *)

(** Whether a quiz of that name is stored. *)
Definition quiz_exists (name : string) (db : database) : bool :=
  existsb (name_is name) (quizzes db).

(** The question rows whose [quiz_id] is [id]. *)
Definition questions_of (id : Z) (db : database) : list question_row :=
  filter (fun q => q_quiz_id q =? id) (questions db).

(** What the schema and AUTOINCREMENT keep true of a file that only this
    program writes: names are unique, rowids increase down each table and
    never exceed the table's counter, every [correct_answer] passes its
    CHECK, and no question points at a quiz id that was not handed out
    yet. *)
Record wf (db : database) : Prop := mk_wf {
  wf_names : NoDup (qz_name <$> quizzes db);
  wf_quiz_ids : StronglySorted Z.lt (qz_id <$> quizzes db);
  wf_quiz_seq : Forall (fun qz => qz_id qz <= seq_quizzes db) (quizzes db);
  wf_question_ids : StronglySorted Z.lt (q_id <$> questions db);
  wf_question_seq : Forall (fun q => q_id q <= seq_questions db) (questions db);
  wf_owner_seq : Forall (fun q => q_quiz_id q <= seq_quizzes db) (questions db);
  wf_check :
    Forall (fun q => check_correct_answer (q_correct_answer q) = true)
           (questions db)
}.

(** The arguments of one [add_question] call. *)
Record question_input : Type := mk_question_input {
  in_now : timestamp;
  in_text : string;
  in_choices : list string;
  in_correct : string;
  in_explanation : string
}.

(** [add_question] called once per input, in order, on one quiz; stops at
    the first call that raises. *)
Fixpoint add_questions (quiz_name : string) (inputs : list question_input)
    (file : database) : result unit * database :=
  match inputs with
  | [] => (Ok tt, file)
  | i :: rest =>
    match add_question (in_now i) quiz_name (in_text i) (in_choices i)
                       (in_correct i) (in_explanation i) file with
    | (Ok _, file') => add_questions quiz_name rest file'
    | (Raise e, file') => (Raise e, file')
    end
  end.

(** The round trip as the specification words it: a question comes back
    with its text, its four choices, its correct label (as the position
    of the label among a, b, c, d) and its explanation. *)
Definition label_index (label : string) : Z :=
  if String.eqb label "a" then 0
  else if String.eqb label "b" then 1
  else if String.eqb label "c" then 2
  else 3.

Definition question_of_input (i : question_input) : Question :=
  mkQuestion (in_text i) (in_choices i) (label_index (in_correct i))
             (in_explanation i).

(** An input the specification admits: four choices and a label among
    a, b, c, d. *)
Definition valid_input (i : question_input) : Prop :=
  length (in_choices i) = 4%nat /\ check_correct_answer (in_correct i) = true.

(** A file with the quiz "geo" and one question, built by the methods. *)
Definition geo_one_question : database :=
  (add_question 2 "geo" "Capital of France?" ["Paris"; "Rome"; "Oslo"; "Bern"]
                "a" "" (create_quiz 1 "geo" "Geography" "" empty_database).2).2.

(** Files this program can produce from a fresh one. *)
Inductive reachable : database -> Prop :=
  | reach_init : reachable (init_database empty_database)
  | reach_create now name title description db :
      reachable db ->
      reachable (create_quiz now name title description db).2
  | reach_add now quiz_name text choices correct explanation db :
      reachable db ->
      reachable (add_question now quiz_name text choices correct explanation db).2
  | reach_delete quiz_name db :
      reachable db ->
      reachable (delete_quiz quiz_name db).2.

End Storage.

(** ** Python built-ins used by the runtime *)

Definition nl : string := String (ascii_of_nat 10) "".

(** [str(n)] for a non-negative integer. *)
Definition str (n : nat) : string := NilZero.string_of_uint (Nat.to_uint n).

(** [s * n] on a string. *)
Fixpoint repeat_string (s : string) (n : nat) : string :=
  match n with
  | O => ""
  | S n' => s +:+ repeat_string s n'
  end.

(** [str.isspace] on the ASCII range: tab to carriage return, the four
    separators, and space. *)
Definition is_space (c : ascii) : bool :=
  let n := nat_of_ascii c in
  ((9 <=? n)%nat && (n <=? 13)%nat) || ((28 <=? n)%nat && (n <=? 32)%nat).

Fixpoint lstrip (s : string) : string :=
  match s with
  | EmptyString => EmptyString
  | String c s' => if is_space c then lstrip s' else s
  end.

Fixpoint rstrip (s : string) : string :=
  match s with
  | EmptyString => EmptyString
  | String c s' =>
    match rstrip s' with
    | EmptyString => if is_space c then EmptyString else String c EmptyString
    | t => String c t
    end
  end.

Definition strip (s : string) : string := rstrip (lstrip s).

Definition lower_char (c : ascii) : ascii :=
  let n := nat_of_ascii c in
  if (65 <=? n)%nat && (n <=? 90)%nat then ascii_of_nat (n + 32) else c.

Fixpoint lower (s : string) : string :=
  match s with
  | EmptyString => EmptyString
  | String c s' => String (lower_char c) (lower s')
  end.

Definition byte (n : Z) : ascii := ascii_of_N (Z.to_N n).

(** The UTF-8 bytes of a code point. *)
Definition utf8 (n : Z) : string :=
  if n <? 128 then String (byte n) ""
  else if n <? 2048 then
    String (byte (192 + n / 64)) (String (byte (128 + n mod 64)) "")
  else if n <? 65536 then
    String (byte (224 + n / 4096))
      (String (byte (128 + (n / 64) mod 64)) (String (byte (128 + n mod 64)) ""))
  else
    String (byte (240 + n / 262144))
      (String (byte (128 + (n / 4096) mod 64))
         (String (byte (128 + (n / 64) mod 64)) (String (byte (128 + n mod 64)) ""))).

(** [chr(n)]. *)
Definition chr (n : Z) : result string :=
  if (n <? 0) || (1114111 <? n)
  then Raise (ValueError "chr() arg not in range(0x110000)")
  else Ok (utf8 n).

(** [l[i]] on a Python list: a negative index counts from the end. *)
Definition getitem {A} (l : list A) (i : Z) : result A :=
  let n := Z.of_nat (length l) in
  let i' := if i <? 0 then i + n else i in
  if (i' <? 0) || (n <=? i') then Raise IndexError
  else match l !! Z.to_nat i' with
       | Some x => Ok x
       | None => Raise IndexError
       end.

(** [a / b] on two integers, as a float.  The conversion is exact below
    2^53, far above any score or question count. *)
Definition float_of_nat (n : nat) : float :=
  PrimFloat.of_uint63 (Uint63.of_Z (Z.of_nat n)).

(** Rounding [num / den] to the nearest integer, ties to even. *)
Definition round_half_even (num den : Z) : Z :=
  let q := num / den in
  let r := num mod den in
  if 2 * r <? den then q
  else if den <? 2 * r then q + 1
  else if Z.even q then q else q + 1.

Definition str_Z (n : Z) : string := str (Z.to_nat n).

(** [f"{x:.1f}"]: the decimal with one digit after the point nearest to
    the exact value of the float. *)
Definition format_1f (x : float) : string :=
  match Prim2SF x with
  | S754_zero s => (if s then "-" else "") +:+ "0.0"
  | S754_infinity s => if s then "-inf" else "inf"
  | S754_nan => "nan"
  | S754_finite s m e =>
    let tenths :=
      if 0 <=? e then Z.pos m * 10 * 2 ^ e
      else round_half_even (Z.pos m * 10) (2 ^ (- e)) in
    (if s then "-" else "") +:+ str_Z (tenths / 10) +:+ "." +:+ str_Z (tenths mod 10)
  end.

Module Runtime.

Local Open Scope nat_scope.

(** *** The world a run acts on

    List objects live in a heap and are named by their address, so that
    two names for one list see each other's updates; the dictionaries
    they hold are never updated by the program and are plain values.
    Standard input is the lines still to be read; standard output is the
    strings written so far.  The random generator is the sequence of raw
    draws it will produce and the number already consumed. *)
Abbreviation loc := nat (only parsing).

Record world : Type := mk_world {
  heap : list (list Question);
  stdin : list string;
  stdout : list string;
  entropy : nat -> nat;
  drawn : nat
}.

Definition set_heap (h : list (list Question)) (w : world) : world :=
  mk_world h (stdin w) (stdout w) (entropy w) (drawn w).
Definition set_stdin (i : list string) (w : world) : world :=
  mk_world (heap w) i (stdout w) (entropy w) (drawn w).
Definition set_stdout (o : list string) (w : world) : world :=
  mk_world (heap w) (stdin w) o (entropy w) (drawn w).
Definition set_drawn (n : nat) (w : world) : world :=
  mk_world (heap w) (stdin w) (stdout w) (entropy w) n.

(** A computation: the outcome and the world it leaves.  What was
    written, read or stored before an exception stays so. *)
Definition M (A : Type) : Type := world -> result A * world.

Definition ret {A} (a : A) : M A := fun w => (Ok a, w).

Definition raise {A} (e : exn) : M A := fun w => (Raise e, w).

Definition bind {A B} (m : M A) (k : A -> M B) : M B :=
  fun w =>
    match m w with
    | (Ok a, w') => k a w'
    | (Raise e, w') => (Raise e, w')
    end.

Definition lift {A} (r : result A) : M A :=
  match r with
  | Ok a => ret a
  | Raise e => raise e
  end.

Declare Scope quiz_scope.
Delimit Scope quiz_scope with quiz.
Notation "x <- m ;; k" := (bind m (fun x => k))
  (at level 100, m at next level, right associativity) : quiz_scope.
Notation "m ;; k" := (bind m (fun _ => k))
  (at level 100, right associativity) : quiz_scope.
Local Open Scope quiz_scope.

(** [sys.stdout.write(s)], [print(s)] and [input(prompt)]. *)
Definition write (s : string) : M unit :=
  fun w => (Ok tt, set_stdout (stdout w ++ [s]) w).

Definition print (s : string) : M unit := write (s +:+ nl).

Definition read_line : M string :=
  fun w =>
    match stdin w with
    | [] => (Raise EOFError, w)
    | line :: rest => (Ok line, set_stdin rest w)
    end.

Definition input (prompt : string) : M string :=
  write prompt ;; read_line.

(** List objects. An address outside the heap does not occur in a run;
    the model stops there with [SystemError]. *)
Definition deref (l : loc) : M (list Question) :=
  fun w =>
    match heap w !! l with
    | Some x => (Ok x, w)
    | None => (Raise SystemError, w)
    end.

Definition store (l : loc) (x : list Question) : M unit :=
  fun w => (Ok tt, set_heap (<[l := x]> (heap w)) w).

Definition alloc (x : list Question) : M loc :=
  fun w => (Ok (length (heap w)), set_heap (heap w ++ [x]) w).

(** [x.copy()]: a new list object with the same elements. *)
Definition list_copy (l : loc) : M loc :=
  x <- deref l ;; alloc x.

(** [random.shuffle(x)]: for [i] from [len(x) - 1] down to 1, exchange
    [x[i]] with [x[j]] for a random [j] in [0, i], in place. *)
Definition randbelow (n : nat) : M nat :=
  fun w => (Ok (entropy w (drawn w) mod n), set_drawn (S (drawn w)) w).

Definition swap {A} (x : list A) (i j : nat) : list A :=
  match x !! i, x !! j with
  | Some xi, Some xj => <[j := xi]> (<[i := xj]> x)
  | _, _ => x
  end.

Fixpoint shuffle_loop (l : loc) (i : nat) : M unit :=
  match i with
  | O => ret tt
  | S i' =>
    j <- randbelow (S i) ;;
    x <- deref l ;;
    store l (swap x i j) ;;
    shuffle_loop l i'
  end.

Definition random_shuffle (l : loc) : M unit :=
  x <- deref l ;;
  shuffle_loop l (length x - 1).

(** *** class [Quiz] *)

Record Quiz : Type := mkQuiz {
  name : string;
  title : string;
  questions : loc;
  score : nat;
  total : nat
}.

Definition add_score (self : Quiz) (n : nat) : Quiz :=
  mkQuiz (name self) (title self) (questions self) (score self + n) (total self).

Definition __init__ (name title : string) (questions : loc) : M Quiz :=
  qs <- deref questions ;;
  ret (mkQuiz name title questions 0 (length qs)).

(** The loop that prints the choices, each under its letter. *)
Fixpoint show_choices (i : Z) (choices : list string) : M unit :=
  match choices with
  | [] => ret tt
  | choice :: rest =>
    letter <- lift (chr (97 + i)) ;;
    print ("  " +:+ letter +:+ ") " +:+ choice) ;;
    show_choices (i + 1) rest
  end.

(** What follows an accepted letter: the verdict, the explanation, the
    pause, and [return True]. *)
Definition mark_answer (self : Quiz) (q : Question) (answer : string)
    : M (bool * Quiz) :=
  let correct_index := correct q in
  code <- lift (ord answer) ;;
  self' <- (if (code - 97 =? correct_index)%Z then
              print "✓ Correct!" ;;
              ret (add_score self 1)
            else
              correct_letter <- lift (chr (97 + correct_index)) ;;
              choice <- lift (getitem (choices q) correct_index) ;;
              print ("✗ Wrong! The correct answer was " +:+ correct_letter
                     +:+ ") " +:+ choice) ;;
              ret self) ;;
  (if String.eqb (explanation q) "" then ret tt
   else print ("Explanation: " +:+ explanation q)) ;;
  input (nl +:+ "Press Enter to continue...") ;;
  ret (true, self').

(** The [while True] loop of [_ask_question].  Every turn reads one line
    before it can come round again, so the lines still on standard input
    when the loop starts, [pending], bound the number of turns. *)
Fixpoint answer_loop (self : Quiz) (q : Question)
    (pending : list string) : M (bool * Quiz) :=
  answer_line <- input (nl +:+ "Your answer: ") ;;
  let answer := lower (strip answer_line) in
  if String.eqb answer "quit" then ret (false, self)
  else if existsb (String.eqb answer) ["a"; "b"; "c"; "d"] then
    mark_answer self q answer
  else
    print "Please enter a valid letter (a, b, c, d) or 'quit'" ;;
    match pending with
    | [] => raise EOFError
    | _ :: pending' => answer_loop self q pending'
    end.

Definition _ask_question (self : Quiz) (num : nat) (q : Question)
    : M (bool * Quiz) :=
  print (nl +:+ "Question " +:+ str num +:+ "/" +:+ str (total self) +:+ ":") ;;
  print (question q) ;;
  print "" ;;
  show_choices 0 (choices q) ;;
  fun w => answer_loop self q (stdin w) w.

(** The [for] loop of [run], with its [break]. *)
Fixpoint ask_all (self : Quiz) (i : nat) (qs : list Question) : M Quiz :=
  match qs with
  | [] => ret self
  | q :: rest =>
    r <- _ask_question self i q ;;
    if r.1 then ask_all r.2 (S i) rest else ret r.2
  end.

Definition percentage (self : Quiz) : float :=
  PrimFloat.mul
    (PrimFloat.div (float_of_nat (score self)) (float_of_nat (total self)))
    (float_of_nat 100).

Definition at_least (bound : nat) (x : float) : bool :=
  PrimFloat.leb (float_of_nat bound) x.

(** The closing message of each band. *)
Definition band_message (pct : float) : string :=
  if at_least 90 pct then "🌟 Excellent work!"
  else if at_least 80 pct then "👍 Great job!"
  else if at_least 70 pct then "👌 Good effort!"
  else if at_least 60 pct then "📚 Keep studying!"
  else "💪 Practice makes perfect!".

Definition score_line (self : Quiz) (pct : float) : string :=
  "Score: " +:+ str (score self) +:+ "/" +:+ str (total self)
  +:+ " (" +:+ format_1f pct +:+ "%)".

Definition _show_results (self : Quiz) : M unit :=
  if total self =? 0 then raise ZeroDivisionError
  else
    let pct := percentage self in
    print (nl +:+ repeat_string "=" 60) ;;
    print "QUIZ RESULTS" ;;
    print (repeat_string "=" 60) ;;
    print (score_line self pct) ;;
    print (band_message pct).

Definition no_questions_message (name : string) : string :=
  "Quiz '" +:+ name +:+ "' has no questions!".

Definition run (self : Quiz) (shuffle : bool) : M Quiz :=
  qs <- deref (questions self) ;;
  match qs with
  | [] =>
    print (no_questions_message (name self)) ;;
    ret self
  | _ :: _ =>
    print (nl +:+ repeat_string "=" 60) ;;
    print ("  " +:+ title self) ;;
    print (repeat_string "=" 60) ;;
    print ("Total Questions: " +:+ str (total self)) ;;
    print "Type the letter (a, b, c, d) for your answer" ;;
    print "Type 'quit' to exit early" ;;
    print (repeat_string "-" 60) ;;
    questions <- list_copy (questions self) ;;
    (if shuffle then random_shuffle questions else ret tt) ;;
    order <- deref questions ;;
    self' <- ask_all self 1 order ;;
    _show_results self' ;;
    ret self'
  end.

(** *** What the user types, and what it is worth *)

(** The answer the loop sees in a line. *)
Definition normalise (line : string) : string := lower (strip line).

Definition is_quit (line : string) : bool := String.eqb (normalise line) "quit".

Definition is_letter (line : string) : bool :=
  existsb (String.eqb (normalise line)) ["a"; "b"; "c"; "d"].

(** A line the loop turns down with a new prompt. *)
Definition is_rejected (line : string) : bool :=
  negb (is_quit line) && negb (is_letter line).

(** What the user types at one question that gets answered: any number
    of lines that are turned down, the line with the letter, and the line
    that ends the pause. *)
Record answer : Type := mk_answer {
  rejected : list string;
  letter : string;
  pause : string
}.

Definition typed (answers : list answer) : list string :=
  a ← answers; rejected a ++ [letter a; pause a].

Definition accepted (a : answer) : Prop :=
  Forall (fun line => is_rejected line = true) (rejected a) /\
  is_letter (letter a) = true.

(** The label of the correct choice, as the runtime derives it when it
    reveals the answer. *)
Definition correct_label (q : Question) : result string := chr (97 + correct q).

(** The point an accepted letter earns on a question, by the test of
    [_ask_question]. *)
Definition letter_points (q : Question) (letter : string) : nat :=
  match ord letter with
  | Ok code => if (code - 97 =? correct q)%Z then 1 else 0
  | Raise _ => 0
  end.

Definition points (q : Question) (line : string) : nat :=
  letter_points q (normalise line).

(** The points of a run of answers, one per question in order. *)
Fixpoint tally (qs : list Question) (answers : list answer) : nat :=
  match qs, answers with
  | q :: qs', a :: answers' => points q (letter a) + tally qs' answers'
  | _, _ => 0
  end.

(** A question as [get_quiz_questions] builds it: four choices and the
    index of one of them. *)
Definition well_formed (q : Question) : Prop :=
  length (choices q) = 4 /\ (0 <= correct q < 4)%Z.

(** The world after reading up to [rest] and writing [out]. *)
Definition io (w : world) (rest out : list string) : world :=
  mk_world (heap w) rest (stdout w ++ out) (entropy w) (drawn w).

(** The five lines [_show_results] prints for a score out of a total. *)
Definition results (score total : nat) : list string :=
  let self := mkQuiz "" "" 0 score total in
  let pct := percentage self in
  [nl +:+ repeat_string "=" 60 +:+ nl;
   "QUIZ RESULTS" +:+ nl;
   repeat_string "=" 60 +:+ nl;
   score_line self pct +:+ nl;
   band_message pct +:+ nl].

(** [m] returns [a] in [w], having read up to [rest] and written [out]. *)
Definition yields {A} (m : M A) (w : world) (a : A) (rest out : list string) : Prop :=
  m w = (Ok a, io w rest out).

(** The seven lines of the banner. *)
Definition banner (self : Quiz) : list string :=
  [(nl +:+ repeat_string "=" 60) +:+ nl;
   ("  " +:+ title self) +:+ nl;
   repeat_string "=" 60 +:+ nl;
   ("Total Questions: " +:+ str (total self)) +:+ nl;
   "Type the letter (a, b, c, d) for your answer" +:+ nl;
   "Type 'quit' to exit early" +:+ nl;
   repeat_string "-" 60 +:+ nl].

(** The world in which the questions are asked: the banner is out, the
    copy of the question list is the newest object on the heap, in the
    order [order], and the shuffle has drawn [draws] times. *)
Definition asking (self : Quiz) (w : world) (order : list Question)
    (draws : nat) : world :=
  mk_world (heap w ++ [order]) (stdin w) (stdout w ++ banner self)
           (entropy w) (drawn w + draws).

(** *** What a computation leaves alone

    [kept n w w']: the first [n] list objects of [w] are the same in [w'],
    and none was dropped. *)
Definition kept (n : nat) (w w' : world) : Prop :=
  n <= length (heap w') /\ take n (heap w') = take n (heap w).

(** [sat n E V m]: run in a world with at least [n] list objects, [m]
    keeps the first [n], returns only values in [V] and raises only
    exceptions in [E]. *)
Definition sat (n : nat) (E : exn -> Prop) {A} (V : A -> Prop) (m : M A) : Prop :=
  forall w r w',
    n <= length (heap w) -> m w = (r, w') ->
    kept n w w' /\ match r with Ok a => V a | Raise e => E e end.

Definition any {A} (_ : A) : Prop := True.

(** The fields of a quiz object other than its score. *)
Definition same_quiz (self self' : Quiz) : Prop :=
  name self' = name self /\ title self' = title self /\
  questions self' = questions self /\ total self' = total self.

End Runtime.

(** ** [run_quiz_command]: from the stored quiz to a run *)

Definition run_quiz_command (db : Storage.database) (quiz_name : string)
    (shuffle : bool) : Runtime.M unit :=
  let bind {A B} := @Runtime.bind A B in
  match Storage.get_quiz_info quiz_name db with
  | None => Runtime.print ("Quiz '" +:+ quiz_name +:+ "' not found!")
  | Some quiz_info =>
    if (Storage.question_count quiz_info =? 0)%nat then
      bind (Runtime.print (Runtime.no_questions_message quiz_name)) (fun _ =>
      Runtime.print ("Use: python quiz.py --add " +:+ quiz_name))
    else
      bind (Runtime.lift (Storage.get_quiz_questions quiz_name db)) (fun qs =>
      bind (Runtime.alloc qs) (fun questions =>
      bind (Runtime.__init__ quiz_name (Storage.title quiz_info) questions) (fun quiz =>
      bind (Runtime.run quiz shuffle) (fun _ =>
      Runtime.ret tt))))
  end.

(** ** The "geo" scenario of the specification

    A quiz "geo" with three questions whose correct answers are a, b
    and c, built through the storage methods, and a console on which the
    given lines wait to be read. *)
Definition geo_inputs : list Storage.question_input :=
  [Storage.mk_question_input 2 "Capital of France?"
     ["Paris"; "Rome"; "Oslo"; "Bern"] "a" "";
   Storage.mk_question_input 3 "Capital of Italy?"
     ["Paris"; "Rome"; "Oslo"; "Bern"] "b" "It is Rome.";
   Storage.mk_question_input 4 "Capital of Norway?"
     ["Paris"; "Rome"; "Oslo"; "Bern"] "c" ""].

Definition geo_quiz : Storage.database :=
  (Storage.add_questions "geo" geo_inputs
     (Storage.create_quiz 1 "geo" "Geography" "" Storage.empty_database).2).2.

Definition geo_questions : list Question :=
  Storage.question_of_input <$> geo_inputs.

Definition console (lines : list string) : Runtime.world :=
  Runtime.mk_world [] lines [] (fun _ => 0%nat) 0%nat.

(** The three questions as a list object; one answer and then quit,
    each after lines that are turned down, with a line left unread. *)
Definition quit_after_one : Runtime.world :=
  Runtime.mk_world [geo_questions]
                   ["e"; ""; "a"; ""; "stop"; " Quit "; "b"] []
                   (fun _ => 0%nat) 0%nat.

(** The same list object, for a shuffled run cut short by the end of
    input. *)
Definition shuffled_run : Runtime.world :=
  Runtime.mk_world [geo_questions] ["c"; ""; "x"] []
                   (fun k => (k + 1)%nat) 0%nat.

(** A quiz object built over an empty list to which a question is added
    before the run: its [total] is stale. *)
Definition stale_total : Runtime.M Runtime.Quiz :=
  Runtime.bind (Runtime.__init__ "geo" "Geography" 0%nat) (fun quiz =>
  Runtime.bind (Runtime.store 0%nat geo_questions) (fun _ =>
  Runtime.run quiz false)).

(** ** More Python built-ins, for the command line

    As for the runtime, the methods that look at code points ([title],
    [isdigit], [int], [len], slices, padding) are modelled on the ASCII
    range, where a character is a byte. *)

(** [str(e)] for the exceptions [add_question] raises; the others carry
    no text in this model. *)
Definition str_exn (e : exn) : string :=
  match e with
  | ValueError msg => msg
  | IntegrityError msg => msg
  | IndexError => "list index out of range"
  | _ => ""
  end.

(** [str(x)] for a value that may be [None]. *)
Definition str_option (x : option string) : string := default "None" x.

(** [s.replace(old, new)] for single characters. *)
Fixpoint replace_char (old new : ascii) (s : string) : string :=
  match s with
  | EmptyString => EmptyString
  | String c s' =>
    String (if Ascii.eqb c old then new else c) (replace_char old new s')
  end.

Definition is_lower (c : ascii) : bool :=
  let n := nat_of_ascii c in (97 <=? n)%nat && (n <=? 122)%nat.

Definition is_upper (c : ascii) : bool :=
  let n := nat_of_ascii c in (65 <=? n)%nat && (n <=? 90)%nat.

Definition is_cased (c : ascii) : bool := is_lower c || is_upper c.

Definition upper_char (c : ascii) : ascii :=
  if is_lower c then ascii_of_nat (nat_of_ascii c - 32) else c.

(** [s.title()]: a letter is put in upper case when it follows a
    character that is not a letter, in lower case otherwise. *)
Fixpoint title_from (previous_is_cased : bool) (s : string) : string :=
  match s with
  | EmptyString => EmptyString
  | String c s' =>
    String (if previous_is_cased then lower_char c else upper_char c)
           (title_from (is_cased c) s')
  end.

Definition str_title (s : string) : string := title_from false s.

(** [s[:n]]. *)
Fixpoint str_take (n : nat) (s : string) : string :=
  match n, s with
  | S n', String c s' => String c (str_take n' s')
  | _, _ => EmptyString
  end.

(** [f"{s:<width}"]: padded with spaces on the right, never cut. *)
Definition ljust (width : nat) (s : string) : string :=
  s +:+ repeat_string " " (width - String.length s).

Definition is_digit (c : ascii) : bool :=
  let n := nat_of_ascii c in (48 <=? n)%nat && (n <=? 57)%nat.

Fixpoint all_digits (s : string) : bool :=
  match s with
  | EmptyString => true
  | String c s' => is_digit c && all_digits s'
  end.

(** [s.isdigit()]. *)
Definition isdigit (s : string) : bool :=
  negb (String.eqb s "") && all_digits s.

(** [int(s)] for a string of decimal digits. *)
Fixpoint int_from (acc : nat) (s : string) : nat :=
  match s with
  | EmptyString => acc
  | String c s' => int_from (10 * acc + (nat_of_ascii c - 48))%nat s'
  end.

Definition int (s : string) : nat := int_from 0%nat s.

(** ** The commands of the command line *)

Module Cli.

Local Open Scope nat_scope.

(** *** The system a command acts on

    The console, the database file, and the clock that CURRENT_TIMESTAMP
    reads: the sequence of times it will show and the number of readings
    so far. *)
Record system : Type := mk_system {
  console : Runtime.world;
  file : Storage.database;
  clock : nat -> Storage.timestamp;
  ticks : nat
}.

Definition set_console (w : Runtime.world) (s : system) : system :=
  mk_system w (file s) (clock s) (ticks s).

Definition P (A : Type) : Type := system -> result A * system.

Definition ret {A} (a : A) : P A := fun s => (Ok a, s).

Definition raise {A} (e : exn) : P A := fun s => (Raise e, s).

Definition bind {A B} (m : P A) (k : A -> P B) : P B :=
  fun s =>
    match m s with
    | (Ok a, s') => k a s'
    | (Raise e, s') => (Raise e, s')
    end.

Definition lift {A} (r : result A) : P A :=
  match r with
  | Ok a => ret a
  | Raise e => raise e
  end.

(** [try: m] with the outcome handed to the [except] clauses. *)
Definition try {A} (m : P A) : P (result A) :=
  fun s => let '(r, s') := m s in (Ok r, s').

Declare Scope cli_scope.
Delimit Scope cli_scope with cli.
Notation "x <- m ;; k" := (bind m (fun x => k))
  (at level 100, m at next level, right associativity) : cli_scope.
Notation "m ;; k" := (bind m (fun _ => k))
  (at level 100, right associativity) : cli_scope.
Local Open Scope cli_scope.

(** A computation of the runtime, run on the console. *)
Definition on_console {A} (m : Runtime.M A) : P A :=
  fun s => let '(r, w) := m (console s) in (r, set_console w s).

Definition print (line : string) : P unit := on_console (Runtime.print line).

Definition input (prompt : string) : P string := on_console (Runtime.input prompt).

(** A method of [QuizDatabase] that only reads. *)
Definition query {A} (f : Storage.database -> A) : P A :=
  fun s => (Ok (f (file s)), s).

(** A method of [QuizDatabase] that writes; an insertion reads the clock. *)
Definition update {A} (f : Storage.database -> A * Storage.database) : P A :=
  fun s =>
    let '(a, db) := f (file s) in
    (Ok a, mk_system (console s) db (clock s) (ticks s)).

Definition insert {A}
    (f : Storage.timestamp -> Storage.database -> result A * Storage.database)
    : P A :=
  fun s =>
    let '(r, db) := f (clock s (ticks s)) (file s) in
    (r, mk_system (console s) db (clock s) (S (ticks s))).

(** [run_quiz_command] on the file as it is. *)
Definition run_quiz (quiz_name : string) (shuffle : bool) : P unit :=
  fun s => on_console (run_quiz_command (file s) quiz_name shuffle) s.

(** *** [create_quiz_command] *)

Definition default_title (quiz_name : string) : string :=
  str_title (replace_char "_" " " quiz_name).

Definition create_quiz_command (quiz_name : string) : P bool :=
  print ("Creating quiz: " +:+ quiz_name) ;;
  print (repeat_string "-" 40) ;;
  title_line <- input "Quiz title: " ;;
  let title := strip title_line in
  let title := if String.eqb title "" then default_title quiz_name else title in
  description_line <- input "Quiz description (optional): " ;;
  let description := strip description_line in
  r <- try (insert (fun now =>
              Storage.create_quiz now quiz_name title description)) ;;
  match r with
  | Ok quiz_id =>
    print ("✓ Quiz '" +:+ quiz_name +:+ "' created successfully!") ;;
    ret true
  | Raise (ValueError msg) =>
    print ("Error: " +:+ msg) ;;
    ret false
  | Raise e => raise e
  end.

(** *** [add_questions_command] *)

(** [for i in range(4)]: the choices read so far, until one is blank. *)
Fixpoint read_choices (remaining : nat) (i : Z) (choices : list string)
    : P (list string) :=
  match remaining with
  | O => ret choices
  | S remaining' =>
    letter <- lift (chr (97 + i)) ;;
    line <- input ("Choice " +:+ letter +:+ ": ") ;;
    let choice := strip line in
    if String.eqb choice "" then
      print "All 4 choices are required!" ;;
      ret choices
    else read_choices remaining' (i + 1)%Z (choices ++ [choice])
  end.

(** The [while True] loop that asks for the correct letter.  As in
    [Runtime.answer_loop], the lines on standard input when the loop
    starts bound its turns. *)
Fixpoint read_correct (pending : list string) : P string :=
  line <- input "Correct answer (a, b, c, d): " ;;
  let correct := lower (strip line) in
  if existsb (String.eqb correct) ["a"; "b"; "c"; "d"] then ret correct
  else
    print "Please enter a, b, c, or d" ;;
    match pending with
    | [] => raise EOFError
    | _ :: pending' => read_correct pending'
    end.

(** The outer [while True] loop: one question per turn, or a turn lost
    to a blank entry. *)
Fixpoint add_loop (quiz_name : string) (pending : list string)
    (question_num : nat) : P unit :=
  let again (question_num : nat) : P unit :=
    match pending with
    | [] => raise EOFError
    | _ :: pending' => add_loop quiz_name pending' question_num
    end in
  print (nl +:+ "--- Question " +:+ str question_num +:+ " ---") ;;
  question_line <- input "Question: " ;;
  let question_text := strip question_line in
  if String.eqb question_text "" then
    print "Question cannot be empty!" ;;
    again question_num
  else
    choices <- read_choices 4 0 [] ;;
    if negb (length choices =? 4) then again question_num
    else
      correct <- (fun s => read_correct (Runtime.stdin (console s)) s) ;;
      explanation_line <- input "Explanation (optional): " ;;
      let explanation := strip explanation_line in
      r <- try (insert (fun now =>
                  Storage.add_question now quiz_name question_text choices
                                       correct explanation)) ;;
      match r with
      | Raise e =>
        print ("Error adding question: " +:+ str_exn e) ;;
        again question_num
      | Ok _ =>
        print "✓ Question added!" ;;
        more <- input (nl +:+ "Add another question? (y/n): ") ;;
        if negb (String.eqb (lower (strip more)) "y") then ret tt
        else again (question_num + 1)
      end.

Definition add_questions_command (quiz_name : string) : P unit :=
  quiz_info <- query (Storage.get_quiz_info quiz_name) ;;
  match quiz_info with
  | None =>
    print ("Error: Quiz '" +:+ quiz_name +:+ "' not found!") ;;
    print "Use --create to create it first, or --list to see available quizzes."
  | Some quiz_info =>
    print ("Adding questions to: " +:+ Storage.title quiz_info) ;;
    print ("Current questions: " +:+ str (Storage.question_count quiz_info)) ;;
    print (repeat_string "-" 50) ;;
    (fun s => add_loop quiz_name (Runtime.stdin (console s))
                       (Storage.question_count quiz_info + 1) s) ;;
    updated_info <- query (Storage.get_quiz_info quiz_name) ;;
    match updated_info with
    | None => raise TypeError
    | Some updated_info =>
      print (nl +:+ "Quiz '" +:+ quiz_name +:+ "' now has "
             +:+ str (Storage.question_count updated_info) +:+ " questions!")
    end
  end.

(** *** [list_quizzes_command] *)

(** The description column: cut to 30 characters and marked when longer.
    A quiz without description makes [len] raise. *)
Definition shorten (description : option string) : result string :=
  match description with
  | None => Raise TypeError
  | Some d =>
    Ok (if 30 <? String.length d then str_take 30 d +:+ "..." else d)
  end.

Definition listing_header : string :=
  ljust 20 "Name" +:+ " " +:+ ljust 30 "Title" +:+ " " +:+ ljust 10 "Questions"
  +:+ " " +:+ "Description".

Definition listing_row (quiz : Storage.QuizInfo) (desc : string) : string :=
  ljust 20 (Storage.name quiz) +:+ " " +:+ ljust 30 (Storage.title quiz) +:+ " "
  +:+ ljust 10 (str (Storage.question_count quiz)) +:+ " " +:+ desc.

Fixpoint print_rows (quizzes : list Storage.QuizInfo) : P unit :=
  match quizzes with
  | [] => ret tt
  | quiz :: rest =>
    desc <- lift (shorten (Storage.description quiz)) ;;
    print (listing_row quiz desc) ;;
    print_rows rest
  end.

Definition list_quizzes_command : P unit :=
  quizzes <- query Storage.list_quizzes ;;
  match quizzes with
  | [] =>
    print "No quizzes found!" ;;
    print "Use --create <name> to create your first quiz."
  | _ :: _ =>
    print listing_header ;;
    print (repeat_string "-" 80) ;;
    print_rows quizzes
  end.

(** *** [main] *)

(** The numbered menu. *)
Fixpoint print_menu (i : nat) (quizzes : list Storage.QuizInfo) : P unit :=
  match quizzes with
  | [] => ret tt
  | quiz :: rest =>
    print ("  " +:+ str i +:+ ". " +:+ Storage.name quiz +:+ " - "
           +:+ Storage.title quiz +:+ " ("
           +:+ str (Storage.question_count quiz) +:+ " questions)") ;;
    print_menu (S i) rest
  end.

(** The selection loop.  KeyboardInterrupt, which the source catches
    here, is not an event of this model. *)
Fixpoint select_loop (quizzes : list Storage.QuizInfo) (pending : list string)
    : P unit :=
  line <- input (nl +:+ "Select quiz (1-" +:+ str (length quizzes) +:+ "): ") ;;
  let choice := strip line in
  if isdigit choice && (1 <=? int choice) && (int choice <=? length quizzes)
  then
    match quizzes !! (int choice - 1) with
    | Some selected => run_quiz (Storage.name selected) false
    | None => raise IndexError
    end
  else
    print "Invalid selection!" ;;
    match pending with
    | [] => raise EOFError
    | _ :: pending' => select_loop quizzes pending'
    end.

(** The namespace [parse_args] returns. *)
Record arguments : Type := mk_arguments {
  quiz : option string;
  create : option string;
  add : option string;
  list : bool;
  delete : option string;
  shuffle : bool;
  info : option string
}.

(** [if args.x:] on an optional string: neither [None] nor empty. *)
Definition given (x : option string) : option string :=
  match x with
  | Some s => if String.eqb s "" then None else Some s
  | None => None
  end.

Definition main (args : arguments) : P unit :=
  update (fun db => (tt, Storage.init_database db)) ;;
  match given (create args) with
  | Some quiz_name =>
    created <- create_quiz_command quiz_name ;;
    if created : bool
    then print ("Next step: python quiz.py --add " +:+ quiz_name)
    else ret tt
  | None =>
  match given (add args) with
  | Some quiz_name => add_questions_command quiz_name
  | None =>
  if list args then list_quizzes_command
  else
  match given (delete args) with
  | Some quiz_name =>
    deleted <- update (Storage.delete_quiz quiz_name) ;;
    if deleted : bool
    then print ("Quiz '" +:+ quiz_name +:+ "' deleted successfully!")
    else print ("Quiz '" +:+ quiz_name +:+ "' not found!")
  | None =>
  match given (info args) with
  | Some quiz_name =>
    quiz_info <- query (Storage.get_quiz_info quiz_name) ;;
    match quiz_info with
    | Some quiz_info =>
      print ("Name: " +:+ Storage.name quiz_info) ;;
      print ("Title: " +:+ Storage.title quiz_info) ;;
      print ("Description: " +:+ str_option (Storage.description quiz_info)) ;;
      print ("Questions: " +:+ str (Storage.question_count quiz_info))
    | None => print ("Quiz '" +:+ quiz_name +:+ "' not found!")
    end
  | None =>
  match given (quiz args) with
  | Some quiz_name => run_quiz quiz_name (shuffle args)
  | None =>
    quizzes <- query Storage.list_quizzes ;;
    match quizzes with
    | [] =>
      print "No quizzes found!" ;;
      print "Create your first quiz: python quiz.py --create myquiz"
    | _ :: _ =>
      print "Available quizzes:" ;;
      print_menu 1 quizzes ;;
      fun s => select_loop quizzes (Runtime.stdin (console s)) s
    end
  end end end end end.

(** *** One invocation of the program

    Between invocations the database is a file, absent until a first
    invocation: [QuizDatabase()] at the start of [main] connects, which
    creates the file, and [init_database] then creates the two tables,
    empty, unless they exist.  [opened d] is the file [main] works on. *)
Definition disk : Type := option Storage.database.

Definition opened (d : disk) : Storage.database :=
  match d with
  | None => Storage.empty_database
  | Some db => db
  end.

Definition invoke (args : arguments) (w : Runtime.world) (d : disk)
    (clock : nat -> Storage.timestamp) (ticks : nat)
    : result unit * Runtime.world * disk :=
  let '(r, s) := main args (mk_system w (opened d) clock ticks) in
  (r, console s, Some (file s)).

End Cli.

(** ** What a run prints

    The output of a run, piece by piece, as a function of the questions
    and of what is typed. *)

Definition answer_prompt : string := nl +:+ "Your answer: ".

(** For each line that is turned down: the prompt it answered and the
    reminder. *)
Definition turned_down (lines : list string) : list string :=
  lines ≫= (fun _ =>
    [answer_prompt;
     "Please enter a valid letter (a, b, c, d) or 'quit'" +:+ nl]).

(** The choices, each under its letter, from the letter of code
    [97 + i] on. *)
Fixpoint shown_choices (i : Z) (choices : list string) : list string :=
  match choices with
  | [] => []
  | choice :: rest =>
    (("  " +:+ utf8 (97 + i) +:+ ") " +:+ choice) +:+ nl)
      :: shown_choices (i + 1) rest
  end.

(** A question as it is put: its number out of the total, its text, an
    empty line, its choices. *)
Definition heading (total num : nat) (q : Question) : list string :=
  [(nl +:+ "Question " +:+ str num +:+ "/" +:+ str total +:+ ":") +:+ nl;
   question q +:+ nl;
   "" +:+ nl] ++ shown_choices 0 (choices q).

(** What follows an accepted letter: right or wrong with the correct
    choice, the explanation if there is one, and the pause. *)
Definition verdict (q : Question) (letter : string) : list string :=
  (if (Runtime.letter_points q letter =? 1)%nat then ["✓ Correct!" +:+ nl]
   else [("✗ Wrong! The correct answer was " +:+ utf8 (97 + correct q)
          +:+ ") " +:+ default "" (choices q !! Z.to_nat (correct q)))
         +:+ nl]) ++
  (if String.eqb (explanation q) "" then []
   else [("Explanation: " +:+ explanation q) +:+ nl]) ++
  [nl +:+ "Press Enter to continue..."].

(** One question that gets answered. *)
Definition answered (total num : nat) (q : Question) (a : Runtime.answer)
    : list string :=
  heading total num q ++ turned_down (Runtime.rejected a) ++
  [answer_prompt] ++ verdict q (Runtime.normalise (Runtime.letter a)).

(** The questions from number [num] on: one answer each while there are
    answers; the question after the last answer, if there is one, is put
    and left with quit, after the lines [junk] that are turned down. *)
Fixpoint transcript (total num : nat) (qs : list Question)
    (answers : list Runtime.answer) (junk : list string) : list string :=
  match qs with
  | [] => []
  | q :: qs' =>
    match answers with
    | a :: answers' =>
      answered total num q a ++ transcript total (S num) qs' answers' junk
    | [] => heading total num q ++ turned_down junk ++ [answer_prompt]
    end
  end.

(** ** What the menu prints *)

Fixpoint menu_lines (i : nat) (rows : list Storage.QuizInfo) : list string :=
  match rows with
  | [] => []
  | row :: rest =>
    (("  " +:+ str i +:+ ". " +:+ Storage.name row +:+ " - "
      +:+ Storage.title row +:+ " ("
      +:+ str (Storage.question_count row) +:+ " questions)") +:+ nl)
      :: menu_lines (S i) rest
  end.

Definition select_prompt (n : nat) : string :=
  nl +:+ "Select quiz (1-" +:+ str n +:+ "): ".

(** The menu, then for each line that is not a selection the prompt it
    answered and the complaint, then the prompt the selection answers. *)
Definition menu_transcript (rows : list Storage.QuizInfo)
    (junk : list string) : list string :=
  ("Available quizzes:" +:+ nl) :: menu_lines 1 rows ++
  (junk ≫= (fun _ =>
     [select_prompt (length rows); "Invalid selection!" +:+ nl])) ++
  [select_prompt (length rows)].

(** ** Scenario with two stored quizzes

    The quiz "geo" with its three questions, and a quiz "capitals" with
    a long description and one question. *)
Definition geo_and_capitals : Storage.database :=
  (Storage.add_question 8 "capitals" "Capital of Peru?"
     ["Quito"; "Lima"; "Oslo"; "Bern"] "b" "It is Lima."
     (Storage.create_quiz 7 "capitals" "World Capitals"
        "The capital cities of every country of the world" geo_quiz).2).2.

(** ** Vocabulary of the further properties *)

(** Text in the ASCII range, on which the string methods of Python and
    their models here agree: white space, case, digits and lengths. *)
Definition is_ascii (c : ascii) : bool := (nat_of_ascii c <? 128)%nat.

Fixpoint ascii_only (s : string) : bool :=
  match s with
  | EmptyString => true
  | String c s' => is_ascii c && ascii_only s'
  end.

(** Lines typed in ASCII, and no longer than the 4300 digits that [int]
    converts. *)
Definition plain_text (line : string) : bool :=
  ascii_only line && (String.length line <=? 4300)%nat.

Definition plain_lines (lines : list string) : Prop :=
  Forall (fun line => plain_text line = true) lines.

(** A quiz row with a description, all in ASCII. *)
Definition plain_quiz (qz : Storage.quiz_row) : Prop :=
  ascii_only (Storage.qz_name qz) = true /\
  ascii_only (Storage.qz_title qz) = true /\
  exists d, Storage.qz_description qz = Some d /\ ascii_only d = true.

(** Strings of white space only, and strings without any. *)
Fixpoint all_space (s : string) : bool :=
  match s with
  | EmptyString => true
  | String c s' => is_space c && all_space s'
  end.

Fixpoint no_space (s : string) : bool :=
  match s with
  | EmptyString => true
  | String c s' => negb (is_space c) && no_space s'
  end.

(** [{Pre} m {Post | Exc}] for a computation over any state: started
    where [Pre] holds, [m] returns a value and a state in [Post], or
    raises an exception and leaves a state in [Exc]. *)
Definition hoare {S A : Type} (Pre : S -> Prop) (m : S -> result A * S)
    (Post : A -> S -> Prop) (Exc : exn -> S -> Prop) : Prop :=
  forall s, Pre s ->
    match m s with
    | (Ok a, s') => Post a s'
    | (Raise e, s') => Exc e s'
    end.

(** The states of a run: the list objects are [h]; the lines still to be
    read are [pending]. *)
Definition heap_is (h : list (list Question)) (w : Runtime.world) : Prop :=
  Runtime.heap w = h.

Definition waiting (h : list (list Question)) (pending : list string)
    (w : Runtime.world) : Prop :=
  Runtime.heap w = h /\ Runtime.stdin w = pending.

(** The one failure of a run: [EOFError], with nothing left to read. *)
Definition end_of_input (e : exn) (w : Runtime.world) : Prop :=
  e = EOFError /\ Runtime.stdin w = [].

(** The states of a command: at most [n] lines are left to read, and the
    file is in [F]. *)
Definition ready (n : nat) (F : Storage.database -> Prop) (s : Cli.system)
    : Prop :=
  (length (Runtime.stdin (Cli.console s)) <= n)%nat /\ F (Cli.file s).

(** The one failure of a command: [EOFError], with nothing left to read,
    and the file in [F]. *)
Definition stopped (F : Storage.database -> Prop) (e : exn) (s : Cli.system)
    : Prop :=
  e = EOFError /\ Runtime.stdin (Cli.console s) = [] /\ F (Cli.file s).

(** Any failure, with the file in [F]. *)
Definition failed (F : Storage.database -> Prop) (e : exn) (s : Cli.system)
    : Prop :=
  F (Cli.file s).

(** A question row as [add_questions_command] means to store it for the
    quiz [quiz_name] of the file [db]: owned by that quiz, with a text,
    four choices that are not blank, and the label of one of them. *)
Definition clean_row (quiz_name : string) (db : Storage.database)
    (q : Storage.question_row) : Prop :=
  Storage.select_quiz_id quiz_name (Storage.connect db)
    = Some (Storage.q_quiz_id q) /\
  Storage.q_question q <> "" /\
  Forall (fun c => c <> "")
    [Storage.q_choice_a q; Storage.q_choice_b q; Storage.q_choice_c q;
     Storage.q_choice_d q] /\
  Storage.check_correct_answer (Storage.q_correct_answer q) = true.

(** The options [main] acts on: the first that is given, in the order in
    which [main] tests them, and the shuffle flag only with a quiz name. *)
Definition effective (args : Cli.arguments) : Cli.arguments :=
  match Cli.given (Cli.create args) with
  | Some n => Cli.mk_arguments None (Some n) None false None false None
  | None =>
  match Cli.given (Cli.add args) with
  | Some n => Cli.mk_arguments None None (Some n) false None false None
  | None =>
  if Cli.list args then Cli.mk_arguments None None None true None false None
  else
  match Cli.given (Cli.delete args) with
  | Some n => Cli.mk_arguments None None None false (Some n) false None
  | None =>
  match Cli.given (Cli.info args) with
  | Some n => Cli.mk_arguments None None None false None false (Some n)
  | None =>
  match Cli.given (Cli.quiz args) with
  | Some n => Cli.mk_arguments (Some n) None None false None (Cli.shuffle args) None
  | None => Cli.mk_arguments None None None false None false None
  end end end end end.

(** The states of a command followed line by line: the lines still to be
    read, all that was written, the file, and the clock. *)
Definition standing (lines out : list string) (db : Storage.database)
    (t : nat) (c : nat -> Storage.timestamp) (s : Cli.system) : Prop :=
  Runtime.stdin (Cli.console s) = lines /\
  Runtime.stdout (Cli.console s) = out /\
  Cli.file s = db /\ Cli.ticks s = t /\ Cli.clock s = c.

Definition never (e : exn) (s : Cli.system) : Prop := False.

(** One question as it is typed at [add_questions_command]: the eight
    lines of a turn of the loop in which nothing is turned down. *)
Record entry : Type := mk_entry {
  e_question : string;
  e_a : string;
  e_b : string;
  e_c : string;
  e_d : string;
  e_correct : string;
  e_explanation : string;
  e_more : string
}.

Definition entry_lines (e : entry) : list string :=
  [e_question e; e_a e; e_b e; e_c e; e_d e; e_correct e; e_explanation e;
   e_more e].

(** Nothing in it is turned down: the question and the choices are not
    blank, and the line for the correct answer is one of the labels. *)
Definition clean_entry (e : entry) : Prop :=
  strip (e_question e) <> "" /\
  strip (e_a e) <> "" /\ strip (e_b e) <> "" /\ strip (e_c e) <> "" /\
  strip (e_d e) <> "" /\
  Storage.check_correct_answer (lower (strip (e_correct e))) = true.

(** The arguments [add_question] gets for it, and the question that
    [get_quiz_questions] is to give back. *)
Definition entry_input (now : Storage.timestamp) (e : entry)
    : Storage.question_input :=
  Storage.mk_question_input now (strip (e_question e))
    [strip (e_a e); strip (e_b e); strip (e_c e); strip (e_d e)]
    (lower (strip (e_correct e))) (strip (e_explanation e)).

Definition entry_question (e : entry) : Question :=
  Storage.question_of_input (entry_input 0 e).

Fixpoint entry_inputs (c : nat -> Storage.timestamp) (t : nat)
    (entries : list entry) : list Storage.question_input :=
  match entries with
  | [] => []
  | e :: entries' => entry_input (c t) e :: entry_inputs c (S t) entries'
  end.

Definition wants_more (e : entry) : bool :=
  String.eqb (lower (strip (e_more e))) "y".

(** The entries of one run of the command: y after each but the last. *)
Fixpoint session (entries : list entry) : Prop :=
  match entries with
  | [] => False
  | e :: entries' =>
    match entries' with
    | [] => wants_more e = false
    | _ :: _ => wants_more e = true /\ session entries'
    end
  end.

(** What [list_quizzes_command] prints for the rows of a listing. *)
Definition shown (d : option string) : string :=
  match Cli.shorten d with
  | Ok text => text
  | Raise _ => ""
  end.

Definition listing (rows : list Storage.QuizInfo) : list string :=
  match rows with
  | [] =>
    ["No quizzes found!" +:+ nl;
     "Use --create <name> to create your first quiz." +:+ nl]
  | _ :: _ =>
    (Cli.listing_header +:+ nl) :: (repeat_string "-" 80 +:+ nl) ::
    ((fun row => Cli.listing_row row (shown (Storage.description row)) +:+ nl)
       <$> rows)
  end.

(** A line the menu accepts as the number of one of [n] quizzes. *)
Definition valid_selection (n : nat) (line : string) : bool :=
  isdigit (strip line) && (1 <=? int (strip line))%nat
  && (int (strip line) <=? n)%nat.

(** The system after reading up to [rest] and writing [out]. *)
Definition moved (s : Cli.system) (rest out : list string) : Cli.system :=
  Cli.set_console (Runtime.io (Cli.console s) rest out) s.

(** A system for the scenarios: the given lines wait on the console of
    the "geo" scenario, the file is [db], and the clock shows 10, 11, ... *)
Definition desk (lines : list string) (db : Storage.database) : Cli.system :=
  Cli.mk_system (console lines) db (fun t => 10 + Z.of_nat t) 0.

(* ===================================================================== *)
(** * Facts about the SQL helpers *)

Section OrderByFacts.
Context {A K : Type} (leb : K -> K -> bool) (key : A -> K).

Let le (x y : A) : Prop := leb (key x) (key y) = true.

Lemma order_by_cons x l :
  order_by leb key (x :: l) = insert_row leb key x (order_by leb key l).
Proof. reflexivity. Qed.

Lemma insert_row_sorted_head x l :
  HdRel le x l -> insert_row leb key x l = x :: l.
Proof.
  destruct 1 as [|y l' Hxy]; simpl; [reflexivity|].
  unfold le in Hxy. rewrite Hxy. reflexivity.
Qed.

(** A table already in key order is returned as it is. *)
Lemma order_by_sorted l : Sorted le l -> order_by leb key l = l.
Proof.
  induction 1 as [|x l Hl IH Hhd]; [reflexivity|].
  rewrite order_by_cons, IH. apply insert_row_sorted_head, Hhd.
Qed.

Lemma insert_row_perm x l : insert_row leb key x l ≡ₚ x :: l.
Proof.
  induction l as [|y l IH]; simpl; [reflexivity|].
  destruct (leb (key x) (key y)); [reflexivity|].
  rewrite IH. apply Permutation_swap.
Qed.

Lemma order_by_perm l : order_by leb key l ≡ₚ l.
Proof.
  induction l as [|x l IH]; [reflexivity|].
  rewrite order_by_cons, insert_row_perm, IH. reflexivity.
Qed.

Hypothesis leb_total : forall a b, leb a b = true \/ leb b a = true.

Lemma insert_row_keeps_sorted x l :
  Sorted le l -> Sorted le (insert_row leb key x l).
Proof.
  induction 1 as [|y l Hl IH Hhd]; simpl.
  - repeat constructor.
  - destruct (leb (key x) (key y)) eqn:Hxy.
    + constructor; [constructor; assumption | constructor; exact Hxy].
    + constructor; [exact IH|].
      assert (Hyx : le y x)
        by (destruct (leb_total (key x) (key y)); [congruence | assumption]).
      destruct Hhd as [|z l' Hyz]; simpl.
      * constructor; exact Hyx.
      * destruct (leb (key x) (key z)); constructor; assumption.
Qed.

Lemma order_by_is_sorted l : Sorted le (order_by leb key l).
Proof.
  induction l as [|x l IH]; [constructor|].
  rewrite order_by_cons. apply insert_row_keeps_sorted, IH.
Qed.
End OrderByFacts.

(* ===================================================================== *)
(** * The storage layer *)

Module StorageFacts.
Import Storage.

Lemma StronglySorted_sublist {A} (R : relation A) l1 l2 :
  sublist l1 l2 -> StronglySorted R l2 -> StronglySorted R l1.
Proof.
  induction 1 as [|x l1 l2 Hsub IH|x l1 l2 Hsub IH]; intros Hs.
  - constructor.
  - apply StronglySorted_inv in Hs as [Hs Hx]. constructor; [auto|].
    eapply Forall_impl with (P := R x); [|auto].
    rewrite Forall_forall in Hx |- *. intros y Hy.
    eapply Hx, elem_of_sublist; eauto.
  - apply StronglySorted_inv in Hs as [Hs _]. auto.
Qed.

Lemma sorted_fmap_filter {A} (id : A -> Z) (P : A -> Prop)
    `{!forall x, Decision (P x)} l :
  StronglySorted Z.lt (id <$> l) -> StronglySorted Z.lt (id <$> filter P l).
Proof.
  apply StronglySorted_sublist. apply fmap_sublist, sublist_filter.
Qed.

Lemma nodup_fmap_filter {A B} (f : A -> B) (P : A -> Prop)
    `{!forall x, Decision (P x)} l :
  NoDup (f <$> l) -> NoDup (f <$> filter P l).
Proof.
  intros Hnd. eapply sublist_NoDup; [exact Hnd|]. apply fmap_sublist, sublist_filter.
Qed.

Lemma Forall_filter_keep {A} (Q : A -> Prop) (P : A -> Prop)
    `{!forall x, Decision (P x)} l :
  Forall Q l -> Forall Q (filter P l).
Proof.
  rewrite !Forall_forall. intros HQ x [_ Hx]%list_elem_of_filter. auto.
Qed.

Lemma filter_none {A} (P : A -> Prop) `{!forall x, Decision (P x)} l :
  Forall (fun x => ~ P x) l -> filter P l = [].
Proof.
  induction 1 as [|x l Hx _ IH]; [reflexivity|].
  rewrite filter_cons_False by exact Hx. exact IH.
Qed.

(** ** Row identifiers *)

Lemma max_rowid_ge {A} (id : A -> Z) rows r :
  r ∈ rows -> id r <= max_rowid id rows.
Proof.
  induction 1 as [r rows|r r' rows _ IH]; simpl; lia.
Qed.

Lemma next_rowid_fresh {A} (id : A -> Z) rows seq r :
  r ∈ rows -> id r < next_rowid id rows seq.
Proof.
  intros H%(max_rowid_ge id). unfold next_rowid. lia.
Qed.

Lemma next_rowid_above_seq {A} (id : A -> Z) rows seq :
  seq < next_rowid id rows seq.
Proof. unfold next_rowid. lia. Qed.

(** ** Looking a quiz up by name *)

Lemma name_is_spec name qz : name_is name qz = true <-> qz_name qz = name.
Proof. unfold name_is. apply String.eqb_eq. Qed.

Lemma name_is_true name qz : Is_true (name_is name qz) <-> qz_name qz = name.
Proof. rewrite Is_true_true. apply name_is_spec. Qed.

Lemma quiz_exists_spec name db :
  quiz_exists name db = true <-> exists qz, qz ∈ quizzes db /\ qz_name qz = name.
Proof.
  unfold quiz_exists. rewrite existsb_exists. split.
  - intros (qz & Hin & Hn). exists qz. rewrite list_elem_of_In, <- name_is_spec. auto.
  - intros (qz & Hin & Hn). exists qz. rewrite <- list_elem_of_In, name_is_spec. auto.
Qed.

Lemma quiz_exists_filter name db :
  quiz_exists name db = false <-> filter (name_is name) (quizzes db) = [].
Proof.
  split.
  - intros H. destruct (filter _ _) as [|qz l] eqn:E; [reflexivity|].
    assert (Hin : qz ∈ filter (name_is name) (quizzes db)) by (rewrite E; left).
    apply list_elem_of_filter in Hin as [Hn%name_is_true Hin].
    assert (quiz_exists name db = true) by (apply quiz_exists_spec; eauto).
    congruence.
  - intros H. destruct (quiz_exists name db) eqn:E; [|reflexivity].
    apply quiz_exists_spec in E as (qz & Hin & Hn).
    exfalso. eapply filter_nil_not_elem_of; [exact H| |exact Hin].
    apply name_is_true, Hn.
Qed.

Lemma select_quiz_id_none name db :
  select_quiz_id name (connect db) = None <-> quiz_exists name db = false.
Proof.
  rewrite quiz_exists_filter. unfold select_quiz_id, connect, connect_with. simpl.
  destruct (filter _ _); split; congruence.
Qed.

(** With unique names the lookup selects exactly one row. *)
Lemma filter_name_unique name (rows : list quiz_row) qz :
  NoDup (qz_name <$> rows) -> qz ∈ rows -> qz_name qz = name ->
  filter (name_is name) rows = [qz].
Proof.
  induction rows as [|r rows IH]; intros Hnd Hin Hn; [inversion Hin|].
  rewrite fmap_cons in Hnd. apply NoDup_cons in Hnd as [Hfresh Hnd].
  rewrite filter_cons. apply elem_of_cons in Hin as [->|Hin].
  - rewrite decide_True by (apply name_is_true, Hn). f_equal.
    destruct (filter (name_is name) rows) as [|r' l] eqn:E; [reflexivity|].
    assert (Hr' : r' ∈ filter (name_is name) rows) by (rewrite E; left).
    apply list_elem_of_filter in Hr' as [Hn'%name_is_true Hr'].
    exfalso. apply Hfresh. rewrite Hn, <- Hn'. apply list_elem_of_fmap_2, Hr'.
  - rewrite decide_False; [auto|].
    intros Hr%name_is_true. apply Hfresh. rewrite Hr, <- Hn.
    apply list_elem_of_fmap_2, Hin.
Qed.

(** ** What each method does to the file *)

Lemma create_quiz_on_existing now name title description db :
  quiz_exists name db = true ->
  create_quiz now name title description db = (Raise (DuplicateNameError name), db).
Proof.
  intros He. unfold create_quiz, insert_quiz, connect, connect_with. simpl.
  unfold quiz_exists in He. rewrite He. reflexivity.
Qed.

Lemma create_quiz_on_fresh now name title description db :
  quiz_exists name db = false ->
  let id := next_rowid qz_id (quizzes db) (seq_quizzes db) in
  create_quiz now name title description db =
    (Ok id,
     mk_database (quizzes db ++ [mk_quiz_row id name title (Some description) now])
                 (questions db) id (seq_questions db)).
Proof.
  intros He. unfold create_quiz, insert_quiz, connect, connect_with. simpl.
  unfold quiz_exists in He. rewrite He. reflexivity.
Qed.

Lemma quiz_exists_after_create now name title description db :
  quiz_exists name (create_quiz now name title description db).2 = true.
Proof.
  destruct (quiz_exists name db) eqn:He.
  - rewrite create_quiz_on_existing by exact He. exact He.
  - rewrite create_quiz_on_fresh by exact He. simpl.
    unfold quiz_exists. simpl. rewrite existsb_app. simpl.
    unfold name_is at 2. simpl. rewrite String.eqb_refl.
    apply orb_true_iff. right. reflexivity.
Qed.

Lemma add_question_on_missing now quiz_name text choices correct explanation db :
  quiz_exists quiz_name db = false ->
  add_question now quiz_name text choices correct explanation db =
    (Raise (QuizNotFoundError quiz_name), db).
Proof.
  intros He%select_quiz_id_none. unfold add_question. rewrite He. reflexivity.
Qed.

(** A call with four choices and a label that passes the CHECK appends
    one row, owned by the quiz the name resolves to. *)
Lemma add_question_on_valid now quiz_name text a b c d correct explanation db id :
  select_quiz_id quiz_name (connect db) = Some id ->
  check_correct_answer correct = true ->
  let qid := next_rowid q_id (questions db) (seq_questions db) in
  add_question now quiz_name text [a; b; c; d] correct explanation db =
    (Ok tt,
     mk_database (quizzes db)
       (questions db ++
          [mk_question_row qid id text a b c d correct (Some explanation) now])
       (seq_quizzes db) qid).
Proof.
  intros Hs Hc. unfold add_question. rewrite Hs. simpl.
  unfold insert_quiz, insert_question, connect, connect_with. simpl.
  rewrite Hc. reflexivity.
Qed.

Lemma delete_quiz_spec quiz_name db :
  delete_quiz quiz_name db =
    (quiz_exists quiz_name db,
     mk_database (filter (fun qz => negb (name_is quiz_name qz)) (quizzes db))
                 (questions db) (seq_quizzes db) (seq_questions db)).
Proof.
  unfold delete_quiz, delete_quizzes, connect, connect_with, commit. simpl.
  f_equal. destruct (quiz_exists quiz_name db) eqn:He.
  - destruct (filter _ _) eqn:E; [|reflexivity].
    apply quiz_exists_filter in E. congruence.
  - apply quiz_exists_filter in He. rewrite He. reflexivity.
Qed.

Lemma select_quiz_id_some name db id :
  select_quiz_id name (connect db) = Some id ->
  exists qz, qz ∈ quizzes db /\ qz_name qz = name /\ qz_id qz = id.
Proof.
  unfold select_quiz_id, connect, connect_with. simpl.
  destruct (filter _ _) as [|qz l] eqn:E; [discriminate|].
  intros [= <-]. exists qz.
  assert (Hin : qz ∈ filter (name_is name) (quizzes db)) by (rewrite E; left).
  apply list_elem_of_filter in Hin as [Hn%name_is_true Hin]. auto.
Qed.

(** Every call of [add_question] either leaves the file alone or appends
    one checked row that belongs to a stored quiz. *)
Lemma add_question_inv now quiz_name text choices correct explanation db r db' :
  add_question now quiz_name text choices correct explanation db = (r, db') ->
  db' = db \/
  exists row,
    db' = mk_database (quizzes db) (questions db ++ [row]) (seq_quizzes db) (q_id row) /\
    q_id row = next_rowid q_id (questions db) (seq_questions db) /\
    select_quiz_id quiz_name (connect db) = Some (q_quiz_id row) /\
    check_correct_answer (q_correct_answer row) = true.
Proof.
  unfold add_question.
  destruct (select_quiz_id quiz_name (connect db)) as [id|] eqn:Hs;
    [|intros [= _ <-]; auto].
  destruct (index choices 0), (index choices 1), (index choices 2),
    (index choices 3); try (intros [= _ <-]; auto; fail).
  unfold insert_question, connect, connect_with. simpl.
  destruct (check_correct_answer correct) eqn:Hc; simpl;
    [|intros [= _ <-]; auto].
  intros [= _ <-]. right.
  eexists (mk_question_row _ _ _ _ _ _ _ _ _ _). simpl.
  repeat split; try reflexivity; exact Hc.
Qed.

(** ** The invariant *)

Lemma wf_empty : wf empty_database.
Proof. split; simpl; constructor. Qed.

Lemma wf_create_quiz now name title description db :
  wf db -> wf (create_quiz now name title description db).2.
Proof.
  intros [Hn Hi Hs Hqi Hqs Ho Hc].
  destruct (quiz_exists name db) eqn:He.
  { rewrite create_quiz_on_existing by exact He. split; assumption. }
  rewrite create_quiz_on_fresh by exact He. split; simpl; try assumption.
  - rewrite fmap_app. apply NoDup_app. split; [exact Hn|]. split.
    + intros x Hx [->|[]%elem_of_nil]%elem_of_cons.
      apply list_elem_of_fmap in Hx as (qz & Hqn & Hin).
      assert (quiz_exists name db = true) by (apply quiz_exists_spec; eauto).
      congruence.
    + apply NoDup_singleton.
  - rewrite fmap_app. apply StronglySorted_app_2; [|exact Hi|repeat constructor].
    intros x1 x2 Hx1 [->|[]%elem_of_nil]%elem_of_cons.
    apply list_elem_of_fmap in Hx1 as (qz & -> & Hin).
    apply next_rowid_fresh, Hin.
  - apply Forall_app. split.
    + rewrite Forall_forall. intros qz Hin.
      apply Z.lt_le_incl, next_rowid_fresh, Hin.
    + repeat constructor. simpl. lia.
  - eapply Forall_impl; [exact Ho|]. simpl. intros q Hq.
    pose proof (next_rowid_above_seq qz_id (quizzes db) (seq_quizzes db)). lia.
Qed.

Lemma wf_add_question now quiz_name text choices correct explanation db :
  wf db -> wf (add_question now quiz_name text choices correct explanation db).2.
Proof.
  intros Hwf.
  destruct (add_question _ _ _ _ _ _ _) as [r db'] eqn:E. simpl.
  apply add_question_inv in E as [->|(row & -> & Hid & Hsel & Hchk)]; [exact Hwf|].
  destruct Hwf as [Hn Hi Hs Hqi Hqs Ho Hc]. split; simpl; try assumption.
  - rewrite fmap_app. apply StronglySorted_app_2; [|exact Hqi|repeat constructor].
    intros x1 x2 Hx1 [->|[]%elem_of_nil]%elem_of_cons.
    apply list_elem_of_fmap in Hx1 as (q & -> & Hin).
    rewrite Hid. apply next_rowid_fresh, Hin.
  - apply Forall_app. split.
    + rewrite Forall_forall. intros q Hin. rewrite Hid.
      apply Z.lt_le_incl, next_rowid_fresh, Hin.
    + repeat constructor. lia.
  - apply Forall_app. split; [exact Ho|]. repeat constructor.
    apply select_quiz_id_some in Hsel as (qz & Hin & _ & <-).
    rewrite Forall_forall in Hs. apply Hs, Hin.
  - apply Forall_app. split; [exact Hc|]. repeat constructor. exact Hchk.
Qed.

Lemma wf_delete_quiz quiz_name db : wf db -> wf (delete_quiz quiz_name db).2.
Proof.
  intros [Hn Hi Hs Hqi Hqs Ho Hc]. rewrite delete_quiz_spec.
  split; simpl; try assumption.
  - apply nodup_fmap_filter, Hn.
  - apply sorted_fmap_filter, Hi.
  - apply Forall_filter_keep, Hs.
Qed.

(** Every file the program produces satisfies the invariant. *)
Lemma reachable_wf db : reachable db -> wf db.
Proof.
  induction 1;
    auto using wf_empty, wf_create_quiz, wf_add_question, wf_delete_quiz.
Qed.

(** ** Reading the questions of a quiz *)

Lemma filter_join_condition k name (rows : list quiz_row) :
  filter (fun qz => (k =? qz_id qz) && name_is name qz) rows =
  filter (fun qz => k =? qz_id qz) (filter (name_is name) rows).
Proof.
  induction rows as [|r rows IH]; [reflexivity|].
  rewrite !filter_cons.
  destruct (name_is name r) eqn:Hn, (k =? qz_id r) eqn:Hk; simpl;
    rewrite ?filter_cons, ?Hk; simpl; rewrite IH; reflexivity.
Qed.

Lemma join_questions_no_quiz name db :
  quiz_exists name db = false -> join_questions name db = [].
Proof.
  intros He%quiz_exists_filter. unfold join_questions.
  induction (questions db) as [|q l IH]; [reflexivity|].
  rewrite bind_cons, IH, filter_join_condition, He. reflexivity.
Qed.

Lemma join_questions_of name db qz :
  NoDup (qz_name <$> quizzes db) -> qz ∈ quizzes db -> qz_name qz = name ->
  join_questions name db = questions_of (qz_id qz) db.
Proof.
  intros Hnd Hin Hn. unfold join_questions, questions_of.
  induction (questions db) as [|q l IH]; [reflexivity|].
  rewrite bind_cons, IH, filter_join_condition.
  rewrite (filter_name_unique name _ qz) by assumption.
  rewrite !filter_cons, filter_nil.
  destruct (q_quiz_id q =? qz_id qz); reflexivity.
Qed.

Lemma sorted_by_id {A} (id : A -> Z) l :
  StronglySorted Z.lt (id <$> l) ->
  Sorted (fun x y => (id x <=? id y) = true) l.
Proof.
  induction l as [|x l IH]; [constructor|].
  rewrite fmap_cons. intros [Hs Hx]%StronglySorted_inv.
  constructor; [auto|].
  destruct l as [|y l]; constructor.
  rewrite fmap_cons in Hx. apply Forall_cons in Hx as [Hxy _].
  apply Z.leb_le. lia.
Qed.

(** [ORDER BY q.id] finds the rows of one quiz already in order. *)
Lemma order_by_questions_of id db :
  wf db -> order_by Z.leb q_id (questions_of id db) = questions_of id db.
Proof.
  intros Hwf. apply order_by_sorted, sorted_by_id, sorted_fmap_filter.
  apply wf_question_ids, Hwf.
Qed.

Lemma get_quiz_questions_no_quiz name db :
  quiz_exists name db = false -> get_quiz_questions name db = Ok [].
Proof.
  intros He. unfold get_quiz_questions, connect, connect_with. simpl.
  rewrite join_questions_no_quiz by exact He. reflexivity.
Qed.

Lemma get_quiz_questions_of name db id :
  wf db -> select_quiz_id name (connect db) = Some id ->
  get_quiz_questions name db = rows_to_questions (questions_of id db).
Proof.
  intros Hwf (qz & Hin & Hn & <-)%select_quiz_id_some.
  unfold get_quiz_questions, connect, connect_with. simpl.
  rewrite (join_questions_of name db qz) by (auto using wf_names).
  rewrite order_by_questions_of by exact Hwf. reflexivity.
Qed.

Lemma check_correct_answer_spec c :
  check_correct_answer c = true <-> c = "a" \/ c = "b" \/ c = "c" \/ c = "d".
Proof.
  unfold check_correct_answer. simpl.
  rewrite !orb_true_iff, !String.eqb_eq. intuition discriminate.
Qed.

Lemma ord_checked c :
  check_correct_answer c = true -> ord c = Ok (label_index c + 97).
Proof.
  intros [->|[->|[->| ->]]]%check_correct_answer_spec; reflexivity.
Qed.

Lemma rows_to_questions_app rows1 rows2 qs1 qs2 :
  rows_to_questions rows1 = Ok qs1 -> rows_to_questions rows2 = Ok qs2 ->
  rows_to_questions (rows1 ++ rows2) = Ok (qs1 ++ qs2).
Proof.
  revert qs1. induction rows1 as [|r rows1 IH]; simpl; intros qs1 H1 H2.
  - injection H1 as <-. exact H2.
  - destruct (row_to_question r); [|discriminate].
    destruct (rows_to_questions rows1) as [qs|]; [|discriminate].
    injection H1 as <-. rewrite (IH qs) by auto. reflexivity.
Qed.

Lemma row_to_question_checked id quiz_id i :
  check_correct_answer (in_correct i) = true ->
  forall a b c d, in_choices i = [a; b; c; d] ->
  row_to_question
    (mk_question_row id quiz_id (in_text i) a b c d (in_correct i)
                     (Some (in_explanation i)) (in_now i)) =
  Ok (question_of_input i).
Proof.
  intros Hc a b c d Hch. unfold row_to_question, question_of_input. simpl.
  rewrite (ord_checked _ Hc), Hch. do 2 f_equal. lia.
Qed.

Lemma four_choices (l : list string) :
  length l = 4%nat -> exists a b c d, l = [a; b; c; d].
Proof.
  destruct l as [|a [|b [|c [|d [|e l]]]]]; try discriminate. eauto.
Qed.

(** One valid [add_question] puts its question after those the quiz
    already had. *)
Lemma add_question_appends name i db id old :
  wf db -> select_quiz_id name (connect db) = Some id ->
  get_quiz_questions name db = Ok old ->
  valid_input i ->
  exists db',
    add_question (in_now i) name (in_text i) (in_choices i) (in_correct i)
                 (in_explanation i) db = (Ok tt, db') /\
    quizzes db' = quizzes db /\
    get_quiz_questions name db' = Ok (old ++ [question_of_input i]).
Proof.
  intros Hwf Hs Hold [Hlen Hc].
  destruct (four_choices _ Hlen) as (a & b & c & d & Hch).
  eexists. split.
  { rewrite Hch. exact (add_question_on_valid _ _ _ _ _ _ _ _ _ _ _ Hs Hc). }
  split; [reflexivity|].
  set (db' := mk_database _ _ _ _).
  assert (Hwf' : wf db').
  { pose proof (wf_add_question (in_now i) name (in_text i) (in_choices i)
                  (in_correct i) (in_explanation i) db Hwf) as Hw.
    rewrite Hch, (add_question_on_valid _ _ _ _ _ _ _ _ _ _ _ Hs Hc) in Hw.
    exact Hw. }
  rewrite (get_quiz_questions_of name db id Hwf Hs) in Hold.
  rewrite (get_quiz_questions_of name db' id Hwf' Hs).
  unfold questions_of, db'. simpl. rewrite filter_app.
  apply rows_to_questions_app; [exact Hold|].
  rewrite filter_cons, filter_nil. simpl. rewrite Z.eqb_refl. simpl.
  rewrite (row_to_question_checked _ _ i Hc a b c d Hch). reflexivity.
Qed.

(** Adding a batch to a quiz that holds [old]: afterwards it holds [old]
    followed by the batch, in the order of the calls. *)
Lemma add_questions_append name inputs : forall db id old,
  wf db -> select_quiz_id name (connect db) = Some id ->
  get_quiz_questions name db = Ok old ->
  Forall valid_input inputs ->
  exists db',
    add_questions name inputs db = (Ok tt, db') /\ wf db' /\
    get_quiz_questions name db' = Ok (old ++ (question_of_input <$> inputs)).
Proof.
  induction inputs as [|i inputs IH]; intros db id old Hwf Hs Hold Hv.
  - exists db. simpl. rewrite app_nil_r. auto.
  - apply Forall_cons in Hv as [Hi Hv].
    destruct (add_question_appends name i db id old Hwf Hs Hold Hi)
      as (db1 & Hadd & Hq & Hget).
    assert (Hwf1 : wf db1).
    { pose proof (wf_add_question (in_now i) name (in_text i) (in_choices i)
                    (in_correct i) (in_explanation i) db Hwf) as Hw.
      rewrite Hadd in Hw. exact Hw. }
    assert (Hs1 : select_quiz_id name (connect db1) = Some id).
    { unfold select_quiz_id, connect, connect_with in *. simpl in *.
      rewrite Hq. exact Hs. }
    destruct (IH db1 id _ Hwf1 Hs1 Hget Hv) as (db' & Hadds & Hwf' & Hget').
    exists db'. simpl. rewrite Hadd, Hadds. split; [reflexivity|].
    split; [exact Hwf'|]. rewrite Hget', <- app_assoc. reflexivity.
Qed.

(** ** Reading the summary of a quiz *)

Lemma get_quiz_info_none name db :
  get_quiz_info name db = None <-> quiz_exists name db = false.
Proof.
  rewrite quiz_exists_filter. unfold get_quiz_info, connect, connect_with. simpl.
  destruct (filter _ _); simpl; split; congruence.
Qed.

Lemma quiz_exists_after_delete name db :
  quiz_exists name (delete_quiz name db).2 = false.
Proof.
  rewrite delete_quiz_spec. simpl.
  destruct (quiz_exists name _) eqn:He; [|reflexivity].
  apply quiz_exists_spec in He as (qz & Hin & Hn). simpl in Hin.
  apply list_elem_of_filter in Hin as [Hneg _].
  apply name_is_spec in Hn. rewrite Hn in Hneg. destruct Hneg.
Qed.

(** Deleting a name that is not stored changes nothing. *)
Lemma delete_quiz_missing name db :
  quiz_exists name db = false -> delete_quiz name db = (false, db).
Proof.
  intros He. rewrite delete_quiz_spec, He. f_equal.
  destruct db as [qzs qs s1 s2]. simpl. f_equal.
  assert (Hall : Forall (fun qz => negb (name_is name qz)) qzs).
  { rewrite Forall_forall. intros qz Hin.
    destruct (name_is name qz) eqn:Hn; [|exact I].
    apply name_is_spec in Hn.
    assert (quiz_exists name (mk_database qzs qs s1 s2) = true)
      by (apply quiz_exists_spec; eauto).
    congruence. }
  clear He. induction Hall as [|qz l Hqz _ IH]; [reflexivity|].
  rewrite filter_cons_True by exact Hqz. f_equal. exact IH.
Qed.

Lemma get_quiz_info_some name db info :
  get_quiz_info name db = Some info ->
  exists qz,
    select_quiz_id name (connect db) = Some (qz_id qz) /\ info = info_row db qz.
Proof.
  unfold get_quiz_info, select_quiz_id, connect, connect_with. simpl.
  destruct (filter _ _) as [|qz l]; simpl; [discriminate|].
  intros [= <-]. eauto.
Qed.

Lemma question_count_questions_of db qz :
  question_count (info_row db qz) = length (questions_of (qz_id qz) db).
Proof.
  unfold info_row, questions_of. simpl.
  induction (questions db) as [|q l IH]; [reflexivity|].
  rewrite !filter_cons, (Z.eqb_sym (qz_id qz)).
  destruct (q_quiz_id q =? qz_id qz); simpl; rewrite IH; reflexivity.
Qed.

(** A stored quiz that counts no questions reads as the empty list. *)
Lemma get_quiz_questions_empty name db info :
  wf db -> get_quiz_info name db = Some info -> question_count info = 0%nat ->
  get_quiz_questions name db = Ok [].
Proof.
  intros Hwf (qz & Hs & ->)%get_quiz_info_some Hcount.
  rewrite (get_quiz_questions_of name db _ Hwf Hs).
  rewrite question_count_questions_of in Hcount.
  apply nil_length_inv in Hcount. rewrite Hcount. reflexivity.
Qed.

(** Every question read from a file that satisfies the CHECK constraint
    has four choices and the index of one of them. *)
Lemma rows_to_questions_well_formed rows : forall qs,
  Forall (fun q => check_correct_answer (q_correct_answer q) = true) rows ->
  rows_to_questions rows = Ok qs -> Forall Runtime.well_formed qs.
Proof.
  induction rows as [|row rows IH]; simpl; intros qs Hc Hqs.
  - injection Hqs as <-. constructor.
  - apply Forall_cons in Hc as [Hrow Hc].
    unfold row_to_question in Hqs. rewrite (ord_checked _ Hrow) in Hqs.
    destruct (rows_to_questions rows) as [qs'|]; [|discriminate].
    injection Hqs as <-. constructor; [|auto].
    split; [reflexivity|]. simpl.
    apply check_correct_answer_spec in Hrow as [->|[->|[->| ->]]];
      vm_compute; split; discriminate || reflexivity.
Qed.

Lemma get_quiz_questions_well_formed name db qs :
  wf db -> get_quiz_questions name db = Ok qs -> Forall Runtime.well_formed qs.
Proof.
  intros Hwf. unfold get_quiz_questions, connect, connect_with. simpl.
  apply rows_to_questions_well_formed.
  rewrite order_by_perm. rewrite Forall_forall. intros q Hq.
  unfold join_questions in Hq.
  apply list_elem_of_bind in Hq as (q' & Hq & Hin).
  apply list_elem_of_bind in Hq as (qz & ->%list_elem_of_singleton & _).
  pose proof (wf_check db Hwf) as Hc. rewrite Forall_forall in Hc. auto.
Qed.

(** ** Deletion and the questions table *)

(** On the connection the methods open, [delete_quiz] never touches the
    questions table. *)
Lemma delete_quiz_keeps_question_rows name db :
  questions (delete_quiz name db).2 = questions db.
Proof. rewrite delete_quiz_spec. reflexivity. Qed.

(** Through the two readers the deleted quiz is gone all the same: both
    join through the quizzes table. *)
Lemma delete_quiz_then_read name db :
  get_quiz_questions name (delete_quiz name db).2 = Ok [] /\
  get_quiz_info name (delete_quiz name db).2 = None.
Proof.
  split.
  - apply get_quiz_questions_no_quiz, quiz_exists_after_delete.
  - apply get_quiz_info_none, quiz_exists_after_delete.
Qed.

(** On a connection that enforces foreign keys the same statement does
    cascade: no remaining question is owned by a deleted quiz. *)
Lemma delete_quizzes_cascades name db q qz :
  q ∈ questions (conn_db (delete_quizzes name (connect_with true db)).2) ->
  qz ∈ quizzes db -> qz_name qz = name -> q_quiz_id q <> qz_id qz.
Proof.
  unfold delete_quizzes, connect_with. simpl.
  intros [Hneg _]%list_elem_of_filter Hin Hn Heq.
  apply negb_prop_elim in Hneg. apply Hneg, Is_true_true, existsb_exists.
  exists qz. split.
  - apply list_elem_of_In, list_elem_of_filter. split; [|exact Hin].
    apply name_is_true, Hn.
  - apply Z.eqb_eq. congruence.
Qed.

(** A question left behind by a deletion is never picked up by a quiz
    created later: AUTOINCREMENT does not hand an id out twice. *)
Lemma create_quiz_starts_empty now name title description db :
  wf db -> quiz_exists name db = false ->
  get_quiz_questions name (create_quiz now name title description db).2 = Ok [].
Proof.
  intros Hwf He.
  pose proof (wf_create_quiz now name title description db Hwf) as Hwf'.
  pose proof (quiz_exists_after_create now name title description db) as He'.
  rewrite create_quiz_on_fresh in * by exact He. simpl in *.
  set (id := next_rowid qz_id (quizzes db) (seq_quizzes db)) in *.
  set (db' := mk_database _ _ _ _) in *.
  assert (Hs : select_quiz_id name (connect db') = Some id).
  { unfold select_quiz_id, connect, connect_with, db'. simpl.
    rewrite filter_app. apply quiz_exists_filter in He. rewrite He. simpl.
    rewrite filter_cons_True; [reflexivity|]. apply name_is_true. reflexivity. }
  rewrite (get_quiz_questions_of name db' id Hwf' Hs).
  unfold questions_of, db'. simpl.
  assert (Hnone : Forall (fun q => ~ Is_true (q_quiz_id q =? id)) (questions db)).
  { eapply Forall_impl; [apply wf_owner_seq, Hwf|]. simpl. intros q Hq Heq.
    apply Is_true_true, Z.eqb_eq in Heq.
    pose proof (next_rowid_above_seq qz_id (quizzes db) (seq_quizzes db)).
    fold id in H. lia. }
  rewrite (filter_none _ _ Hnone). reflexivity.
Qed.

(** ** Listing *)

Lemma String_leb_trans a b c :
  String.leb a b = true -> String.leb b c = true -> String.leb a c = true.
Proof.
  unfold String.leb. change String.compare with String_as_OT.compare.
  destruct (String_as_OT.compare_spec a b) as [->|Hab|_]; [auto| |discriminate].
  destruct (String_as_OT.compare_spec b c) as [<-|Hbc|_]; intros _ Hbc';
    [| |discriminate].
  - destruct (String_as_OT.compare_spec a b) as [| |Hba]; try reflexivity.
    exfalso. apply (StrictOrder_Irreflexive (R := String_as_OT.lt) a).
    etransitivity; eassumption.
  - assert (Hac : String_as_OT.lt a c) by (etransitivity; eassumption).
    unfold String_as_OT.lt in Hac. rewrite Hac. reflexivity.
Qed.

#[local] Instance name_le_trans : Transitive name_le.
Proof. intros x y z. apply String_leb_trans. Qed.

Lemma list_quizzes_sorted db : StronglySorted name_le (list_quizzes db).
Proof.
  apply Sorted_StronglySorted; [apply name_le_trans|].
  unfold list_quizzes. apply (order_by_is_sorted String.leb name), String.leb_total.
Qed.

(** ** The claims on the storage layer *)

(** C1 (the code departs from it): [delete_quiz] is to remove the quiz
    together with all of its questions.  On the file with quiz "geo" and
    its one question the call reports a deletion and removes the quiz row,
    and both readers then find nothing under "geo"; but the question row
    is still in the questions table, owned by no quiz. *)
Theorem delete_quiz_orphans_questions :
  let db' := (delete_quiz "geo" geo_one_question).2 in
  (delete_quiz "geo" geo_one_question).1 = true /\
  quizzes db' = [] /\
  questions db' = questions geo_one_question /\
  length (questions db') = 1%nat /\
  get_quiz_questions "geo" db' = Ok [] /\
  get_quiz_info "geo" db' = None.
Proof. vm_compute. repeat split. Qed.

(** C4: on a stored quiz that counts no questions, [add_question]
    called for N valid inputs in turn succeeds each time, and
    [get_quiz_questions] then returns exactly the N questions in the order
    of the calls, each with its text, four choices, correct label and
    explanation; for N = 0 this is the empty list, not an error. *)
Theorem add_then_get_round_trip name inputs db info :
  wf db ->
  get_quiz_info name db = Some info -> question_count info = 0%nat ->
  Forall valid_input inputs ->
  exists db',
    add_questions name inputs db = (Ok tt, db') /\
    get_quiz_questions name db' = Ok (question_of_input <$> inputs).
Proof.
  intros Hwf Hinfo Hcount Hv.
  pose proof (get_quiz_questions_empty name db info Hwf Hinfo Hcount) as Hget.
  apply get_quiz_info_some in Hinfo as (qz & Hs & _).
  destruct (add_questions_append name inputs db _ [] Hwf Hs Hget Hv)
    as (db' & Hadd & _ & Hget').
  exists db'. auto.
Qed.

(** C5: [create_quiz] on a name that is already stored raises the
    duplicate-name error and leaves the file as it was, so the stored
    quiz keeps its title, description and questions. *)
Theorem create_quiz_duplicate_rejected now name title description db :
  quiz_exists name db = true ->
  let (r, db') := create_quiz now name title description db in
  r = Raise (DuplicateNameError name) /\ db' = db /\
  get_quiz_info name db' = get_quiz_info name db /\
  get_quiz_questions name db' = get_quiz_questions name db.
Proof.
  intros He. rewrite create_quiz_on_existing by exact He. auto.
Qed.

(** C6: [add_question] on a name that resolves to no quiz raises the
    not-found error and leaves the questions table, and the whole file,
    unchanged. *)
Theorem add_question_missing_quiz now quiz_name text choices correct explanation db :
  quiz_exists quiz_name db = false ->
  let (r, db') := add_question now quiz_name text choices correct explanation db in
  r = Raise (QuizNotFoundError quiz_name) /\
  questions db' = questions db /\
  length (questions db') = length (questions db) /\
  db' = db.
Proof.
  intros He. rewrite add_question_on_missing by exact He. auto.
Qed.

(** C8: [list_quizzes] returns one row per stored quiz, in ascending
    order of name whatever the order of creation; nothing on an empty
    store, and "a" before "b" after creating "b" and then "a". *)
Theorem list_quizzes_by_name :
  (forall db,
     StronglySorted name_le (list_quizzes db) /\
     list_quizzes db ≡ₚ (info_row db <$> quizzes db)) /\
  list_quizzes empty_database = [] /\
  (forall now1 title1 descr1 now2 title2 descr2,
     name <$> list_quizzes
       (create_quiz now2 "a" title2 descr2
          (create_quiz now1 "b" title1 descr1 empty_database).2).2
     = ["a"; "b"]).
Proof.
  split; [|split].
  - intros db. split; [apply list_quizzes_sorted|].
    unfold list_quizzes. apply order_by_perm.
  - reflexivity.
  - reflexivity.
Qed.

(** C9: [delete_quiz] returns true exactly when a quiz of that name was
    stored, and in either case none is stored afterwards; when it returns
    false the file is unchanged. *)
Theorem delete_quiz_reports_deletion quiz_name db :
  let (deleted, db') := delete_quiz quiz_name db in
  (deleted = true <-> quiz_exists quiz_name db = true) /\
  quiz_exists quiz_name db' = false /\
  (deleted = false -> db' = db).
Proof.
  pose proof (quiz_exists_after_delete quiz_name db) as Hafter.
  destruct (quiz_exists quiz_name db) eqn:He.
  - rewrite delete_quiz_spec, He in *. simpl in *.
    split; [tauto|]. split; [exact Hafter|discriminate].
  - rewrite delete_quiz_missing in * by exact He. simpl in *.
    split; [tauto|]. auto.
Qed.

(** ** The claims at concrete inputs *)

Lemma add_then_get_round_trip_witness :
  let db := (create_quiz 1 "geo" "Geography" "" empty_database).2 in
  wf db /\
  get_quiz_info "geo" db = Some (mkQuizInfo "geo" "Geography" (Some "") 0) /\
  Forall valid_input geo_inputs /\
  exists db',
    add_questions "geo" geo_inputs db = (Ok tt, db') /\
    get_quiz_questions "geo" db' = Ok (question_of_input <$> geo_inputs).
Proof.
  intros db.
  assert (Hwf : wf db) by (apply reachable_wf, reach_create, reach_init).
  assert (Hv : Forall valid_input geo_inputs)
    by (repeat constructor).
  split; [exact Hwf|]. split; [reflexivity|]. split; [exact Hv|].
  apply (add_then_get_round_trip "geo" geo_inputs db
           (mkQuizInfo "geo" "Geography" (Some "") 0) Hwf);
    [reflexivity|reflexivity|exact Hv].
Defined.

Lemma create_quiz_duplicate_rejected_witness :
  quiz_exists "geo" geo_one_question = true /\
  let (r, db') := create_quiz 5 "geo" "Other" "another" geo_one_question in
  r = Raise (DuplicateNameError "geo") /\ db' = geo_one_question /\
  get_quiz_info "geo" db' = get_quiz_info "geo" geo_one_question /\
  get_quiz_questions "geo" db' = get_quiz_questions "geo" geo_one_question.
Proof.
  split; [reflexivity|].
  apply (create_quiz_duplicate_rejected 5 "geo" "Other" "another" geo_one_question).
  reflexivity.
Defined.

Lemma add_question_missing_quiz_witness :
  quiz_exists "maths" geo_one_question = false /\
  let (r, db') := add_question 5 "maths" "2 + 2?" ["3"; "4"; "5"; "6"] "b" ""
                               geo_one_question in
  r = Raise (QuizNotFoundError "maths") /\
  questions db' = questions geo_one_question /\
  length (questions db') = length (questions geo_one_question) /\
  db' = geo_one_question.
Proof.
  split; [reflexivity|].
  apply (add_question_missing_quiz 5 "maths" "2 + 2?" ["3"; "4"; "5"; "6"] "b" ""
                                   geo_one_question).
  reflexivity.
Defined.

End StorageFacts.

(* ===================================================================== *)
(** * The quiz runtime *)

Module RuntimeFacts.
Import Runtime.
Local Open Scope nat_scope.
Local Open Scope quiz_scope.

Lemma bind_ok {A B} (m : M A) (k : A -> M B) w a w' :
  m w = (Ok a, w') -> bind m k w = k a w'.
Proof. unfold bind. intros ->. reflexivity. Qed.

Lemma bind_raise {A B} (m : M A) (k : A -> M B) w e w' :
  m w = (Raise e, w') -> bind m k w = (Raise e, w').
Proof. unfold bind. intros ->. reflexivity. Qed.

(** ** Computations that only read and write *)

Lemma io_io w r1 o1 r2 o2 : io (io w r1 o1) r2 o2 = io w r2 (o1 ++ o2).
Proof. unfold io. simpl. rewrite app_assoc. reflexivity. Qed.

Lemma io_id w : io w (stdin w) [] = w.
Proof. destruct w. unfold io. simpl. rewrite app_nil_r. reflexivity. Qed.

Lemma yields_ret {A} (a : A) w rest :
  rest = stdin w -> yields (ret a) w a rest [].
Proof. intros ->. unfold yields, ret. rewrite io_id. reflexivity. Qed.

Lemma yields_bind {A B} (m : M A) (k : A -> M B) w a r1 o1 b r2 o2 :
  yields m w a r1 o1 -> yields (k a) (io w r1 o1) b r2 o2 ->
  yields (bind m k) w b r2 (o1 ++ o2).
Proof.
  unfold yields, bind. intros -> ->. rewrite io_io. reflexivity.
Qed.

Lemma yields_print s w rest :
  rest = stdin w -> yields (print s) w tt rest [s +:+ nl].
Proof. intros ->. reflexivity. Qed.

Lemma yields_input prompt w line rest :
  stdin w = line :: rest -> yields (input prompt) w line rest [prompt].
Proof.
  intros Hin. unfold yields, input, bind, write, read_line. simpl.
  rewrite Hin. reflexivity.
Qed.

Lemma yields_lift {A} (r : result A) a w rest :
  r = Ok a -> rest = stdin w -> yields (lift r) w a rest [].
Proof. intros -> ->. apply yields_ret. reflexivity. Qed.

Lemma add_score_0 self : add_score self 0 = self.
Proof. destruct self. unfold add_score. simpl. rewrite Nat.add_0_r. reflexivity. Qed.

Lemma is_letter_spec line :
  is_letter line = true <->
  normalise line = "a" \/ normalise line = "b" \/
  normalise line = "c" \/ normalise line = "d".
Proof.
  unfold is_letter. simpl. rewrite !orb_true_iff, !String.eqb_eq.
  intuition discriminate.
Qed.

Lemma letter_not_quit line : is_letter line = true -> is_quit line = false.
Proof.
  unfold is_quit.
  intros [->|[->|[->| ->]]]%is_letter_spec; reflexivity.
Qed.

Lemma chr_in_range i :
  (0 <= i <= 1114111)%Z -> chr i = Ok (utf8 i).
Proof.
  intros Hi. unfold chr.
  destruct (i <? 0)%Z eqn:H1; [apply Z.ltb_lt in H1; lia|].
  destruct (1114111 <? i)%Z eqn:H2; [apply Z.ltb_lt in H2; lia|]. reflexivity.
Qed.

Lemma getitem_in_range {A} (l : list A) i :
  (0 <= i < Z.of_nat (length l))%Z -> exists x, getitem l i = Ok x.
Proof.
  intros Hi. unfold getitem.
  destruct (i <? 0)%Z eqn:H1; [apply Z.ltb_lt in H1; lia|].
  rewrite H1. simpl.
  destruct (Z.of_nat (length l) <=? i)%Z eqn:H2; [apply Z.leb_le in H2; lia|].
  destruct (lookup_lt_is_Some_2 l (Z.to_nat i)) as [x Hx]; [lia|].
  rewrite Hx. eauto.
Qed.

(** ** One question *)

(** Walks a chain of binds whose steps only print or return. *)
Ltac yields_step :=
  cbv beta iota;
  lazymatch goal with
  | |- yields (bind _ _) _ _ _ _ => eapply yields_bind
  | |- yields (print _) _ _ _ _ => apply yields_print; reflexivity
  | |- yields (ret _) _ _ _ _ => apply yields_ret; reflexivity
  | |- yields (lift _) _ _ _ _ => apply yields_lift; [|reflexivity]
  end.

Lemma yields_show_choices a b c d w :
  exists out, yields (show_choices 0 [a; b; c; d]) w tt (stdin w) out.
Proof.
  eexists. cbn [show_choices].
  repeat (yields_step; [yields_step; try reflexivity|]).
  yields_step.
Qed.

Lemma ord_letter letter :
  letter = "a" \/ letter = "b" \/ letter = "c" \/ letter = "d" ->
  exists code, ord letter = Ok code /\ (97 <= code <= 100)%Z.
Proof.
  intros [->|[->|[->| ->]]]; eexists;
    (split; [reflexivity|vm_compute; split; discriminate]).
Qed.

(** An accepted letter is marked once: the score moves by the point the
    letter earns, the pause reads one line, and the loop goes on. *)
Lemma yields_mark_answer self q letter enter rest w :
  well_formed q ->
  letter = "a" \/ letter = "b" \/ letter = "c" \/ letter = "d" ->
  stdin w = enter :: rest ->
  exists out,
    yields (mark_answer self q letter) w
           (true, add_score self (letter_points q letter)) rest out.
Proof.
  intros [Hlen Hc] Hl Hin.
  destruct (ord_letter letter Hl) as (code & Hcode & _).
  destruct (getitem_in_range (choices q) (correct q)) as [choice Hchoice];
    [rewrite Hlen; lia|].
  unfold mark_answer, letter_points. cbv zeta. rewrite Hcode.
  destruct (code - 97 =? correct q)%Z eqn:E, (String.eqb (explanation q) "");
    rewrite ?add_score_0; eexists;
    (yields_step; [yields_step; reflexivity|]);
    cbv beta; rewrite E;
    (yields_step;
     [repeat first
        [ yields_step
        | apply chr_in_range; lia
        | exact Hchoice ]|]);
    (yields_step; [yields_step|]);
    (yields_step; [apply yields_input; simpl; exact Hin|]);
    yields_step.
Qed.

(** The [while True] loop, one turn unfolded. *)
Lemma answer_loop_eq self q pending :
  answer_loop self q pending =
  (answer_line <- input (nl +:+ "Your answer: ") ;;
   if is_quit answer_line then ret (false, self)
   else if is_letter answer_line then mark_answer self q (normalise answer_line)
   else
     print "Please enter a valid letter (a, b, c, d) or 'quit'" ;;
     match pending with
     | [] => raise EOFError
     | _ :: pending' => answer_loop self q pending'
     end).
Proof. destruct pending; reflexivity. Qed.

Lemma is_rejected_spec line :
  is_rejected line = true <-> is_quit line = false /\ is_letter line = false.
Proof.
  unfold is_rejected. rewrite andb_true_iff, !negb_true_iff. reflexivity.
Qed.

(** Lines that are turned down cost a prompt each and change nothing
    else: the loop goes on as if it started after them. *)
Lemma yields_answer_loop_skip self q r rest tail junk : forall w,
  Forall (fun line => is_rejected line = true) junk ->
  stdin w = junk ++ tail ->
  (forall w', stdin w' = tail ->
     exists out, yields (answer_loop self q tail) w' r rest out) ->
  exists out, yields (answer_loop self q (junk ++ tail)) w r rest out.
Proof.
  induction junk as [|line junk IH]; intros w Hj Hin Hnext.
  - apply Hnext. exact Hin.
  - apply Forall_cons in Hj as [[Hquit Hletter]%is_rejected_spec Hj].
    destruct (IH (io w (junk ++ tail)
                     ([nl +:+ "Your answer: "] ++
                      ["Please enter a valid letter (a, b, c, d) or 'quit'" +:+ nl]))
                 Hj eq_refl Hnext) as [out Hout].
    rewrite answer_loop_eq. eexists.
    yields_step; [apply yields_input; exact Hin|].
    cbv beta. rewrite Hquit, Hletter.
    yields_step; [yields_step|]. rewrite io_io. exact Hout.
Qed.

Lemma yields_answer_loop_quit self q pending w line rest :
  stdin w = line :: rest -> is_quit line = true ->
  exists out, yields (answer_loop self q pending) w (false, self) rest out.
Proof.
  intros Hin Hq. rewrite answer_loop_eq. eexists.
  yields_step; [apply yields_input; exact Hin|].
  cbv beta. rewrite Hq. yields_step.
Qed.

Lemma yields_answer_loop_letter self q pending w line enter rest :
  well_formed q -> stdin w = line :: enter :: rest -> is_letter line = true ->
  exists out,
    yields (answer_loop self q pending) w
           (true, add_score self (points q line)) rest out.
Proof.
  intros Hq Hin Hl. rewrite answer_loop_eq.
  destruct (yields_mark_answer self q (normalise line) enter rest
              (io w (enter :: rest) [nl +:+ "Your answer: "]) Hq)
    as [out Hout]; [apply is_letter_spec, Hl|reflexivity|].
  eexists. yields_step; [apply yields_input; exact Hin|].
  cbv beta. rewrite (letter_not_quit _ Hl), Hl. exact Hout.
Qed.

(** [_ask_question] is its heading and choices followed by the loop. *)
Lemma yields_ask_question self num q w r rest :
  well_formed q ->
  (forall w', stdin w' = stdin w ->
     exists out, yields (answer_loop self q (stdin w')) w' r rest out) ->
  exists out, yields (_ask_question self num q) w r rest out.
Proof.
  intros [Hlen _] Hloop. unfold _ask_question.
  destruct (choices q) as [|a [|b [|c [|d [|e l]]]]]; try discriminate.
  set (heading := nl +:+ "Question " +:+ str num +:+ "/" +:+ str (total self) +:+ ":").
  set (w1 := io w (stdin w) ([heading +:+ nl] ++ [question q +:+ nl] ++ ["" +:+ nl])).
  destruct (yields_show_choices a b c d w1) as [out1 Hout1].
  destruct (Hloop (io w1 (stdin w1) out1) eq_refl) as [out2 Hout2].
  eexists.
  yields_step; [yields_step|]. rewrite ?io_io.
  yields_step; [yields_step|]. rewrite ?io_io.
  yields_step; [yields_step|]. rewrite ?io_io.
  yields_step; [exact Hout1|]. exact Hout2.
Qed.

Lemma yields_ask_letter self num q w a rest :
  well_formed q -> accepted a ->
  stdin w = rejected a ++ letter a :: pause a :: rest ->
  exists out,
    yields (_ask_question self num q) w
           (true, add_score self (points q (letter a))) rest out.
Proof.
  intros Hq [Hj Hl] Hin. apply yields_ask_question; [exact Hq|].
  intros w' Hw'. rewrite Hw', Hin.
  apply yields_answer_loop_skip; [exact Hj|congruence|].
  intros w'' Hw''.
  apply yields_answer_loop_letter with (enter := pause a); auto.
Qed.

Lemma yields_ask_quit self num q w junk line rest :
  well_formed q ->
  Forall (fun line => is_rejected line = true) junk ->
  stdin w = junk ++ line :: rest -> is_quit line = true ->
  exists out, yields (_ask_question self num q) w (false, self) rest out.
Proof.
  intros Hq Hj Hin Hl. apply yields_ask_question; [exact Hq|].
  intros w' Hw'. rewrite Hw', Hin.
  apply yields_answer_loop_skip; [exact Hj|congruence|].
  intros w'' Hw''.
  apply yields_answer_loop_quit with (line := line); auto.
Qed.

(** ** The loop over the questions *)

Lemma add_score_add self a b :
  add_score (add_score self a) b = add_score self (a + b).
Proof. unfold add_score. simpl. rewrite Nat.add_assoc. reflexivity. Qed.

(** Answering the questions of [qs] one by one adds up their points and
    leaves the loop at the questions that follow. *)
Lemma yields_ask_all_prefix later tail final rest qs : forall answers self i w,
  Forall well_formed qs ->
  length answers = length qs ->
  Forall accepted answers ->
  stdin w = typed answers ++ tail ->
  (forall self' i' w', stdin w' = tail ->
     exists out, yields (ask_all self' i' later) w' (final self') rest out) ->
  exists out,
    yields (ask_all self i (qs ++ later)) w
           (final (add_score self (tally qs answers))) rest out.
Proof.
  induction qs as [|q qs IH]; intros answers self i w Hwf Hlen Hl Hin Hlater.
  - destruct answers; [|discriminate]. simpl. rewrite add_score_0.
    apply Hlater. exact Hin.
  - destruct answers as [|a answers]; [discriminate|].
    apply Forall_cons in Hwf as [Hq Hwf]. apply Forall_cons in Hl as [Ha Hl].
    injection Hlen as Hlen.
    assert (Hin' : stdin w = rejected a ++ letter a :: pause a ::
                             typed answers ++ tail).
    { rewrite Hin. unfold typed. rewrite bind_cons, <- !app_assoc. reflexivity. }
    destruct (yields_ask_letter self i q w a (typed answers ++ tail)
                Hq Ha Hin') as [out1 Hout1].
    destruct (IH answers (add_score self (points q (letter a))) (S i)
                (io w (typed answers ++ tail) out1) Hwf Hlen Hl eq_refl Hlater)
      as [out2 Hout2].
    eexists. simpl. yields_step; [exact Hout1|]. cbv beta. simpl.
    rewrite <- add_score_add. exact Hout2.
Qed.

(** ** The results *)

Lemma yields_show_results self w :
  total self <> 0 ->
  yields (_show_results self) w tt (stdin w) (results (score self) (total self)).
Proof.
  intros Ht. unfold _show_results.
  destruct (total self =? 0) eqn:E; [apply Nat.eqb_eq in E; contradiction|].
  cbv zeta.
  enough (H : exists out,
    yields (print (nl +:+ repeat_string "=" 60) ;;
            print "QUIZ RESULTS" ;;
            print (repeat_string "=" 60) ;;
            print (score_line self (percentage self)) ;;
            print (band_message (percentage self))) w tt (stdin w) out /\
    out = results (score self) (total self))
    by (destruct H as (out & H & ->); exact H).
  eexists. split.
  - repeat (yields_step; [yields_step|]). yields_step.
  - reflexivity.
Qed.

(** ** List objects and the shuffle *)

Lemma deref_some l w x : heap w !! l = Some x -> deref l w = (Ok x, w).
Proof. intros H. unfold deref. rewrite H. reflexivity. Qed.

Lemma swap_perm {A} (x : list A) i j : swap x i j ≡ₚ x.
Proof.
  unfold swap. destruct (x !! i) as [xi|] eqn:Hi; [|reflexivity].
  destruct (x !! j) as [xj|] eqn:Hj; [|reflexivity].
  apply Permutation_insert_swap; assumption.
Qed.

(** The shuffle rewrites the one list object it is given, into a
    permutation of it, and draws once per exchange. *)
Lemma shuffle_loop_spec l i : forall w x,
  heap w !! l = Some x ->
  exists x',
    x' ≡ₚ x /\
    shuffle_loop l i w =
      (Ok tt, mk_world (<[l := x']> (heap w)) (stdin w) (stdout w)
                       (entropy w) (drawn w + i)).
Proof.
  induction i as [|i IH]; intros w x Hx.
  - exists x. split; [reflexivity|]. simpl. unfold ret.
    rewrite list_insert_id by exact Hx. rewrite Nat.add_0_r.
    destruct w; reflexivity.
  - set (j := entropy w (drawn w) mod S (S i)).
    set (w1 := set_heap (<[l := swap x (S i) j]> (heap w))
                        (set_drawn (S (drawn w)) w)).
    assert (Hl : l < length (heap w)) by (eapply lookup_lt_Some; exact Hx).
    destruct (IH w1 (swap x (S i) j)) as (x' & Hperm & Hrun).
    { simpl. apply list_lookup_insert_eq, Hl. }
    exists x'. split; [rewrite Hperm; apply swap_perm|].
    cbn [shuffle_loop].
    rewrite (bind_ok _ _ w j (set_drawn (S (drawn w)) w)) by reflexivity.
    rewrite (bind_ok _ _ _ x (set_drawn (S (drawn w)) w))
      by (apply deref_some; exact Hx).
    rewrite (bind_ok _ _ _ tt w1) by reflexivity.
    rewrite Hrun. simpl. rewrite list_insert_insert_eq.
    do 2 f_equal. lia.
Qed.

Lemma random_shuffle_spec l w x :
  heap w !! l = Some x ->
  exists x',
    x' ≡ₚ x /\
    random_shuffle l w =
      (Ok tt, mk_world (<[l := x']> (heap w)) (stdin w) (stdout w)
                       (entropy w) (drawn w + (length x - 1))).
Proof.
  intros Hx. unfold random_shuffle, bind. rewrite (deref_some l w x Hx).
  apply shuffle_loop_spec, Hx.
Qed.

(** ** A run *)

Lemma run_banner self shuffle w q qs :
  heap w !! questions self = Some (q :: qs) ->
  run self shuffle w =
    (questions <- list_copy (questions self) ;;
     (if shuffle then random_shuffle questions else ret tt) ;;
     order <- deref questions ;;
     self' <- ask_all self 1 order ;;
     _show_results self' ;;
     ret self') (io w (stdin w) (banner self)).
Proof.
  intros Hq. unfold run.
  rewrite (bind_ok _ _ w (q :: qs) w) by (apply deref_some; exact Hq).
  repeat (erewrite bind_ok by (apply yields_print; reflexivity); rewrite ?io_io).
  reflexivity.
Qed.

(** A run over a non-empty list asks the questions in an order that is
    the stored one, or a permutation of it under shuffle, and whatever
    the loop leaves is followed by the results. *)
Lemma run_spec self shuffle w qs :
  heap w !! questions self = Some qs -> qs <> [] ->
  exists order,
    order ≡ₚ qs /\ (shuffle = false -> order = qs) /\
    let w2 := asking self w order (if shuffle then length qs - 1 else 0) in
    forall self' rest out,
      yields (ask_all self 1 order) w2 self' rest out ->
      total self' <> 0 ->
      run self shuffle w =
        (Ok self', io w2 rest (out ++ results (score self') (total self'))).
Proof.
  intros Hq Hne. destruct qs as [|q qs]; [contradiction|].
  set (w1 := io w (stdin w) (banner self)).
  set (l := length (heap w)).
  assert (Hcopy : list_copy (questions self) w1 =
                  (Ok l, set_heap (heap w ++ [q :: qs]) w1)).
  { unfold list_copy. rewrite (bind_ok _ _ w1 (q :: qs) w1); [reflexivity|].
    apply deref_some. exact Hq. }
  assert (Hl : (heap w ++ [q :: qs]) !! l = Some (q :: qs))
    by (apply list_lookup_middle; reflexivity).
  assert (Hshuffle : exists order,
    order ≡ₚ q :: qs /\ (shuffle = false -> order = q :: qs) /\
    (if shuffle then random_shuffle l else ret tt)
      (set_heap (heap w ++ [q :: qs]) w1) =
    (Ok tt, asking self w order (if shuffle then length (q :: qs) - 1 else 0))).
  { destruct shuffle.
    - destruct (random_shuffle_spec l (set_heap (heap w ++ [q :: qs]) w1) (q :: qs) Hl)
        as (order & Hperm & Hrun).
      exists order. split; [exact Hperm|]. split; [discriminate|].
      rewrite Hrun. unfold asking. cbn [heap stdin stdout entropy drawn set_heap w1 io].
      do 2 f_equal. unfold l.
      rewrite insert_app_r_alt by lia. rewrite Nat.sub_diag. reflexivity.
    - exists (q :: qs). split; [reflexivity|]. split; [reflexivity|].
      unfold ret, asking. cbn [heap stdin stdout entropy drawn set_heap w1 io].
      rewrite Nat.add_0_r. reflexivity. }
  destruct Hshuffle as (order & Hperm & Hsame & Hrun).
  exists order. split; [exact Hperm|]. split; [exact Hsame|].
  intros w2 self' rest out Hask Htotal.
  rewrite (run_banner self shuffle w q qs Hq). fold w1.
  rewrite (bind_ok _ _ _ _ _ Hcopy).
  rewrite (bind_ok _ _ _ _ _ Hrun). fold w2.
  rewrite (bind_ok _ _ w2 order w2).
  2:{ apply deref_some. unfold w2, asking. cbn [heap].
      apply list_lookup_middle. reflexivity. }
  rewrite (bind_ok _ _ _ _ _ Hask).
  rewrite (bind_ok _ _ _ _ _ (yields_show_results self' _ Htotal)).
  unfold ret. rewrite io_io. reflexivity.
Qed.

Lemma init_spec nm ttl l w qs :
  heap w !! l = Some qs ->
  __init__ nm ttl l w = (Ok (mkQuiz nm ttl l 0 (length qs)), w).
Proof.
  intros Hq. unfold __init__.
  rewrite (bind_ok _ _ w qs w) by (apply deref_some, Hq). reflexivity.
Qed.

Lemma tally_take qs : forall answers,
  tally (take (length answers) qs) answers = tally qs answers.
Proof.
  induction qs as [|q qs IH]; intros [|a answers]; simpl; auto.
Qed.

Lemma tally_le qs : forall answers, tally qs answers <= length qs.
Proof.
  induction qs as [|q qs IH]; intros [|a answers]; simpl; try lia.
  specialize (IH answers).
  assert (points q (letter a) <= 1); [|lia].
  unfold points, letter_points. destruct (ord _); [|lia].
  destruct (_ =? _)%Z; lia.
Qed.

(** After the answered questions the loop either has none left, or
    meets a quit at the next one. *)
Lemma yields_ask_all_end later tail rest :
  (later = [] /\ tail = rest) \/
  (exists q tl junk line,
     later = q :: tl /\ well_formed q /\
     Forall (fun line => is_rejected line = true) junk /\
     tail = junk ++ line :: rest /\ is_quit line = true) ->
  forall self i w, stdin w = tail ->
    exists out, yields (ask_all self i later) w self rest out.
Proof.
  intros [[-> ->]|(q & tl & junk & line & -> & Hq & Hj & -> & Hquit)] self i w Hin.
  - eexists. simpl. apply yields_ret. auto.
  - destruct (yields_ask_quit self i q w junk line rest Hq Hj Hin Hquit)
      as [out Hout].
    eexists. simpl. yields_step; [exact Hout|]. simpl. yields_step.
Qed.

(** A whole run in which the user answers some of the questions, in the
    order asked, and then either has answered them all or quits. *)
Lemma run_session nm ttl l shuffle w qs answers tail rest :
  heap w !! l = Some qs -> qs <> [] ->
  Forall well_formed qs ->
  Forall accepted answers ->
  stdin w = typed answers ++ tail ->
  (length answers = length qs /\ tail = rest) \/
  (length answers < length qs /\
   exists junk line,
     Forall (fun line => is_rejected line = true) junk /\
     tail = junk ++ line :: rest /\ is_quit line = true) ->
  let self := mkQuiz nm ttl l 0 (length qs) in
  exists order out,
    order ≡ₚ qs /\ (shuffle = false -> order = qs) /\
    run self shuffle w =
      (Ok (mkQuiz nm ttl l (tally order answers) (length qs)),
       io (asking self w order (if shuffle then length qs - 1 else 0)) rest
          (out ++ results (tally order answers) (length qs))).
Proof.
  intros Hq Hne Hwf Hl Hin Hend self.
  destruct (run_spec self shuffle w qs Hq Hne) as (order & Hperm & Hsame & Hrun).
  assert (Hlen : length order = length qs) by (rewrite Hperm; reflexivity).
  assert (Hwfo : Forall well_formed order) by (rewrite Hperm; exact Hwf).
  set (k := length answers).
  assert (Hk : k <= length order) by (unfold k; destruct Hend as [[? _]|[? _]]; lia).
  assert (Hlater :
    (drop k order = [] /\ tail = rest) \/
    (exists q tl junk line,
       drop k order = q :: tl /\ well_formed q /\
       Forall (fun line => is_rejected line = true) junk /\
       tail = junk ++ line :: rest /\ is_quit line = true)).
  { destruct Hend as [[Hall ->]|[Hsome (junk & line & Hj & -> & Hquit)]].
    - left. split; [|reflexivity]. apply drop_ge. unfold k. lia.
    - right. destruct (drop k order) as [|q tl] eqn:Hd.
      + apply (f_equal length) in Hd. rewrite length_drop in Hd.
        simpl in Hd. unfold k in *. lia.
      + exists q, tl, junk, line. split; [reflexivity|]. split; [|auto].
        pose proof (Forall_drop _ k _ Hwfo) as Hd'. rewrite Hd in Hd'.
        apply Forall_cons in Hd' as [Hq' _]. exact Hq'. }
  destruct (yields_ask_all_prefix (drop k order) tail (fun s => s) rest
              (take k order) answers self 1
              (asking self w order (if shuffle then length qs - 1 else 0)))
    as [out Hout].
  - apply Forall_take, Hwfo.
  - rewrite length_take. unfold k in *. lia.
  - exact Hl.
  - exact Hin.
  - intros self' i' w' Hw'.
    exact (yields_ask_all_end _ tail rest Hlater self' i' w' Hw').
  - rewrite take_drop in Hout. unfold k in Hout. rewrite tally_take in Hout.
    exists order, out. split; [exact Hperm|]. split; [exact Hsame|].
    rewrite (Hrun _ rest out Hout).
    + reflexivity.
    + simpl. destruct qs; [contradiction|discriminate].
Qed.

(** The point goes to the letter that is the label of the correct
    choice, and to no other. *)
Lemma points_label q line :
  well_formed q -> is_letter line = true ->
  (correct_label q = Ok (normalise line) -> points q line = 1) /\
  (correct_label q <> Ok (normalise line) -> points q line = 0).
Proof.
  intros [_ Hc] Hl. unfold points, letter_points, correct_label.
  assert (Hcases : correct q = 0%Z \/ correct q = 1%Z \/ correct q = 2%Z \/
                   correct q = 3%Z) by lia.
  apply is_letter_spec in Hl.
  destruct Hl as [->|[->|[->| ->]]], Hcases as [->|[->|[->| ->]]];
    vm_compute; split; congruence.
Qed.

(** ** What a run leaves alone, and what it can raise *)

Section Frame.
Variable n : nat.
Variable E : exn -> Prop.
Hypothesis E_other : forall e, e <> ZeroDivisionError -> E e.

Lemma kept_same_heap w w' :
  heap w' = heap w -> n <= length (heap w) -> kept n w w'.
Proof. unfold kept. intros ->. auto. Qed.

Lemma kept_refl w : n <= length (heap w) -> kept n w w.
Proof. apply kept_same_heap. reflexivity. Qed.

Lemma kept_trans w1 w2 w3 : kept n w1 w2 -> kept n w2 w3 -> kept n w1 w3.
Proof. unfold kept. intros [? H12] [? H23]. split; [auto|congruence]. Qed.

Lemma sat_ret {A} (V : A -> Prop) a : V a -> sat n E V (ret a).
Proof. intros Ha w r w' Hn [= <- <-]. auto using kept_refl. Qed.

Lemma sat_raise {A} (V : A -> Prop) e : E e -> sat n E V (raise e).
Proof. intros He w r w' Hn [= <- <-]. auto using kept_refl. Qed.

Lemma sat_bind {A B} (V : A -> Prop) (V' : B -> Prop) m k :
  sat n E V m -> (forall a, V a -> sat n E V' (k a)) -> sat n E V' (bind m k).
Proof.
  intros Hm Hk w r w' Hn. unfold bind.
  destruct (m w) as [[a|e] w1] eqn:Em.
  - destruct (Hm w _ _ Hn Em) as [Hk1 Ha]. intros Ek.
    destruct (Hk a Ha w1 _ _ (proj1 Hk1) Ek) as [Hk2 Hr].
    split; [eapply kept_trans; eassumption|exact Hr].
  - intros [= <- <-]. exact (Hm w _ _ Hn Em).
Qed.

Lemma sat_weaken {A} (V V' : A -> Prop) m :
  (forall a, V a -> V' a) -> sat n E V m -> sat n E V' m.
Proof.
  intros HV Hm w r w' Hn Em. destruct (Hm w r w' Hn Em) as [Hk Hr].
  split; [exact Hk|]. destruct r; auto.
Qed.

Lemma sat_write s : sat n E any (write s).
Proof.
  intros w r w' Hn [= <- <-]. split; [|exact I].
  apply kept_same_heap; [reflexivity|exact Hn].
Qed.

Lemma sat_print s : sat n E any (print s).
Proof. apply sat_write. Qed.

Lemma sat_read_line : sat n E any read_line.
Proof.
  intros w r w' Hn. unfold read_line. destruct (stdin w); intros [= <- <-].
  - split; [apply kept_refl, Hn|]. apply E_other. discriminate.
  - split; [|exact I]. apply kept_same_heap; [reflexivity|exact Hn].
Qed.

Lemma sat_input prompt : sat n E any (input prompt).
Proof.
  unfold input. eapply sat_bind; [apply sat_write|]. intros _ _.
  apply sat_read_line.
Qed.

Lemma sat_lift {A} (r : result A) :
  r <> Raise ZeroDivisionError -> sat n E any (lift r).
Proof.
  intros Hr. destruct r as [a|e]; simpl.
  - apply sat_ret. exact I.
  - apply sat_raise, E_other. congruence.
Qed.

Lemma sat_deref l : sat n E any (deref l).
Proof.
  intros w r w' Hn. unfold deref. destruct (heap w !! l); intros [= <- <-].
  - split; [apply kept_refl, Hn|exact I].
  - split; [apply kept_refl, Hn|]. apply E_other. discriminate.
Qed.

(** A new list object lands beyond the first [n]. *)
Lemma sat_alloc x : sat n E (fun l => n <= l) (alloc x).
Proof.
  intros w r w' Hn [= <- <-]. split; [|exact Hn]. unfold kept. simpl.
  rewrite length_app. split; [lia|]. apply take_app_le, Hn.
Qed.

Lemma sat_store l x : n <= l -> sat n E any (store l x).
Proof.
  intros Hl w r w' Hn [= <- <-]. split; [|exact I]. unfold kept. simpl.
  rewrite length_insert. split; [exact Hn|]. apply take_insert_ge, Hl.
Qed.

Lemma sat_list_copy l : sat n E (fun l' => n <= l') (list_copy l).
Proof.
  unfold list_copy. eapply sat_bind; [apply sat_deref|]. intros x _.
  apply sat_alloc.
Qed.

Lemma sat_randbelow k : sat n E any (randbelow k).
Proof.
  intros w r w' Hn [= <- <-]. split; [|exact I].
  apply kept_same_heap; [reflexivity|exact Hn].
Qed.

Lemma sat_shuffle_loop l i : n <= l -> sat n E any (shuffle_loop l i).
Proof.
  intros Hl. induction i as [|i IH]; simpl.
  - apply sat_ret. exact I.
  - eapply sat_bind; [apply sat_randbelow|]. intros j _.
    eapply sat_bind; [apply sat_deref|]. intros x _.
    eapply sat_bind; [apply sat_store, Hl|]. intros _ _. exact IH.
Qed.

Lemma sat_random_shuffle l : n <= l -> sat n E any (random_shuffle l).
Proof.
  intros Hl. unfold random_shuffle.
  eapply sat_bind; [apply sat_deref|]. intros x _.
  apply sat_shuffle_loop, Hl.
Qed.

Lemma ord_no_zde s : ord s <> Raise ZeroDivisionError.
Proof. destruct s as [|c [|c' s]]; discriminate. Qed.

Lemma chr_no_zde i : chr i <> Raise ZeroDivisionError.
Proof. unfold chr. destruct (_ || _); discriminate. Qed.

Lemma getitem_no_zde {A} (l : list A) i : getitem l i <> Raise ZeroDivisionError.
Proof.
  unfold getitem. destruct (_ || _); [discriminate|].
  destruct (l !! _); discriminate.
Qed.

Lemma same_quiz_refl self : same_quiz self self.
Proof. unfold same_quiz. auto. Qed.

Lemma same_quiz_add_score self k : same_quiz self (add_score self k).
Proof. unfold same_quiz. auto. Qed.

Lemma same_quiz_trans s1 s2 s3 :
  same_quiz s1 s2 -> same_quiz s2 s3 -> same_quiz s1 s3.
Proof. unfold same_quiz. intuition congruence. Qed.

Lemma sat_show_choices l : forall i, sat n E any (show_choices i l).
Proof.
  induction l as [|c l IH]; intros i; simpl.
  - apply sat_ret. exact I.
  - eapply sat_bind; [apply sat_lift, chr_no_zde|]. intros letter _.
    eapply sat_bind; [apply sat_print|]. intros _ _. apply IH.
Qed.

Lemma sat_mark_answer self q answer :
  sat n E (fun r => same_quiz self r.2) (mark_answer self q answer).
Proof.
  unfold mark_answer. cbv zeta.
  eapply sat_bind; [apply sat_lift, ord_no_zde|]. intros code _.
  eapply sat_bind with (V := same_quiz self).
  { destruct (code - 97 =? correct q)%Z.
    - eapply sat_bind; [apply sat_print|]. intros _ _.
      apply sat_ret, same_quiz_add_score.
    - eapply sat_bind; [apply sat_lift, chr_no_zde|]. intros letter _.
      eapply sat_bind; [apply sat_lift, getitem_no_zde|]. intros choice _.
      eapply sat_bind; [apply sat_print|]. intros _ _.
      apply sat_ret, same_quiz_refl. }
  intros self' Hsame.
  eapply sat_bind with (V := any).
  { destruct (String.eqb (explanation q) "");
      [apply sat_ret; exact I|apply sat_print]. }
  intros _ _. eapply sat_bind; [apply sat_input|]. intros _ _.
  apply sat_ret. exact Hsame.
Qed.

Lemma sat_answer_loop self q pending :
  sat n E (fun r => same_quiz self r.2) (answer_loop self q pending).
Proof.
  induction pending as [|line pending IH]; rewrite answer_loop_eq;
    (eapply sat_bind; [apply sat_input|]); intros answer _;
    (destruct (is_quit answer); [apply sat_ret, same_quiz_refl|]);
    (destruct (is_letter answer); [apply sat_mark_answer|]);
    (eapply sat_bind; [apply sat_print|]); intros _ _.
  - apply sat_raise, E_other. discriminate.
  - exact IH.
Qed.

Lemma sat_ask_question self num q :
  sat n E (fun r => same_quiz self r.2) (_ask_question self num q).
Proof.
  unfold _ask_question.
  do 3 (eapply sat_bind; [apply sat_print|]; intros _ _).
  eapply sat_bind; [apply sat_show_choices|]. intros _ _.
  intros w r w' Hn. apply sat_answer_loop, Hn.
Qed.

Lemma sat_ask_all qs : forall self i,
  sat n E (same_quiz self) (ask_all self i qs).
Proof.
  induction qs as [|q qs IH]; intros self i; simpl.
  - apply sat_ret, same_quiz_refl.
  - eapply sat_bind; [apply sat_ask_question|]. intros [go self'] Hsame.
    simpl in *. destruct go.
    + eapply sat_weaken; [|apply IH]. intros self''.
      apply same_quiz_trans, Hsame.
    + apply sat_ret, Hsame.
Qed.

Lemma sat_show_results self :
  total self <> 0 \/ E ZeroDivisionError -> sat n E any (_show_results self).
Proof.
  intros Ht. unfold _show_results. destruct (total self =? 0) eqn:E0.
  - apply Nat.eqb_eq in E0. apply sat_raise. destruct Ht; [contradiction|assumption].
  - cbv zeta. do 4 (eapply sat_bind; [apply sat_print|]; intros _ _).
    apply sat_print.
Qed.

(** A run keeps the list objects it found, its own question list among
    them; the quiz object changes in its score only. *)
Lemma run_kept self shuffle w r w' :
  n <= length (heap w) ->
  (forall q qs, heap w !! questions self = Some (q :: qs) ->
                total self <> 0 \/ E ZeroDivisionError) ->
  run self shuffle w = (r, w') ->
  kept n w w' /\
  match r with Ok self' => same_quiz self self' | Raise e => E e end.
Proof.
  intros Hn Ht. unfold run.
  destruct (heap w !! questions self) as [qs|] eqn:Hq.
  2:{ rewrite (bind_raise _ _ w SystemError w)
        by (unfold deref; rewrite Hq; reflexivity).
      intros [= <- <-]. split; [apply kept_refl, Hn|].
      apply E_other. discriminate. }
  rewrite (bind_ok _ _ w qs w) by (apply deref_some, Hq).
  match goal with
  | |- ?m w = _ -> _ => assert (Hs : sat n E (same_quiz self) m)
  end; [|exact (Hs w r w' Hn)].
  destruct qs as [|q qs].
  - eapply sat_bind; [apply sat_print|]. intros _ _.
    apply sat_ret, same_quiz_refl.
  - do 7 (eapply sat_bind; [apply sat_print|]; intros _ _).
    eapply sat_bind; [apply sat_list_copy|]. intros l Hl.
    eapply sat_bind with (V := any).
    { destruct shuffle; [apply sat_random_shuffle, Hl|apply sat_ret; exact I]. }
    intros _ _. eapply sat_bind; [apply sat_deref|]. intros order _.
    eapply sat_bind; [apply sat_ask_all|]. intros self' Hsame.
    eapply sat_bind; [apply sat_show_results|].
    + destruct Hsame as (_ & _ & _ & ->). apply (Ht q qs eq_refl).
    + intros _ _. apply sat_ret, Hsame.
Qed.

End Frame.

(** ** What a run prints *)

Lemma yields_out {A} (m : M A) w (a : A) rest out out' :
  yields m w a rest out -> out = out' -> yields m w a rest out'.
Proof. intros H <-. exact H. Qed.

Lemma says_show_choices l : forall i w rest,
  rest = stdin w -> (0 <= i)%Z -> (i + Z.of_nat (length l) <= 1000)%Z ->
  yields (show_choices i l) w tt rest (shown_choices i l).
Proof.
  induction l as [|c l IH]; intros i w rest -> Hi Hl.
  - apply yields_ret. reflexivity.
  - cbn [show_choices shown_choices]. rewrite chr_in_range by lia. cbn [lift].
    eapply yields_out.
    + eapply yields_bind; [apply yields_ret; reflexivity|].
      eapply yields_bind; [apply yields_print; reflexivity|].
      apply IH; [reflexivity|lia|simpl in Hl; lia].
    + reflexivity.
Qed.

Lemma getitem_lookup {A} (l : list A) i :
  (0 <= i < Z.of_nat (length l))%Z ->
  exists x, getitem l i = Ok x /\ l !! Z.to_nat i = Some x.
Proof.
  intros Hi. unfold getitem.
  destruct (i <? 0)%Z eqn:H1; [apply Z.ltb_lt in H1; lia|].
  rewrite H1. simpl.
  destruct (Z.of_nat (length l) <=? i)%Z eqn:H2; [apply Z.leb_le in H2; lia|].
  destruct (lookup_lt_is_Some_2 l (Z.to_nat i)) as [x Hx]; [lia|].
  rewrite Hx. eauto.
Qed.

Lemma says_mark_answer self q letter enter rest w :
  well_formed q ->
  letter = "a" \/ letter = "b" \/ letter = "c" \/ letter = "d" ->
  stdin w = enter :: rest ->
  yields (mark_answer self q letter) w
         (true, add_score self (letter_points q letter)) rest (verdict q letter).
Proof.
  intros [Hlen Hc] Hl Hin.
  destruct (ord_letter letter Hl) as (code & Hcode & _).
  destruct (getitem_lookup (choices q) (correct q)) as (choice & Hchoice & Hlook);
    [rewrite Hlen; lia|].
  unfold mark_answer, verdict, letter_points. cbv zeta. rewrite Hcode, Hlook.
  cbn [default].
  destruct (code - 97 =? correct q)%Z eqn:E, (String.eqb (explanation q) "");
    rewrite ?add_score_0; cbn [Nat.eqb];
    (eapply yields_out;
     [(yields_step; [yields_step; reflexivity|]);
      cbv beta; rewrite E;
      (yields_step;
       [repeat first
          [ yields_step
          | apply chr_in_range; lia
          | exact Hchoice ]|]);
      (yields_step; [yields_step|]);
      (yields_step; [apply yields_input; simpl; exact Hin|]);
      yields_step
     |reflexivity]).
Qed.

Lemma says_answer_loop_skip self q r rest tail out junk : forall w,
  Forall (fun line => is_rejected line = true) junk ->
  stdin w = junk ++ tail ->
  (forall w', stdin w' = tail ->
     yields (answer_loop self q tail) w' r rest out) ->
  yields (answer_loop self q (junk ++ tail)) w r rest (turned_down junk ++ out).
Proof.
  induction junk as [|line junk IH]; intros w Hj Hin Hnext.
  - exact (Hnext w Hin).
  - apply Forall_cons in Hj as [[Hquit Hletter]%is_rejected_spec Hj].
    rewrite answer_loop_eq. eapply yields_out.
    + yields_step; [apply yields_input; exact Hin|].
      cbv beta. rewrite Hquit, Hletter.
      yields_step; [yields_step|]. rewrite io_io.
      apply IH; [exact Hj|reflexivity|exact Hnext].
    + unfold turned_down. rewrite bind_cons, <- !app_assoc. reflexivity.
Qed.

Lemma says_answer_loop_quit self q pending w line rest :
  stdin w = line :: rest -> is_quit line = true ->
  yields (answer_loop self q pending) w (false, self) rest [answer_prompt].
Proof.
  intros Hin Hq. rewrite answer_loop_eq. eapply yields_out.
  - yields_step; [apply yields_input; exact Hin|].
    cbv beta. rewrite Hq. yields_step.
  - reflexivity.
Qed.

Lemma says_answer_loop_letter self q pending w line enter rest :
  well_formed q -> stdin w = line :: enter :: rest -> is_letter line = true ->
  yields (answer_loop self q pending) w
         (true, add_score self (points q line)) rest
         ([answer_prompt] ++ verdict q (normalise line)).
Proof.
  intros Hq Hin Hl. rewrite answer_loop_eq.
  yields_step; [apply yields_input; exact Hin|].
  cbv beta. rewrite (letter_not_quit _ Hl), Hl.
  apply says_mark_answer with (enter := enter);
    [exact Hq|apply is_letter_spec, Hl|reflexivity].
Qed.

Lemma says_ask_question self num q w r rest out :
  well_formed q ->
  (forall w', stdin w' = stdin w ->
     yields (answer_loop self q (stdin w')) w' r rest out) ->
  yields (_ask_question self num q) w r rest
         (heading (total self) num q ++ out).
Proof.
  intros [Hlen _] Hloop. unfold _ask_question, heading.
  destruct (choices q) as [|a [|b [|c [|d [|e l]]]]]; try discriminate.
  eapply yields_out.
  - yields_step; [yields_step|].
    yields_step; [yields_step|].
    yields_step; [yields_step|].
    yields_step; [apply says_show_choices; [reflexivity|lia|simpl; lia]|].
    refine (Hloop _ _). reflexivity.
  - reflexivity.
Qed.

Lemma says_ask_letter self num q w a rest :
  well_formed q -> accepted a ->
  stdin w = rejected a ++ letter a :: pause a :: rest ->
  yields (_ask_question self num q) w
         (true, add_score self (points q (letter a))) rest
         (answered (total self) num q a).
Proof.
  intros Hq [Hj Hl] Hin. apply says_ask_question; [exact Hq|].
  intros w' Hw'. rewrite Hw', Hin.
  apply says_answer_loop_skip; [exact Hj|congruence|].
  intros w'' Hw''.
  apply says_answer_loop_letter with (enter := pause a); auto.
Qed.

Lemma says_ask_quit self num q w junk line rest :
  well_formed q ->
  Forall (fun line => is_rejected line = true) junk ->
  stdin w = junk ++ line :: rest -> is_quit line = true ->
  yields (_ask_question self num q) w (false, self) rest
         (heading (total self) num q ++ turned_down junk ++ [answer_prompt]).
Proof.
  intros Hq Hj Hin Hl. apply says_ask_question; [exact Hq|].
  intros w' Hw'. rewrite Hw', Hin.
  apply says_answer_loop_skip; [exact Hj|congruence|].
  intros w'' Hw''.
  apply says_answer_loop_quit with (line := line); auto.
Qed.

Lemma says_ask_all_prefix later tail final rest junk qs :
  forall answers self i w,
    Forall well_formed qs ->
    length answers = length qs ->
    Forall accepted answers ->
    stdin w = typed answers ++ tail ->
    (forall self' i' w', total self' = total self -> stdin w' = tail ->
       yields (ask_all self' i' later) w' (final self') rest
              (transcript (total self) i' later [] junk)) ->
    yields (ask_all self i (qs ++ later)) w
           (final (add_score self (tally qs answers))) rest
           (transcript (total self) i (qs ++ later) answers junk).
Proof.
  induction qs as [|q qs IH]; intros answers self i w Hwf Hlen Hl Hin Hlater.
  - destruct answers; [|discriminate]. simpl. rewrite add_score_0.
    apply Hlater; [reflexivity|exact Hin].
  - destruct answers as [|a answers]; [discriminate|].
    apply Forall_cons in Hwf as [Hq Hwf]. apply Forall_cons in Hl as [Ha Hl].
    injection Hlen as Hlen.
    assert (Hin' : stdin w = rejected a ++ letter a :: pause a ::
                             typed answers ++ tail).
    { rewrite Hin. unfold typed. rewrite bind_cons, <- !app_assoc. reflexivity. }
    cbn [app ask_all transcript tally]. rewrite <- add_score_add.
    yields_step;
      [exact (says_ask_letter self i q w a (typed answers ++ tail) Hq Ha Hin')|].
    cbv beta. cbn [fst snd].
    apply (IH answers (add_score self (points q (letter a))) (S i));
      [exact Hwf|exact Hlen|exact Hl|reflexivity|exact Hlater].
Qed.

Lemma says_ask_all_end later tail rest junk line :
  (later = [] /\ tail = rest) \/
  (exists q tl,
     later = q :: tl /\ well_formed q /\
     Forall (fun line => is_rejected line = true) junk /\
     tail = junk ++ line :: rest /\ is_quit line = true) ->
  forall self i w, stdin w = tail ->
    yields (ask_all self i later) w self rest
           (transcript (total self) i later [] junk).
Proof.
  intros [[-> ->]|(q & tl & -> & Hq & Hj & -> & Hquit)] self i w Hin.
  - simpl. apply yields_ret. auto.
  - cbn [ask_all transcript]. eapply yields_out.
    + yields_step; [exact (says_ask_quit self i q w junk line rest Hq Hj Hin Hquit)|].
      simpl. yields_step.
    + apply app_nil_r.
Qed.

(** A whole run, with all it prints between the banner and the
    results. *)
Lemma run_session_says nm ttl l shuffle w qs answers tail rest junk line :
  heap w !! l = Some qs -> qs <> [] ->
  Forall well_formed qs ->
  Forall accepted answers ->
  stdin w = typed answers ++ tail ->
  (length answers = length qs /\ tail = rest) \/
  (length answers < length qs /\
   Forall (fun line => is_rejected line = true) junk /\
   tail = junk ++ line :: rest /\ is_quit line = true) ->
  let self := mkQuiz nm ttl l 0 (length qs) in
  exists order,
    order ≡ₚ qs /\ (shuffle = false -> order = qs) /\
    run self shuffle w =
      (Ok (mkQuiz nm ttl l (tally order answers) (length qs)),
       io (asking self w order (if shuffle then length qs - 1 else 0)) rest
          (transcript (length qs) 1 order answers junk ++
           results (tally order answers) (length qs))).
Proof.
  intros Hq Hne Hwf Hl Hin Hend self.
  destruct (run_spec self shuffle w qs Hq Hne) as (order & Hperm & Hsame & Hrun).
  assert (Hlen : length order = length qs) by (rewrite Hperm; reflexivity).
  assert (Hwfo : Forall well_formed order) by (rewrite Hperm; exact Hwf).
  set (k := length answers).
  assert (Hk : k <= length order)
    by (unfold k; destruct Hend as [[? _]|[? _]]; lia).
  assert (Hlater :
    (drop k order = [] /\ tail = rest) \/
    (exists q tl,
       drop k order = q :: tl /\ well_formed q /\
       Forall (fun line => is_rejected line = true) junk /\
       tail = junk ++ line :: rest /\ is_quit line = true)).
  { destruct Hend as [[Hall ->]|(Hsome & Hj & -> & Hquit)].
    - left. split; [|reflexivity]. apply drop_ge. unfold k. lia.
    - right. destruct (drop k order) as [|q tl] eqn:Hd.
      + apply (f_equal length) in Hd. rewrite length_drop in Hd.
        simpl in Hd. unfold k in *. lia.
      + exists q, tl. split; [reflexivity|]. split; [|auto].
        pose proof (Forall_drop _ k _ Hwfo) as Hd'. rewrite Hd in Hd'.
        apply Forall_cons in Hd' as [Hq' _]. exact Hq'. }
  pose proof (says_ask_all_prefix (drop k order) tail (fun s => s) rest junk
                (take k order) answers self 1
                (asking self w order (if shuffle then length qs - 1 else 0)))
    as Hout.
  rewrite take_drop in Hout. unfold k in Hout. rewrite tally_take in Hout.
  exists order. split; [exact Hperm|]. split; [exact Hsame|].
  assert (Hask : yields (ask_all self 1 order)
                   (asking self w order (if shuffle then length qs - 1 else 0))
                   (add_score self (tally order answers)) rest
                   (transcript (length qs) 1 order answers junk)).
  { apply Hout.
    - apply Forall_take, Hwfo.
    - rewrite length_take. fold k. lia.
    - exact Hl.
    - exact Hin.
    - intros self' i' w' Ht Hw'. rewrite <- Ht.
      exact (says_ask_all_end _ tail rest junk line Hlater self' i' w' Hw'). }
  rewrite (Hrun _ rest _ Hask).
  - reflexivity.
  - simpl. destruct qs; [contradiction|discriminate].
Qed.

(** ** The claims on the quiz runtime *)

(** C2: when the user answers k of the n questions and then types quit
    (lines that are turned down may come before any of these; the lines
    typed are plain ASCII), the run stops there, without reading further
    input, and the results are those of the points earned on the k
    questions out of the original n: [total] is still n, the percentage
    is (score / n) * 100, and the output is the banner, the k questions
    with what was answered, the question left with quit, and the results
    for that score out of n. *)
Theorem quit_keeps_original_total nm ttl l shuffle w qs answers junk line rest :
  heap w !! l = Some qs ->
  Forall well_formed qs ->
  plain_lines (stdin w) ->
  Forall accepted answers ->
  length answers < length qs ->
  Forall (fun line => is_rejected line = true) junk ->
  is_quit line = true ->
  stdin w = typed answers ++ junk ++ line :: rest ->
  exists self self' w' order,
    __init__ nm ttl l w = (Ok self, w) /\
    run self shuffle w = (Ok self', w') /\
    order ≡ₚ qs /\ (shuffle = false -> order = qs) /\
    score self' = tally order answers /\
    total self' = length qs /\
    percentage self' =
      PrimFloat.mul
        (PrimFloat.div (float_of_nat (score self')) (float_of_nat (length qs)))
        (float_of_nat 100) /\
    stdin w' = rest /\
    stdout w' =
      stdout w ++ banner self ++
      transcript (length qs) 1 order answers junk ++
      results (score self') (length qs).
Proof.
  intros Hq Hwf _ Hl Hlen Hj Hquit Hin.
  assert (Hne : qs <> []) by (intros ->; simpl in Hlen; lia).
  destruct (run_session_says nm ttl l shuffle w qs answers
              (junk ++ line :: rest) rest junk line Hq Hne Hwf Hl Hin)
    as (order & Hperm & Hsame & Hrun).
  { right. auto. }
  eexists _, _, _, order.
  split; [apply init_spec, Hq|]. split; [exact Hrun|].
  split; [exact Hperm|]. split; [exact Hsame|].
  repeat split. simpl. rewrite <- app_assoc. reflexivity.
Qed.

(** C3: an accepted letter earns the point exactly when it is the label
    of the correct choice, and the question is then done; over a whole
    run every question is scored once, so the score is the number of
    matching answers (the lines typed being plain ASCII); and on the
    quiz "geo" with correct answers a, b, c
    the answers a, a, c give 2 out of 3, printed as 66.7%, with the
    message of the band from 60 up to 70. *)
Theorem letter_answers_scored :
  (forall self num q w a rest,
     well_formed q -> plain_lines (stdin w) -> accepted a ->
     stdin w = rejected a ++ letter a :: pause a :: rest ->
     exists self' w',
       _ask_question self num q w = (Ok (true, self'), w') /\
       stdin w' = rest /\ same_quiz self self' /\
       (correct_label q = Ok (normalise (letter a)) ->
        score self' = score self + 1) /\
       (correct_label q <> Ok (normalise (letter a)) ->
        score self' = score self)) /\
  (forall nm ttl l shuffle w qs answers rest,
     heap w !! l = Some qs -> qs <> [] ->
     Forall well_formed qs ->
     plain_lines (stdin w) ->
     Forall accepted answers ->
     length answers = length qs ->
     stdin w = typed answers ++ rest ->
     exists self self' w' order,
       __init__ nm ttl l w = (Ok self, w) /\
       run self shuffle w = (Ok self', w') /\
       order ≡ₚ qs /\ (shuffle = false -> order = qs) /\
       score self' = tally order answers /\ score self' <= length qs /\
       stdin w' = rest) /\
  (Storage.get_quiz_questions "geo" geo_quiz = Ok geo_questions /\
   correct <$> geo_questions = [0; 1; 2]%Z /\
   let '(r, w') := run_quiz_command geo_quiz "geo" false
                     (console ["a"; ""; "a"; ""; "c"; ""]) in
   r = Ok tt /\ stdin w' = [] /\
   drop (length (stdout w') - 2) (stdout w') =
     ["Score: 2/3 (66.7%)" +:+ nl; "📚 Keep studying!" +:+ nl]) /\
  (let self := mkQuiz "geo" "Geography" 0 2 3 in
   at_least 60 (percentage self) = true /\
   at_least 70 (percentage self) = false /\
   format_1f (percentage self) = "66.7").
Proof.
  split; [|split; [|split]].
  - intros self num q w a rest Hq _ Ha Hin.
    destruct (yields_ask_letter self num q w a rest Hq Ha Hin) as [out Hout].
    destruct (points_label q (letter a) Hq (proj2 Ha)) as [Hyes Hno].
    eexists _, _. split; [exact Hout|]. split; [reflexivity|].
    split; [apply same_quiz_add_score|]. simpl. split.
    + intros H. rewrite (Hyes H). reflexivity.
    + intros H. rewrite (Hno H). apply Nat.add_0_r.
  - intros nm ttl l shuffle w qs answers rest Hq Hne Hwf _ Hl Hlen Hin.
    destruct (run_session nm ttl l shuffle w qs answers rest rest
                Hq Hne Hwf Hl Hin) as (order & out & Hperm & Hsame & Hrun);
      [left; auto|].
    eexists _, _, _, order.
    split; [apply init_spec, Hq|]. split; [exact Hrun|].
    split; [exact Hperm|]. split; [exact Hsame|]. simpl.
    split; [reflexivity|]. split; [|reflexivity].
    rewrite <- (Permutation_length Hperm). apply tally_le.
  - vm_compute. repeat split.
  - vm_compute. repeat split.
Qed.

(** C7: a quiz object built over an empty question list has total 0;
    [run] on it prints the no-questions message and returns at once,
    reading nothing and leaving the object as it was.  And whatever list
    the object was built over, a run that follows never ends in a
    division by zero. *)
Theorem run_without_questions nm ttl l shuffle w :
  (heap w !! l = Some [] ->
   exists self,
     __init__ nm ttl l w = (Ok self, w) /\ total self = 0 /\
     run self shuffle w =
       (Ok self, io w (stdin w) [no_questions_message nm +:+ nl])) /\
  (forall self w1 r w2,
     __init__ nm ttl l w = (Ok self, w1) ->
     run self shuffle w1 = (r, w2) ->
     r <> Raise ZeroDivisionError).
Proof.
  split.
  - intros Hq. eexists. split; [apply (init_spec nm ttl l w [] Hq)|].
    split; [reflexivity|]. unfold run.
    rewrite (bind_ok _ _ w [] w) by (apply deref_some, Hq). reflexivity.
  - intros self w1 r w2 Hinit Hrun.
    destruct (heap w !! l) as [qs|] eqn:Hq.
    + rewrite (init_spec nm ttl l w qs Hq) in Hinit.
      injection Hinit as <- <-.
      destruct (run_kept 0 (fun e => e <> ZeroDivisionError) (fun e H => H)
                  (mkQuiz nm ttl l 0 (length qs)) shuffle w r w2 (Nat.le_0_l _))
        as [_ Hr]; [|exact Hrun|].
      * intros q qs' Hq'. left. simpl in *.
        rewrite Hq in Hq'. injection Hq' as ->. discriminate.
      * destruct r as [self'|e]; [discriminate|]. congruence.
    + unfold __init__ in Hinit.
      rewrite (bind_raise _ _ w SystemError w) in Hinit
        by (unfold deref; rewrite Hq; reflexivity).
      discriminate.
Qed.

(** The guard of [run] looks at the list, not at [total].  The two agree
    on an object as [__init__] leaves it, which is how the program uses
    it; were the list to grow between construction and run, the results
    would divide by the stale total. *)
Remark stale_total_divides :
  (stale_total (mk_world [[]] ["a"; ""; "b"; ""; "c"; ""] [] (fun _ => 0) 0)).1
  = Raise ZeroDivisionError.
Proof. vm_compute. reflexivity. Qed.

(** C10: [run] never changes the list object the quiz holds: shuffled
    or not, when it returns or raises that list has the elements it had
    at construction, in the same order, every other list object that
    existed is unchanged too, and the quiz still points at the same list
    with the same total. *)
Theorem run_keeps_question_list nm ttl l qs shuffle w :
  heap w !! l = Some qs ->
  exists self,
    __init__ nm ttl l w = (Ok self, w) /\
    let (r, w') := run self shuffle w in
    heap w' !! l = Some qs /\
    take (length (heap w)) (heap w') = heap w /\
    (forall self', r = Ok self' ->
       questions self' = l /\ total self' = length qs).
Proof.
  intros Hq. eexists. split; [apply init_spec, Hq|].
  destruct (run _ shuffle w) as [r w'] eqn:Hrun.
  destruct (run_kept (length (heap w)) (fun _ => True) (fun _ _ => I)
              (mkQuiz nm ttl l 0 (length qs)) shuffle w r w' (Nat.le_refl _))
    as [[Hlen Htake] Hr]; [auto|exact Hrun|].
  cbv iota beta. rewrite firstn_all in Htake. split; [|split; [exact Htake|]].
  - rewrite <- (lookup_take_lt (heap w') (length (heap w)) l)
      by (eapply lookup_lt_Some, Hq).
    rewrite Htake. exact Hq.
  - intros self' ->. destruct Hr as (_ & _ & Hl & Ht). auto.
Qed.

(** ** The claims at concrete inputs *)

Lemma geo_questions_well_formed : Forall well_formed geo_questions.
Proof.
  unfold geo_questions, geo_inputs. simpl.
  repeat (apply List.Forall_cons;
          [split; [reflexivity|vm_compute; split; [discriminate|reflexivity]]|]).
  apply List.Forall_nil.
Qed.

Lemma quit_keeps_original_total_witness :
  plain_lines (stdin quit_after_one) /\
  exists self self' w' order,
    __init__ "geo" "Geography" 0 quit_after_one = (Ok self, quit_after_one) /\
    run self false quit_after_one = (Ok self', w') /\
    order = geo_questions /\
    score self' = 1 /\
    total self' = 3 /\
    stdin w' = ["b"] /\
    stdout w' =
    [nl +:+ "============================================================" +:+ nl;
     "  Geography" +:+ nl;
     "============================================================" +:+ nl;
     "Total Questions: 3" +:+ nl;
     "Type the letter (a, b, c, d) for your answer" +:+ nl;
     "Type 'quit' to exit early" +:+ nl;
     "------------------------------------------------------------" +:+ nl;
     nl +:+ "Question 1/3:" +:+ nl;
     "Capital of France?" +:+ nl;
     "" +:+ nl;
     "  a) Paris" +:+ nl;
     "  b) Rome" +:+ nl;
     "  c) Oslo" +:+ nl;
     "  d) Bern" +:+ nl;
     nl +:+ "Your answer: ";
     "Please enter a valid letter (a, b, c, d) or 'quit'" +:+ nl;
     nl +:+ "Your answer: ";
     "Please enter a valid letter (a, b, c, d) or 'quit'" +:+ nl;
     nl +:+ "Your answer: ";
     "✓ Correct!" +:+ nl;
     nl +:+ "Press Enter to continue...";
     nl +:+ "Question 2/3:" +:+ nl;
     "Capital of Italy?" +:+ nl;
     "" +:+ nl;
     "  a) Paris" +:+ nl;
     "  b) Rome" +:+ nl;
     "  c) Oslo" +:+ nl;
     "  d) Bern" +:+ nl;
     nl +:+ "Your answer: ";
     "Please enter a valid letter (a, b, c, d) or 'quit'" +:+ nl;
     nl +:+ "Your answer: ";
     nl +:+ "============================================================" +:+ nl;
     "QUIZ RESULTS" +:+ nl;
     "============================================================" +:+ nl;
     "Score: 1/3 (33.3%)" +:+ nl;
     "💪 Practice makes perfect!" +:+ nl].
Proof.
  assert (Hplain : plain_lines (stdin quit_after_one)) by (repeat constructor).
  split; [exact Hplain|].
  destruct (quit_keeps_original_total "geo" "Geography" 0 false quit_after_one
              geo_questions [mk_answer ["e"; ""] "a" ""] ["stop"] " Quit " ["b"])
    as (self & self' & w' & order & Hinit & Hrun & _ & Hsame & Hscore & Htotal
        & _ & Hin & Hout).
  - reflexivity.
  - exact geo_questions_well_formed.
  - exact Hplain.
  - repeat constructor.
  - simpl. lia.
  - repeat constructor.
  - reflexivity.
  - reflexivity.
  - assert (Hself : self = mkQuiz "geo" "Geography" 0 0 3)
      by (vm_compute in Hinit; congruence).
    assert (Horder : order = geo_questions) by exact (Hsame eq_refl).
    exists self, self', w', order.
    split; [exact Hinit|]. split; [exact Hrun|]. split; [exact Horder|].
    rewrite Hout, Hscore, Htotal, Horder, Hself.
    split; [reflexivity|]. split; [reflexivity|]. split; [exact Hin|].
    vm_compute. reflexivity.
Defined.

(** The same run, computed: one point out of three. *)
Example quit_after_one_result :
  let '(r, w') := run (mkQuiz "geo" "Geography" 0 0 3) false quit_after_one in
  r = Ok (mkQuiz "geo" "Geography" 0 1 3) /\
  stdin w' = ["b"] /\
  drop (length (stdout w') - 2) (stdout w') =
    ["Score: 1/3 (33.3%)" +:+ nl; "💪 Practice makes perfect!" +:+ nl].
Proof. vm_compute. repeat split. Qed.

Lemma letter_answers_scored_witness :
  let w := console ["bb"; " B "; ""; "c"] in
  let q := mkQuestion "Capital of Italy?" ["Paris"; "Rome"; "Oslo"; "Bern"] 1 "" in
  let self := mkQuiz "geo" "Geography" 0 1 3 in
  exists self' w',
    _ask_question self 2 q w = (Ok (true, self'), w') /\
    stdin w' = ["c"] /\ same_quiz self self' /\
    (correct_label q = Ok (normalise " B ") -> score self' = score self + 1) /\
    (correct_label q <> Ok (normalise " B ") -> score self' = score self).
Proof.
  intros w q self.
  apply (proj1 letter_answers_scored self 2 q w (mk_answer ["bb"] " B " "") ["c"]).
  - split; [reflexivity|simpl; lia].
  - repeat constructor.
  - repeat constructor.
  - reflexivity.
Defined.

Lemma run_without_questions_witness :
  let w := mk_world [[]] ["a"] [] (fun _ => 0) 0 in
  exists self,
    __init__ "empty" "Empty" 0 w = (Ok self, w) /\ total self = 0 /\
    run self true w =
      (Ok self, io w (stdin w) [no_questions_message "empty" +:+ nl]).
Proof.
  intros w.
  apply (proj1 (run_without_questions "empty" "Empty" 0 true w)).
  reflexivity.
Defined.

Lemma run_keeps_question_list_witness :
  exists self,
    __init__ "geo" "Geography" 0 shuffled_run = (Ok self, shuffled_run) /\
    let (r, w') := run self true shuffled_run in
    heap w' !! 0 = Some geo_questions /\
    take (length (heap shuffled_run)) (heap w') = heap shuffled_run /\
    (forall self', r = Ok self' ->
       questions self' = 0 /\ total self' = length geo_questions).
Proof.
  apply (run_keeps_question_list "geo" "Geography" 0 geo_questions true
                                 shuffled_run).
  reflexivity.
Defined.

(** In that run the copy was shuffled and the original was not. *)
Example shuffled_run_heap :
  map (map question)
      (heap (run (mkQuiz "geo" "Geography" 0 0 3) true shuffled_run).2) =
  [["Capital of France?"; "Capital of Italy?"; "Capital of Norway?"];
   ["Capital of Norway?"; "Capital of France?"; "Capital of Italy?"]].
Proof. vm_compute. reflexivity. Qed.

End RuntimeFacts.

(* ===================================================================== *)
(** * More on the storage layer *)

Module StorageMore.
Import Storage StorageFacts.

Lemma rows_to_questions_checked rows :
  Forall (fun q => check_correct_answer (q_correct_answer q) = true) rows ->
  exists qs, rows_to_questions rows = Ok qs /\ length qs = length rows.
Proof.
  induction 1 as [|row rows Hrow _ (qs & Hqs & Hlen)]; simpl.
  - exists []. auto.
  - unfold row_to_question. rewrite (ord_checked _ Hrow), Hqs.
    eexists. split; [reflexivity|]. simpl. rewrite Hlen. reflexivity.
Qed.

Lemma questions_of_checked id db :
  wf db ->
  Forall (fun q => check_correct_answer (q_correct_answer q) = true)
         (questions_of id db).
Proof. intros Hwf. apply Forall_filter_keep, wf_check, Hwf. Qed.

Lemma reachable_add_questions name inputs : forall db,
  reachable db -> reachable (add_questions name inputs db).2.
Proof.
  induction inputs as [|i inputs IH]; intros db Hdb; simpl; [exact Hdb|].
  pose proof (reach_add (in_now i) name (in_text i) (in_choices i)
                (in_correct i) (in_explanation i) db Hdb) as Hstep.
  destruct (add_question _ _ _ _ _ _ _) as [[[]|e] db']; simpl in *; auto.
Qed.

Lemma described_reachable db :
  reachable db -> Forall (fun qz => qz_description qz <> None) (quizzes db).
Proof.
  induction 1 as [|now name title description db _ IH
                  |now name text choices correct explanation db _ IH
                  |name db _ IH].
  - constructor.
  - destruct (quiz_exists name db) eqn:He.
    + rewrite create_quiz_on_existing by exact He. exact IH.
    + rewrite create_quiz_on_fresh by exact He. simpl.
      apply Forall_app. split; [exact IH|]. repeat constructor. discriminate.
  - destruct (add_question _ _ _ _ _ _ _) as [r db'] eqn:E. simpl.
    apply add_question_inv in E as [->|(row & -> & _)]; exact IH.
  - rewrite delete_quiz_spec. simpl. apply Forall_filter_keep, IH.
Qed.

(** Distinct names resolve to distinct ids. *)
Lemma select_quiz_id_inj db name other id :
  wf db -> name <> other ->
  select_quiz_id name (connect db) = Some id ->
  select_quiz_id other (connect db) <> Some id.
Proof.
  intros Hwf Hne (qz & Hin & Hn & Hid)%select_quiz_id_some
         (qz' & Hin' & Hn' & Hid')%select_quiz_id_some.
  pose proof (wf_quiz_ids db Hwf) as Hs.
  assert (Hnd : NoDup (qz_id <$> quizzes db)).
  { clear -Hs. induction (qz_id <$> quizzes db) as [|x l IH]; [constructor|].
    apply StronglySorted_inv in Hs as [Hs Hx]. constructor; [|auto].
    intros Hin. rewrite Forall_forall in Hx. specialize (Hx x Hin). lia. }
  apply list_elem_of_lookup in Hin as [i Hi].
  apply list_elem_of_lookup in Hin' as [j Hj].
  assert (i = j).
  { eapply NoDup_lookup; [exact Hnd| |]; rewrite list_lookup_fmap.
    - rewrite Hi. reflexivity.
    - rewrite Hj. simpl. congruence. }
  subst j. congruence.
Qed.

Lemma get_quiz_info_filter name db :
  get_quiz_info name db =
  match filter (name_is name) (quizzes db) with
  | [] => None
  | qz :: _ => Some (info_row db qz)
  end.
Proof.
  unfold get_quiz_info, connect, connect_with. simpl.
  destruct (filter _ _); reflexivity.
Qed.

Lemma info_row_same_questions db db' qz :
  questions db' = questions db -> info_row db' qz = info_row db qz.
Proof. unfold info_row. intros ->. reflexivity. Qed.

Lemma info_row_questions_of db db' qz :
  questions_of (qz_id qz) db' = questions_of (qz_id qz) db ->
  info_row db' qz = info_row db qz.
Proof.
  intros H.
  pose proof (question_count_questions_of db' qz) as H1.
  pose proof (question_count_questions_of db qz) as H2.
  rewrite H in H1. unfold info_row in *. simpl in *. f_equal. congruence.
Qed.

(** ** Properties of the methods *)

(** Every file the methods produce from a fresh one keeps the schema:
    unique names, row ids that increase down each table and stay within
    the AUTOINCREMENT counters, every correct answer among a, b, c, d,
    and no quiz without a description. *)
Theorem files_keep_schema db :
  reachable db ->
  wf db /\ Forall (fun qz => qz_description qz <> None) (quizzes db).
Proof.
  intros Hr. split; [apply reachable_wf, Hr|apply described_reachable, Hr].
Qed.

(** Reading the questions of any name never fails on such a file, and
    every question read has four choices and the index of one of them. *)
Theorem get_quiz_questions_total name db :
  wf db ->
  exists qs,
    get_quiz_questions name db = Ok qs /\ Forall Runtime.well_formed qs.
Proof.
  intros Hwf.
  destruct (select_quiz_id name (connect db)) as [id|] eqn:Hs.
  - destruct (rows_to_questions_checked _ (questions_of_checked id db Hwf))
      as (qs & Hqs & _).
    exists qs. rewrite (get_quiz_questions_of name db id Hwf Hs).
    split; [exact Hqs|].
    eapply get_quiz_questions_well_formed; [exact Hwf|].
    rewrite (get_quiz_questions_of name db id Hwf Hs). exact Hqs.
  - apply select_quiz_id_none in Hs. exists [].
    split; [apply get_quiz_questions_no_quiz, Hs|constructor].
Qed.

Lemma stored_questions name db info :
  wf db -> get_quiz_info name db = Some info ->
  exists qs,
    get_quiz_questions name db = Ok qs /\ length qs = question_count info /\
    Forall Runtime.well_formed qs.
Proof.
  intros Hwf (qz & Hs & ->)%get_quiz_info_some.
  destruct (rows_to_questions_checked _ (questions_of_checked (qz_id qz) db Hwf))
    as (qs & Hqs & Hlen).
  assert (Hget : get_quiz_questions name db = Ok qs)
    by (rewrite (get_quiz_questions_of name db _ Hwf Hs); exact Hqs).
  exists qs. split; [exact Hget|]. split.
  - rewrite Hlen, question_count_questions_of. reflexivity.
  - exact (get_quiz_questions_well_formed name db qs Hwf Hget).
Qed.

(** The count [get_quiz_info] reports is the number of questions
    [get_quiz_questions] returns. *)
Theorem question_count_matches name db info :
  wf db -> get_quiz_info name db = Some info ->
  exists qs,
    get_quiz_questions name db = Ok qs /\ length qs = question_count info.
Proof.
  intros Hwf (qz & Hs & ->)%get_quiz_info_some.
  destruct (rows_to_questions_checked _ (questions_of_checked (qz_id qz) db Hwf))
    as (qs & Hqs & Hlen).
  exists qs. rewrite (get_quiz_questions_of name db _ Hwf Hs).
  split; [exact Hqs|]. rewrite Hlen, question_count_questions_of. reflexivity.
Qed.

Lemma create_quiz_fresh_spec now name title description db :
  wf db -> quiz_exists name db = false ->
  let (r, db') := create_quiz now name title description db in
  exists id,
    r = Ok id /\ seq_quizzes db < id /\
    Forall (fun qz => qz_id qz < id) (quizzes db) /\
    get_quiz_info name db' = Some (mkQuizInfo name title (Some description) 0) /\
    get_quiz_questions name db' = Ok [] /\
    forall other, other <> name ->
      get_quiz_info other db' = get_quiz_info other db /\
      get_quiz_questions other db' = get_quiz_questions other db.
Proof.
  intros Hwf He.
  pose proof (create_quiz_starts_empty now name title description db Hwf He)
    as Hempty.
  pose proof (wf_create_quiz now name title description db Hwf) as Hwf'.
  rewrite create_quiz_on_fresh in * by exact He. simpl in *.
  set (id := next_rowid qz_id (quizzes db) (seq_quizzes db)) in *.
  set (row := mk_quiz_row id name title (Some description) now) in *.
  set (db' := mk_database _ _ _ _) in *.
  assert (Hsel : filter (name_is name) (quizzes db') = [row]).
  { unfold db'. simpl. rewrite filter_app.
    apply quiz_exists_filter in He. rewrite He. simpl.
    rewrite filter_cons_True by (apply name_is_true; reflexivity).
    reflexivity. }
  exists id. split; [reflexivity|].
  split; [apply next_rowid_above_seq|].
  split; [rewrite Forall_forall; intros qz Hin; apply next_rowid_fresh, Hin|].
  split; [|split; [exact Hempty|]].
  - rewrite get_quiz_info_filter, Hsel. unfold info_row. simpl. f_equal. f_equal.
    assert (Hs : select_quiz_id name (connect db') = Some id).
    { unfold select_quiz_id, connect, connect_with. cbn [conn_db].
      rewrite Hsel. reflexivity. }
    rewrite (get_quiz_questions_of name db' id Hwf' Hs) in Hempty.
    pose proof (question_count_questions_of db' row) as Hc.
    unfold info_row in Hc. simpl in Hc. unfold db' in Hc at 1. simpl in Hc.
    rewrite Hc.
    destruct (rows_to_questions_checked _ (questions_of_checked id db' Hwf'))
      as (qs & Hqs & Hlen).
    rewrite Hqs in Hempty. injection Hempty as ->. simpl in Hlen.
    symmetry. exact Hlen.
  - intros other Hne.
    assert (Hf : filter (name_is other) (quizzes db') =
                 filter (name_is other) (quizzes db)).
    { unfold db'. simpl. rewrite filter_app.
      rewrite (filter_cons_False _ row) by
        (intros H%name_is_true; simpl in H; congruence).
      rewrite filter_nil, app_nil_r. reflexivity. }
    split.
    + rewrite !get_quiz_info_filter, Hf. destruct (filter _ _); reflexivity.
    + destruct (select_quiz_id other (connect db)) as [id'|] eqn:Hso.
      * assert (Hso' : select_quiz_id other (connect db') = Some id').
        { unfold select_quiz_id, connect, connect_with in *. simpl in *.
          rewrite Hf. exact Hso. }
        rewrite (get_quiz_questions_of other db' id' Hwf' Hso').
        rewrite (get_quiz_questions_of other db id' Hwf Hso). reflexivity.
      * assert (Hso' : select_quiz_id other (connect db') = None).
        { unfold select_quiz_id, connect, connect_with in *. simpl in *.
          rewrite Hf. exact Hso. }
        apply select_quiz_id_none in Hso, Hso'.
        rewrite !get_quiz_questions_no_quiz by assumption. reflexivity.
Qed.

(** [create_quiz] on a new name returns an id that was never handed out,
    stores the quiz with the given title and description and no
    questions, and leaves what is known of every other name as it was. *)
Theorem create_quiz_stores now name title description db :
  wf db -> quiz_exists name db = false ->
  let (r, db') := create_quiz now name title description db in
  exists id,
    r = Ok id /\ seq_quizzes db < id /\
    Forall (fun qz => qz_id qz < id) (quizzes db) /\
    get_quiz_info name db' = Some (mkQuizInfo name title (Some description) 0) /\
    get_quiz_questions name db' = Ok [] /\
    forall other, other <> name ->
      get_quiz_info other db' = get_quiz_info other db /\
      get_quiz_questions other db' = get_quiz_questions other db.
Proof. exact (create_quiz_fresh_spec now name title description db). Qed.

(** On a stored quiz, [add_question] needs four choices and a label
    among a, b, c, d: with fewer choices it raises [IndexError], with
    another label the CHECK constraint fails, and either way the file is
    unchanged; choices beyond the fourth are dropped without notice. *)
Theorem add_question_edge_cases now name text choices correct explanation db :
  quiz_exists name db = true ->
  (length choices < 4 ->
   add_question now name text choices correct explanation db =
     (Raise IndexError, db))%nat /\
  (4 <= length choices -> check_correct_answer correct = false ->
   exists msg,
     add_question now name text choices correct explanation db =
       (Raise (IntegrityError msg), db))%nat /\
  add_question now name text choices correct explanation db =
    add_question now name text (take 4 choices) correct explanation db.
Proof.
  intros He.
  destruct (select_quiz_id name (connect db)) as [id|] eqn:Hs;
    [|apply select_quiz_id_none in Hs; congruence].
  unfold add_question. rewrite Hs.
  destruct choices as [|a [|b [|c [|d extra]]]]; simpl;
    (split; [intros Hlen; try reflexivity; lia|]);
    (split; [|reflexivity]); intros Hlen Hc; try lia.
  unfold insert_question. rewrite Hc. simpl. eauto.
Qed.

(** [add_question] on one quiz changes nothing that is read under
    another name, and never touches the quizzes table. *)
Theorem add_question_frame now name text choices correct explanation db other :
  wf db -> other <> name ->
  let db' := (add_question now name text choices correct explanation db).2 in
  quizzes db' = quizzes db /\
  get_quiz_info other db' = get_quiz_info other db /\
  get_quiz_questions other db' = get_quiz_questions other db.
Proof.
  intros Hwf Hne db'.
  pose proof (wf_add_question now name text choices correct explanation db Hwf)
    as Hwf'. fold db' in Hwf'.
  destruct (add_question now name text choices correct explanation db)
    as [r db''] eqn:E.
  apply add_question_inv in E as [->|(row & -> & _ & Hsel & _)];
    simpl in db'; subst db'; [auto|].
  split; [reflexivity|].
  set (db' := mk_database _ _ _ _) in *.
  destruct (select_quiz_id other (connect db)) as [id'|] eqn:Hso.
  - assert (Hid : q_quiz_id row <> id').
    { intros <-. eapply select_quiz_id_inj; [exact Hwf| |exact Hsel|exact Hso].
      congruence. }
    assert (Hq : questions_of id' db' = questions_of id' db).
    { unfold questions_of, db'. simpl. rewrite filter_app.
      rewrite filter_cons_False, filter_nil, app_nil_r; [reflexivity|].
      intros H. apply Is_true_true, Z.eqb_eq in H. contradiction. }
    split.
    + rewrite !get_quiz_info_filter. change (quizzes db') with (quizzes db).
      destruct (filter (name_is other) (quizzes db)) as [|qz l] eqn:Ef;
        [reflexivity|].
      f_equal. apply info_row_questions_of.
      assert (qz_id qz = id') as ->; [|exact Hq].
      unfold select_quiz_id, connect, connect_with in Hso. simpl in Hso.
      rewrite Ef in Hso. congruence.
    + rewrite (get_quiz_questions_of other db' id' Hwf' Hso).
      rewrite (get_quiz_questions_of other db id' Hwf Hso), Hq. reflexivity.
  - split.
    + rewrite !get_quiz_info_filter. change (quizzes db') with (quizzes db).
      unfold select_quiz_id, connect, connect_with in Hso. simpl in Hso.
      destruct (filter (name_is other) (quizzes db)); [reflexivity|discriminate].
    + apply select_quiz_id_none in Hso.
      rewrite !get_quiz_questions_no_quiz; auto.
Qed.

(** [delete_quiz] changes nothing that is read under another name. *)
Theorem delete_quiz_frame name db other :
  other <> name ->
  let db' := (delete_quiz name db).2 in
  get_quiz_info other db' = get_quiz_info other db /\
  get_quiz_questions other db' = get_quiz_questions other db.
Proof.
  intros Hne db'. subst db'. rewrite delete_quiz_spec. simpl.
  set (db' := mk_database _ _ _ _).
  assert (Hf : forall (P : quiz_row -> bool),
            (forall qz, P qz = true -> qz_name qz = other) ->
            filter P (quizzes db') = filter P (quizzes db)).
  { intros P HP. unfold db'. simpl.
    induction (quizzes db) as [|qz l IH]; [reflexivity|].
    rewrite (filter_cons (fun qz => negb (name_is name qz))).
    destruct (decide _) as [Hk|Hk].
    - rewrite !(filter_cons P), IH. reflexivity.
    - rewrite (filter_cons P qz), IH.
      destruct (decide (P qz)) as [HPq|]; [|reflexivity].
      exfalso. apply Hk. apply Is_true_true, HP in HPq.
      apply Is_true_true, negb_true_iff.
      destruct (name_is name qz) eqn:Hn; [|reflexivity].
      apply name_is_spec in Hn. congruence. }
  split.
  - rewrite !get_quiz_info_filter, Hf by (intros qz; apply name_is_spec).
    destruct (filter _ _); reflexivity.
  - unfold get_quiz_questions, connect, connect_with. simpl. f_equal. f_equal.
    unfold join_questions. change (questions db') with (questions db).
    generalize (questions db) as l.
    induction l as [|q l IH]; [reflexivity|].
    rewrite !bind_cons, IH. f_equal. f_equal. apply Hf.
    intros qz [_ Hn%name_is_spec]%andb_true_iff. exact Hn.
Qed.

(** Deleting the same name again finds nothing and changes nothing. *)
Theorem delete_quiz_twice name db :
  delete_quiz name (delete_quiz name db).2 = (false, (delete_quiz name db).2).
Proof. apply delete_quiz_missing, quiz_exists_after_delete. Qed.

(** A batch of valid questions added to a stored quiz comes after the
    questions it had, in the order of the calls, and the file still
    keeps the schema. *)
Theorem add_questions_after_existing name inputs db old :
  wf db -> quiz_exists name db = true ->
  get_quiz_questions name db = Ok old ->
  Forall valid_input inputs ->
  exists db',
    add_questions name inputs db = (Ok tt, db') /\ wf db' /\
    get_quiz_questions name db' = Ok (old ++ (question_of_input <$> inputs)).
Proof.
  intros Hwf He Hold Hv.
  destruct (select_quiz_id name (connect db)) as [id|] eqn:Hs;
    [|apply select_quiz_id_none in Hs; congruence].
  exact (add_questions_append name inputs db id old Hwf Hs Hold Hv).
Qed.

(** A quiz deleted and created again under the same name starts without
    questions, though the rows of the old one are still in the table:
    its new id was never used. *)
Theorem recreated_quiz_is_empty now name title description db :
  wf db ->
  let db1 := (delete_quiz name db).2 in
  let db2 := (create_quiz now name title description db1).2 in
  questions db2 = questions db /\
  get_quiz_questions name db2 = Ok [] /\
  get_quiz_info name db2 = Some (mkQuizInfo name title (Some description) 0).
Proof.
  intros Hwf db1 db2.
  assert (Hwf1 : wf db1) by exact (wf_delete_quiz name db Hwf).
  assert (He1 : quiz_exists name db1 = false)
    by exact (quiz_exists_after_delete name db).
  pose proof (create_quiz_fresh_spec now name title description db1 Hwf1 He1) as H.
  subst db2.
  assert (Hq : questions (create_quiz now name title description db1).2 =
               questions db).
  { rewrite create_quiz_on_fresh by exact He1.
    exact (delete_quiz_keeps_question_rows name db). }
  destruct (create_quiz now name title description db1) as [r db2].
  destruct H as (id & _ & _ & _ & Hinfo & Hget & _). auto.
Qed.

(** Each row of the listing is what [get_quiz_info] returns for its
    name, and there is one row per stored quiz. *)
Theorem list_quizzes_rows db :
  wf db ->
  length (list_quizzes db) = length (quizzes db) /\
  forall row, row ∈ list_quizzes db -> get_quiz_info (name row) db = Some row.
Proof.
  intros Hwf. unfold list_quizzes, connect, connect_with. simpl. split.
  - rewrite (Permutation_length (order_by_perm _ _ _)), length_fmap. reflexivity.
  - intros row Hin. rewrite order_by_perm in Hin.
    apply list_elem_of_fmap in Hin as (qz & -> & Hin).
    rewrite get_quiz_info_filter. simpl.
    rewrite (filter_name_unique (qz_name qz) _ qz); auto using wf_names.
Qed.

(** ** The properties at concrete inputs *)

Lemma geo_one_question_reachable : reachable geo_one_question.
Proof. apply reach_add, reach_create, reach_init. Qed.

Lemma geo_quiz_reachable : reachable geo_quiz.
Proof. apply reachable_add_questions, reach_create, reach_init. Qed.

Lemma geo_quiz_wf : wf geo_quiz.
Proof. apply reachable_wf, geo_quiz_reachable. Qed.

Lemma files_keep_schema_witness :
  reachable geo_one_question /\
  wf geo_one_question /\
  Forall (fun qz => qz_description qz <> None) (quizzes geo_one_question).
Proof.
  split; [exact geo_one_question_reachable|].
  exact (files_keep_schema geo_one_question geo_one_question_reachable).
Defined.

Lemma get_quiz_questions_total_witness :
  wf geo_quiz /\
  exists qs,
    get_quiz_questions "geo" geo_quiz = Ok qs /\ Forall Runtime.well_formed qs.
Proof.
  split; [exact geo_quiz_wf|].
  exact (get_quiz_questions_total "geo" geo_quiz geo_quiz_wf).
Defined.

Lemma question_count_matches_witness :
  wf geo_quiz /\
  get_quiz_info "geo" geo_quiz = Some (mkQuizInfo "geo" "Geography" (Some "") 3) /\
  exists qs, get_quiz_questions "geo" geo_quiz = Ok qs /\ length qs = 3%nat.
Proof.
  split; [exact geo_quiz_wf|]. split; [reflexivity|].
  exact (question_count_matches "geo" geo_quiz
           (mkQuizInfo "geo" "Geography" (Some "") 3) geo_quiz_wf eq_refl).
Defined.

Lemma create_quiz_stores_witness :
  wf geo_quiz /\ quiz_exists "math" geo_quiz = false /\
  let (r, db') := create_quiz 7 "math" "Maths" "Sums" geo_quiz in
  exists id,
    r = Ok id /\ seq_quizzes geo_quiz < id /\
    Forall (fun qz => qz_id qz < id) (quizzes geo_quiz) /\
    get_quiz_info "math" db' = Some (mkQuizInfo "math" "Maths" (Some "Sums") 0) /\
    get_quiz_questions "math" db' = Ok [] /\
    forall other, other <> "math" ->
      get_quiz_info other db' = get_quiz_info other geo_quiz /\
      get_quiz_questions other db' = get_quiz_questions other geo_quiz.
Proof.
  split; [exact geo_quiz_wf|]. split; [reflexivity|].
  exact (create_quiz_stores 7 "math" "Maths" "Sums" geo_quiz geo_quiz_wf eq_refl).
Defined.

Lemma add_question_edge_cases_witness :
  quiz_exists "geo" geo_quiz = true /\
  add_question 9 "geo" "Q?" ["1"; "2"; "3"] "a" "" geo_quiz
    = (Raise IndexError, geo_quiz) /\
  (exists msg,
     add_question 9 "geo" "Q?" ["1"; "2"; "3"; "4"] "e" "" geo_quiz
       = (Raise (IntegrityError msg), geo_quiz)) /\
  add_question 9 "geo" "Q?" ["1"; "2"; "3"; "4"; "5"] "a" "" geo_quiz
    = add_question 9 "geo" "Q?" ["1"; "2"; "3"; "4"] "a" "" geo_quiz.
Proof.
  split; [reflexivity|]. split; [|split].
  - refine (proj1 (add_question_edge_cases 9 "geo" "Q?" ["1"; "2"; "3"] "a" ""
                     geo_quiz eq_refl) _). simpl. lia.
  - refine (proj1 (proj2 (add_question_edge_cases 9 "geo" "Q?"
                            ["1"; "2"; "3"; "4"] "e" "" geo_quiz eq_refl)) _ _);
      [simpl; lia|reflexivity].
  - exact (proj2 (proj2 (add_question_edge_cases 9 "geo" "Q?"
                           ["1"; "2"; "3"; "4"; "5"] "a" "" geo_quiz eq_refl))).
Defined.

Lemma geo_and_capitals_wf : wf geo_and_capitals.
Proof.
  apply reachable_wf, reach_add, reach_create, geo_quiz_reachable.
Qed.

Lemma add_question_frame_witness :
  let capitals :=
    mkQuizInfo "capitals" "World Capitals"
      (Some "The capital cities of every country of the world") 1 in
  let db' := (add_question 9 "geo" "Capital of Spain?"
                ["Madrid"; "Rome"; "Oslo"; "Bern"] "a" "" geo_and_capitals).2 in
  wf geo_and_capitals /\ "capitals" <> "geo" /\
  get_quiz_info "geo" geo_and_capitals
    = Some (mkQuizInfo "geo" "Geography" (Some "") 3) /\
  get_quiz_info "geo" db' = Some (mkQuizInfo "geo" "Geography" (Some "") 4) /\
  quizzes db' = quizzes geo_and_capitals /\
  get_quiz_info "capitals" db' = Some capitals /\
  get_quiz_questions "capitals" db' =
    Ok [mkQuestion "Capital of Peru?" ["Quito"; "Lima"; "Oslo"; "Bern"] 1
                   "It is Lima."].
Proof.
  intros capitals db'.
  assert (Hne : "capitals" <> "geo") by discriminate.
  split; [exact geo_and_capitals_wf|]. split; [exact Hne|].
  split; [reflexivity|]. split; [reflexivity|].
  destruct (add_question_frame 9 "geo" "Capital of Spain?"
              ["Madrid"; "Rome"; "Oslo"; "Bern"] "a" "" geo_and_capitals
              "capitals" geo_and_capitals_wf Hne) as (Hq & Hinfo & Hget).
  split; [exact Hq|]. split.
  - exact (eq_trans Hinfo eq_refl).
  - exact (eq_trans Hget eq_refl).
Defined.

Lemma delete_quiz_frame_witness :
  let db' := (delete_quiz "capitals" geo_and_capitals).2 in
  "geo" <> "capitals" /\
  get_quiz_info "capitals" geo_and_capitals
    = Some (mkQuizInfo "capitals" "World Capitals"
              (Some "The capital cities of every country of the world") 1) /\
  get_quiz_info "capitals" db' = None /\
  get_quiz_info "geo" db' = Some (mkQuizInfo "geo" "Geography" (Some "") 3) /\
  get_quiz_questions "geo" db' = Ok geo_questions.
Proof.
  intros db'.
  assert (Hne : "geo" <> "capitals") by discriminate.
  split; [exact Hne|]. split; [reflexivity|]. split; [reflexivity|].
  destruct (delete_quiz_frame "capitals" geo_and_capitals "geo" Hne)
    as (Hinfo & Hget).
  split.
  - exact (eq_trans Hinfo eq_refl).
  - exact (eq_trans Hget eq_refl).
Defined.

Lemma add_questions_after_existing_witness :
  let old := [mkQuestion "Capital of France?" ["Paris"; "Rome"; "Oslo"; "Bern"] 0 ""] in
  wf geo_one_question /\ quiz_exists "geo" geo_one_question = true /\
  get_quiz_questions "geo" geo_one_question = Ok old /\
  Forall valid_input geo_inputs /\
  exists db',
    add_questions "geo" geo_inputs geo_one_question = (Ok tt, db') /\ wf db' /\
    get_quiz_questions "geo" db' = Ok (old ++ (question_of_input <$> geo_inputs)).
Proof.
  intros old.
  assert (Hwf : wf geo_one_question)
    by (apply reachable_wf, geo_one_question_reachable).
  assert (Hv : Forall valid_input geo_inputs) by (repeat constructor).
  split; [exact Hwf|]. split; [reflexivity|]. split; [reflexivity|].
  split; [exact Hv|].
  exact (add_questions_after_existing "geo" geo_inputs geo_one_question old
           Hwf eq_refl eq_refl Hv).
Defined.

Lemma recreated_quiz_is_empty_witness :
  wf geo_quiz /\
  let db1 := (delete_quiz "geo" geo_quiz).2 in
  let db2 := (create_quiz 9 "geo" "Again" "" db1).2 in
  questions db2 = questions geo_quiz /\
  get_quiz_questions "geo" db2 = Ok [] /\
  get_quiz_info "geo" db2 = Some (mkQuizInfo "geo" "Again" (Some "") 0).
Proof.
  split; [exact geo_quiz_wf|].
  exact (recreated_quiz_is_empty 9 "geo" "Again" "" geo_quiz geo_quiz_wf).
Defined.

Lemma list_quizzes_rows_witness :
  wf geo_quiz /\
  length (list_quizzes geo_quiz) = length (quizzes geo_quiz) /\
  forall row, row ∈ list_quizzes geo_quiz ->
    get_quiz_info (name row) geo_quiz = Some row.
Proof.
  split; [exact geo_quiz_wf|]. exact (list_quizzes_rows geo_quiz geo_quiz_wf).
Defined.

End StorageMore.

(* ===================================================================== *)
(** * More on the quiz runtime *)

Module RuntimeMore.
Import Runtime RuntimeFacts.
Local Open Scope nat_scope.
Local Open Scope quiz_scope.

(** ** Trimming and case *)

Lemma lstrip_all_space pre s : all_space pre = true -> lstrip (pre +:+ s) = lstrip s.
Proof.
  induction pre as [|c pre IH]; simpl; [reflexivity|].
  intros [Hc Hpre]%andb_true_iff. rewrite Hc. auto.
Qed.

Lemma lstrip_only_space post : all_space post = true -> lstrip post = "".
Proof.
  induction post as [|c post IH]; simpl; [reflexivity|].
  intros [Hc Hpost]%andb_true_iff. rewrite Hc. auto.
Qed.

Lemma rstrip_only_space post : all_space post = true -> rstrip post = "".
Proof.
  induction post as [|c post IH]; simpl; [reflexivity|].
  intros [Hc Hpost]%andb_true_iff. rewrite (IH Hpost), Hc. reflexivity.
Qed.

Lemma rstrip_no_space core post :
  no_space core = true -> all_space post = true ->
  rstrip (core +:+ post) = core.
Proof.
  intros Hcore Hpost. induction core as [|c core IH]; simpl.
  - apply rstrip_only_space, Hpost.
  - simpl in Hcore. apply andb_true_iff in Hcore as [Hc Hcore].
    rewrite (IH Hcore). apply negb_true_iff in Hc. rewrite Hc.
    destruct core; reflexivity.
Qed.

(** [strip] removes the white space around a text that has none. *)
Lemma strip_padded pre core post :
  all_space pre = true -> no_space core = true -> all_space post = true ->
  strip (pre +:+ core +:+ post) = core.
Proof.
  intros Hpre Hcore Hpost. unfold strip. rewrite lstrip_all_space by exact Hpre.
  destruct core as [|c core]; simpl.
  - rewrite lstrip_only_space by exact Hpost. reflexivity.
  - simpl in Hcore. pose proof Hcore as Hcore'.
    apply andb_true_iff in Hcore as [Hc Hrest].
    rewrite (proj1 (negb_true_iff _) Hc).
    exact (rstrip_no_space (String c core) post Hcore' Hpost).
Qed.

Lemma is_space_lower_char c : is_space (lower_char c) = is_space c.
Proof.
  destruct c as [[] [] [] [] [] [] [] []]; reflexivity.
Qed.

Lemma no_space_lower s : no_space (lower s) = no_space s.
Proof.
  induction s as [|c s IH]; simpl; [reflexivity|].
  rewrite is_space_lower_char, IH. reflexivity.
Qed.

Lemma padded_answer pre core post :
  all_space pre = true -> all_space post = true ->
  no_space (lower core) = true ->
  normalise (pre +:+ core +:+ post) = lower core.
Proof.
  intros Hpre Hpost Hn. unfold normalise. rewrite no_space_lower in Hn.
  rewrite strip_padded by assumption. reflexivity.
Qed.

(** [_ask_question] reads an answer without regard to case or to the
    ASCII white space around it.  A line that is quit in any mix of
    cases, with such white space before and after, ends the question
    unanswered: it returns [False], the score is as it was, and the
    question and one prompt were printed.  A line that is one of the
    letters a, b, c, d in either case, padded in the same way, is marked
    as that lower-case letter: the verdict follows, the pause reads one
    more line, and it returns [True]. *)
Theorem answers_ignore_case_and_padding self num q w pre core post :
  well_formed q ->
  all_space pre = true -> all_space post = true ->
  let line := pre +:+ core +:+ post in
  (lower core = "quit" ->
   forall rest, stdin w = line :: rest ->
     _ask_question self num q w =
       (Ok (false, self),
        io w rest (heading (total self) num q ++ [answer_prompt]))) /\
  (forall label, In label ["a"; "b"; "c"; "d"] -> lower core = label ->
   forall enter rest, stdin w = line :: enter :: rest ->
     _ask_question self num q w =
       (Ok (true, add_score self (letter_points q label)),
        io w rest (heading (total self) num q ++ [answer_prompt] ++
                   verdict q label))).
Proof.
  intros Hq Hpre Hpost line. split.
  - intros Hcore rest Hin.
    assert (Hn : normalise line = "quit").
    { unfold line. rewrite padded_answer; [exact Hcore|assumption|assumption|].
      rewrite Hcore. reflexivity. }
    assert (Hquit : is_quit line = true) by (unfold is_quit; rewrite Hn; reflexivity).
    exact (says_ask_quit self num q w [] line rest Hq (List.Forall_nil _) Hin Hquit).
  - intros label Hin Hcore enter rest Hstdin.
    assert (Hn : normalise line = label).
    { unfold line. rewrite padded_answer; [exact Hcore|assumption|assumption|].
      rewrite Hcore. simpl in Hin.
      destruct Hin as [<-|[<-|[<-|[<-|[]]]]]; reflexivity. }
    assert (Hletter : is_letter line = true).
    { apply is_letter_spec. rewrite Hn. simpl in Hin. intuition. }
    pose proof (says_ask_letter self num q w (mk_answer [] line enter) rest Hq
                  (conj (List.Forall_nil _) Hletter) Hstdin) as H.
    unfold answered, points in H. cbn [rejected letter pause] in H.
    rewrite Hn in H. exact H.
Qed.


(** ** What a run can raise *)

Lemma hoare_weaken {S A} (Pre Pre' : S -> Prop) (m : S -> result A * S)
    (Post Post' : A -> S -> Prop) (Exc Exc' : exn -> S -> Prop) :
  hoare Pre m Post Exc ->
  (forall s, Pre' s -> Pre s) ->
  (forall a s, Post a s -> Post' a s) ->
  (forall e s, Exc e s -> Exc' e s) ->
  hoare Pre' m Post' Exc'.
Proof.
  intros Hm HP HQ HX s Hs. specialize (Hm s (HP s Hs)).
  destruct (m s) as [[a|e] s']; auto.
Qed.

Lemma hoare_weaken_post {S A} (Pre : S -> Prop) (m : S -> result A * S)
    (Post Post' : A -> S -> Prop) (Exc : exn -> S -> Prop) :
  hoare Pre m Post Exc ->
  (forall a s, Post a s -> Post' a s) ->
  hoare Pre m Post' Exc.
Proof. intros Hm HQ. eapply hoare_weaken; eauto. Qed.

Lemma run_bind {A B} Pre (m : M A) Q (k : A -> M B) R X :
  hoare Pre m Q X -> (forall a, hoare (Q a) (k a) R X) ->
  hoare Pre (bind m k) R X.
Proof.
  intros Hm Hk w Hw. specialize (Hm w Hw). unfold bind.
  destruct (m w) as [[a|e] w1]; [exact (Hk a w1 Hm)|exact Hm].
Qed.

Lemma run_ret {A} (Pre : world -> Prop) (a : A) (R : A -> world -> Prop) X :
  (forall w, Pre w -> R a w) -> hoare Pre (ret a) R X.
Proof. intros H w Hw. exact (H w Hw). Qed.

Lemma run_bind_ret {A B} Pre (a : A) (k : A -> M B) R X :
  hoare Pre (k a) R X -> hoare Pre (bind (ret a) k) R X.
Proof. intros H w Hw. exact (H w Hw). Qed.

Lemma run_bind_print {B} h p s (k : unit -> M B) R X :
  hoare (waiting h p) (k tt) R X ->
  hoare (waiting h p) (bind (print s) k) R X.
Proof.
  intros H w [Hh Hp]. unfold bind, print, write.
  apply (H (set_stdout (stdout w ++ [s +:+ nl]) w)). split; assumption.
Qed.

Lemma run_bind_input {B} h p prompt (k : string -> M B) R :
  (forall line rest, p = line :: rest -> hoare (waiting h rest) (k line) R end_of_input) ->
  hoare (waiting h p) (bind (input prompt) k) R end_of_input.
Proof.
  intros H w [Hh Hp]. unfold bind at 1. unfold input, bind, write, read_line.
  cbn [stdin set_stdout]. rewrite Hp. destruct p as [|line rest].
  - split; [reflexivity|]. exact Hp.
  - apply (H line rest eq_refl). split; [exact Hh|reflexivity].
Qed.

Lemma run_any_input {A} h (m : M A) R X :
  (forall p, hoare (waiting h p) m R X) -> hoare (heap_is h) m R X.
Proof. intros H w Hw. apply (H (stdin w)). split; [exact Hw|reflexivity]. Qed.

Lemma run_this_input {A} h p (m : M A) R X :
  hoare (heap_is h) m R X -> hoare (waiting h p) m R X.
Proof. intros H w [Hw _]. exact (H w Hw). Qed.

Lemma safe_mark_answer h self q answer p :
  well_formed q ->
  answer = "a" \/ answer = "b" \/ answer = "c" \/ answer = "d" ->
  hoare (waiting h p) (mark_answer self q answer)
        (fun r w => heap_is h w /\ same_quiz self r.2) end_of_input.
Proof.
  intros [Hlen Hc] Hl.
  destruct (ord_letter answer Hl) as (code & Hcode & _).
  destruct (getitem_in_range (choices q) (correct q)) as [choice Hchoice];
    [rewrite Hlen; lia|].
  unfold mark_answer. cbv zeta. rewrite Hcode. cbn [lift].
  apply run_bind_ret.
  apply run_bind with (Q := fun self' w => waiting h p w /\ same_quiz self self').
  - destruct (code - 97 =? correct q)%Z.
    + apply run_bind_print. apply run_ret. intros w Hw.
      split; [exact Hw|apply same_quiz_add_score].
    + rewrite chr_in_range by lia. rewrite Hchoice. cbn [lift].
      do 2 apply run_bind_ret. apply run_bind_print. apply run_ret.
      intros w Hw. split; [exact Hw|apply same_quiz_refl].
  - intros self'.
    apply run_bind with (Q := fun _ w => waiting h p w /\ same_quiz self self').
    + destruct (String.eqb (explanation q) "").
      * intros w Hw. exact Hw.
      * intros w Hw. hnf in Hw. destruct Hw as [[Hh Hp] Hs].
        unfold print, write. cbv beta iota.
        split; [split|]; assumption.
    + intros _ w Hw. hnf in Hw. destruct Hw as [Hw Hs]. revert w Hw.
      change (hoare (waiting h p)
                (input (nl +:+ "Press Enter to continue...") ;; ret (true, self'))
                (fun r w => heap_is h w /\ same_quiz self r.2) end_of_input).
      apply run_bind_input. intros line rest _. apply run_ret.
      intros w [Hw _]. split; [exact Hw|exact Hs].
Qed.

Lemma safe_answer_loop h self q :
  well_formed q ->
  forall pending,
    hoare (waiting h pending) (answer_loop self q pending)
          (fun r w => heap_is h w /\ same_quiz self r.2) end_of_input.
Proof.
  intros Hq pending. induction pending as [|first pending IH];
    rewrite answer_loop_eq; apply run_bind_input; intros line rest Hp;
    [discriminate|]. injection Hp as <- <-.
  destruct (is_quit first).
  - apply run_ret. intros w [Hw _]. split; [exact Hw|apply same_quiz_refl].
  - destruct (is_letter first) eqn:Hl.
    + apply safe_mark_answer; [exact Hq|]. apply is_letter_spec, Hl.
    + apply run_bind_print. exact IH.
Qed.

Lemma safe_ask_question h self num q :
  well_formed q ->
  hoare (heap_is h) (_ask_question self num q)
        (fun r w => heap_is h w /\ same_quiz self r.2) end_of_input.
Proof.
  intros Hq. pose proof Hq as [Hlen _]. apply run_any_input. intros p.
  unfold _ask_question.
  destruct (choices q) as [|a [|b [|c [|d [|e l]]]]]; try discriminate.
  do 3 apply run_bind_print.
  apply run_bind with (Q := fun _ => waiting h p).
  - cbn [show_choices].
    repeat (rewrite chr_in_range by lia; cbn [lift]; apply run_bind_ret;
            apply run_bind_print).
    apply run_ret. auto.
  - intros _ w Hw. pose proof Hw as [_ Hin].
    rewrite Hin. exact (safe_answer_loop h self q Hq p w Hw).
Qed.

Lemma safe_ask_all h qs : forall self i,
  Forall well_formed qs ->
  hoare (heap_is h) (ask_all self i qs)
        (fun self' w => heap_is h w /\ same_quiz self self') end_of_input.
Proof.
  induction qs as [|q qs IH]; intros self i Hwf.
  - apply run_ret. intros w Hw. split; [exact Hw|apply same_quiz_refl].
  - apply Forall_cons in Hwf as [Hq Hwf]. cbn [ask_all].
    eapply run_bind; [exact (safe_ask_question h self i q Hq)|].
    intros [go self1]. cbn [fst snd]. destruct go.
    + intros w [Hw Hs]. specialize (IH self1 (S i) Hwf w Hw).
      destruct (ask_all self1 (S i) qs w) as [[self2|e] w']; [|exact IH].
      destruct IH as [Hw' Hs']. split; [exact Hw'|].
      exact (same_quiz_trans _ _ _ Hs Hs').
    + intros w Hw. exact Hw.
Qed.

Lemma safe_show_results h self :
  total self <> 0 ->
  hoare (heap_is h) (_show_results self) (fun _ w => heap_is h w) end_of_input.
Proof.
  intros Ht w Hw. rewrite (yields_show_results self w Ht). exact Hw.
Qed.

(** The start of a run over a non-empty list: the banner, the copy and
    the shuffle always succeed, and leave the loop over the questions to
    run. *)
Lemma run_asks self shuffle w qs :
  heap w !! questions self = Some qs -> qs <> [] ->
  exists order,
    order ≡ₚ qs /\ (shuffle = false -> order = qs) /\
    run self shuffle w =
      (self' <- ask_all self 1 order ;; _show_results self' ;; ret self')
        (asking self w order (if shuffle then length qs - 1 else 0)).
Proof.
  intros Hq Hne. destruct qs as [|q qs]; [contradiction|].
  set (w1 := io w (stdin w) (banner self)).
  set (l := length (heap w)).
  assert (Hcopy : list_copy (questions self) w1 =
                  (Ok l, set_heap (heap w ++ [q :: qs]) w1)).
  { unfold list_copy. rewrite (bind_ok _ _ w1 (q :: qs) w1); [reflexivity|].
    apply deref_some. exact Hq. }
  assert (Hl : (heap w ++ [q :: qs]) !! l = Some (q :: qs))
    by (apply list_lookup_middle; reflexivity).
  assert (Hshuffle : exists order,
    order ≡ₚ q :: qs /\ (shuffle = false -> order = q :: qs) /\
    (if shuffle then random_shuffle l else ret tt)
      (set_heap (heap w ++ [q :: qs]) w1) =
    (Ok tt, asking self w order (if shuffle then length (q :: qs) - 1 else 0))).
  { destruct shuffle.
    - destruct (random_shuffle_spec l (set_heap (heap w ++ [q :: qs]) w1) (q :: qs) Hl)
        as (order & Hperm & Hrun).
      exists order. split; [exact Hperm|]. split; [discriminate|].
      rewrite Hrun. unfold asking. cbn [heap stdin stdout entropy drawn set_heap w1 io].
      do 2 f_equal. unfold l.
      rewrite insert_app_r_alt by lia. rewrite Nat.sub_diag. reflexivity.
    - exists (q :: qs). split; [reflexivity|]. split; [reflexivity|].
      unfold ret, asking. cbn [heap stdin stdout entropy drawn set_heap w1 io].
      rewrite Nat.add_0_r. reflexivity. }
  destruct Hshuffle as (order & Hperm & Hsame & Hrun).
  exists order. split; [exact Hperm|]. split; [exact Hsame|].
  rewrite (run_banner self shuffle w q qs Hq). fold w1.
  rewrite (bind_ok _ _ _ _ _ Hcopy).
  rewrite (bind_ok _ _ _ _ _ Hrun).
  set (w2 := asking self w order (if shuffle then length (q :: qs) - 1 else 0)).
  rewrite (bind_ok _ _ w2 order w2); [reflexivity|].
  apply deref_some. unfold w2, asking. cbn [heap].
  apply list_lookup_middle. reflexivity.
Qed.

Lemma safe_run self shuffle w qs :
  heap w !! questions self = Some qs ->
  Forall well_formed qs -> total self = length qs ->
  match run self shuffle w with
  | (Ok _, _) => True
  | (Raise e, w') => end_of_input e w'
  end.
Proof.
  intros Hq Hwf Ht. destruct qs as [|q qs].
  - unfold run. rewrite (bind_ok _ _ w [] w) by (apply deref_some; exact Hq).
    exact I.
  - destruct (run_asks self shuffle w (q :: qs) Hq) as (order & Hperm & _ & ->);
      [discriminate|].
    set (w2 := asking _ _ _ _).
    assert (H : hoare (heap_is (heap w2))
                  (self' <- ask_all self 1 order ;; _show_results self' ;; ret self')
                  (fun _ _ => True) end_of_input).
    { eapply run_bind.
      - apply safe_ask_all. rewrite Hperm. exact Hwf.
      - intros self'. cbv beta. intros w' [Hw' Hs].
        assert (Ht' : total self' <> 0).
        { destruct Hs as (_ & _ & _ & ->). rewrite Ht. discriminate. }
        unfold bind. rewrite (yields_show_results self' w' Ht'). exact I. }
    exact (H w2 eq_refl).
Qed.

(** ** [run_quiz_command] *)

(** The start of [run_quiz_command] on a quiz with questions: they are
    read, become a list object, and a quiz object over it is run. *)
Lemma run_quiz_command_runs db quiz_name shuffle w info :
  Storage.wf db -> Storage.get_quiz_info quiz_name db = Some info ->
  Storage.question_count info <> 0 ->
  exists qs,
    Storage.get_quiz_questions quiz_name db = Ok qs /\
    length qs = Storage.question_count info /\ Forall well_formed qs /\
    run_quiz_command db quiz_name shuffle w =
      (run (mkQuiz quiz_name (Storage.title info) (length (heap w)) 0 (length qs))
           shuffle ;; ret tt) (set_heap (heap w ++ [qs]) w).
Proof.
  intros Hwf Hinfo Hcount.
  destruct (StorageMore.stored_questions quiz_name db info Hwf Hinfo)
    as (qs & Hget & Hlen & Hqs).
  exists qs. split; [exact Hget|]. split; [exact Hlen|]. split; [exact Hqs|].
  unfold run_quiz_command. rewrite Hinfo.
  destruct (Storage.question_count info =? 0) eqn:E;
    [apply Nat.eqb_eq in E; contradiction|].
  rewrite Hget. cbn [lift].
  set (w1 := set_heap (heap w ++ [qs]) w).
  rewrite (bind_ok _ _ w qs w) by reflexivity.
  rewrite (bind_ok _ _ w (length (heap w)) w1) by reflexivity.
  rewrite (bind_ok _ _ w1 _ w1 (init_spec quiz_name (Storage.title info)
             (length (heap w)) w1 qs (list_lookup_middle _ _ _ _ eq_refl))).
  reflexivity.
Qed.

Lemma safe_run_quiz_command db quiz_name shuffle w :
  Storage.wf db ->
  match run_quiz_command db quiz_name shuffle w with
  | (Ok _, _) => True
  | (Raise e, w') => end_of_input e w'
  end.
Proof.
  intros Hwf.
  destruct (Storage.get_quiz_info quiz_name db) as [info|] eqn:Hinfo.
  - destruct (Nat.eq_dec (Storage.question_count info) 0) as [Hz|Hnz].
    + unfold run_quiz_command. rewrite Hinfo, Hz. exact I.
    + destruct (run_quiz_command_runs db quiz_name shuffle w info Hwf Hinfo Hnz)
        as (qs & _ & _ & Hqs & ->).
      set (self := mkQuiz _ _ _ _ _). set (w1 := set_heap _ _).
      pose proof (safe_run self shuffle w1 qs) as H.
      unfold bind. destruct (run self shuffle w1) as [[self'|e] w'].
      * exact I.
      * apply H; [|exact Hqs|reflexivity].
        apply list_lookup_middle. reflexivity.
  - unfold run_quiz_command. rewrite Hinfo. exact I.
Qed.

(** On a file that keeps the schema, [run_quiz_command] fails in one way
    only, whatever the quiz name, the shuffle flag and the lines typed:
    with [EOFError], when a line is asked for and none is left.  In
    particular the results never divide by zero. *)
Theorem run_quiz_command_fails_only_at_end_of_input db quiz_name shuffle w :
  Storage.wf db ->
  match run_quiz_command db quiz_name shuffle w with
  | (Ok _, _) => True
  | (Raise e, w') => e = EOFError /\ stdin w' = []
  end.
Proof. exact (safe_run_quiz_command db quiz_name shuffle w). Qed.

(** [run_quiz_command] asks nothing when there is nothing to ask: for a
    name that is not stored it prints that the quiz was not found, for a
    stored quiz without questions that it has none and how to add some;
    it reads no line. *)
Theorem run_quiz_command_nothing_to_ask db quiz_name shuffle w :
  Storage.wf db ->
  (Storage.quiz_exists quiz_name db = false ->
   run_quiz_command db quiz_name shuffle w =
     (Ok tt, io w (stdin w) [("Quiz '" +:+ quiz_name +:+ "' not found!") +:+ nl])) /\
  (Storage.quiz_exists quiz_name db = true ->
   Storage.get_quiz_questions quiz_name db = Ok [] ->
   run_quiz_command db quiz_name shuffle w =
     (Ok tt, io w (stdin w)
               [no_questions_message quiz_name +:+ nl;
                ("Use: python quiz.py --add " +:+ quiz_name) +:+ nl])).
Proof.
  intros Hwf. split.
  - intros He. apply StorageFacts.get_quiz_info_none in He.
    unfold run_quiz_command. rewrite He. reflexivity.
  - intros He Hget.
    destruct (Storage.get_quiz_info quiz_name db) as [info|] eqn:Hinfo.
    + destruct (StorageMore.stored_questions quiz_name db info Hwf Hinfo)
        as (qs & Hget' & Hlen & _).
      rewrite Hget in Hget'. injection Hget' as <-.
      unfold run_quiz_command. rewrite Hinfo, <- Hlen. cbn [length Nat.eqb].
      unfold bind, print, write, io, set_stdout.
      cbn [heap stdin stdout entropy drawn].
      rewrite <- app_assoc. reflexivity.
    + apply StorageFacts.get_quiz_info_none in Hinfo. congruence.
Qed.

(** A quiz with questions, run from the file: the questions asked are
    the stored ones, in the stored order unless shuffled; when the user
    answers some of them and then has answered all or quits, the command
    returns, the lines after those are left unread, and the output is
    the banner, each answered question with its choices, the prompts and
    the verdict, the question left with quit if there is one, and the
    results for the points of the answers out of the number of stored
    questions.  The lines typed are plain ASCII. *)
Theorem run_quiz_command_session db quiz_name shuffle w info answers tail rest
    junk line :
  Storage.wf db -> Storage.get_quiz_info quiz_name db = Some info ->
  Storage.question_count info <> 0 ->
  plain_lines (stdin w) ->
  Forall accepted answers ->
  stdin w = typed answers ++ tail ->
  (length answers = Storage.question_count info /\ tail = rest) \/
  (length answers < Storage.question_count info /\
   Forall (fun line => is_rejected line = true) junk /\
   tail = junk ++ line :: rest /\ is_quit line = true) ->
  exists qs order w',
    Storage.get_quiz_questions quiz_name db = Ok qs /\
    order ≡ₚ qs /\ (shuffle = false -> order = qs) /\
    run_quiz_command db quiz_name shuffle w = (Ok tt, w') /\
    stdin w' = rest /\
    stdout w' =
      stdout w ++
      banner (mkQuiz quiz_name (Storage.title info) (length (heap w)) 0
                     (Storage.question_count info)) ++
      transcript (Storage.question_count info) 1 order answers junk ++
      results (tally order answers) (Storage.question_count info) /\
    heap w' = heap w ++ [qs; order].
Proof.
  intros Hwf Hinfo Hnz _ Hacc Hin Hend.
  destruct (run_quiz_command_runs db quiz_name shuffle w info Hwf Hinfo Hnz)
    as (qs & Hget & Hlen & Hqs & Hrun).
  set (w1 := set_heap (heap w ++ [qs]) w) in *.
  destruct (run_session_says quiz_name (Storage.title info) (length (heap w))
              shuffle w1 qs answers tail rest junk line)
    as (order & Hperm & Hsame & Hsession).
  - apply list_lookup_middle. reflexivity.
  - intros ->. simpl in Hlen. congruence.
  - exact Hqs.
  - exact Hacc.
  - exact Hin.
  - rewrite Hlen. exact Hend.
  - exists qs, order. eexists.
    split; [exact Hget|]. split; [exact Hperm|]. split; [exact Hsame|].
    split; [rewrite Hrun; unfold bind at 1; rewrite Hsession; reflexivity|].
    rewrite <- Hlen. cbn [io asking stdin stdout heap w1 set_heap].
    split; [reflexivity|]. split.
    + rewrite <- !app_assoc. reflexivity.
    + rewrite <- app_assoc. reflexivity.
Qed.

(** ** The properties at concrete inputs *)

Lemma answers_ignore_case_and_padding_witness :
  let q := mkQuestion "Capital of Italy?" ["Paris"; "Rome"; "Oslo"; "Bern"] 1
                      "It is Rome." in
  let self := mkQuiz "geo" "Geography" 0 1 3 in
  well_formed q /\ all_space "  " = true /\ all_space " " = true /\
  _ask_question self 2 q (console ["  QuIt "; "x"]) =
    (Ok (false, self),
     io (console ["  QuIt "; "x"]) ["x"]
       [nl +:+ "Question 2/3:" +:+ nl;
        "Capital of Italy?" +:+ nl;
        "" +:+ nl;
        "  a) Paris" +:+ nl;
        "  b) Rome" +:+ nl;
        "  c) Oslo" +:+ nl;
        "  d) Bern" +:+ nl;
        nl +:+ "Your answer: "]) /\
  _ask_question self 2 q (console ["  A "; ""; "x"]) =
    (Ok (true, self),
     io (console ["  A "; ""; "x"]) ["x"]
       [nl +:+ "Question 2/3:" +:+ nl;
        "Capital of Italy?" +:+ nl;
        "" +:+ nl;
        "  a) Paris" +:+ nl;
        "  b) Rome" +:+ nl;
        "  c) Oslo" +:+ nl;
        "  d) Bern" +:+ nl;
        nl +:+ "Your answer: ";
        "✗ Wrong! The correct answer was b) Rome" +:+ nl;
        "Explanation: It is Rome." +:+ nl;
        nl +:+ "Press Enter to continue..."]).
Proof.
  intros q self.
  assert (Hq : well_formed q) by (split; [reflexivity|simpl; lia]).
  split; [exact Hq|]. split; [reflexivity|]. split; [reflexivity|]. split.
  - exact (proj1 (answers_ignore_case_and_padding self 2 q
                    (console ["  QuIt "; "x"]) "  " "QuIt" " " Hq eq_refl eq_refl)
                 eq_refl ["x"] eq_refl).
  - exact (proj2 (answers_ignore_case_and_padding self 2 q
                    (console ["  A "; ""; "x"]) "  " "A" " " Hq eq_refl eq_refl)
                 "a" (or_introl eq_refl) eq_refl "" ["x"] eq_refl).
Defined.

Lemma run_quiz_command_fails_only_at_end_of_input_witness :
  Storage.wf geo_quiz /\
  match run_quiz_command geo_quiz "geo" true (console ["a"]) with
  | (Ok _, _) => True
  | (Raise e, w') => e = EOFError /\ stdin w' = []
  end.
Proof.
  split; [exact StorageMore.geo_quiz_wf|].
  exact (run_quiz_command_fails_only_at_end_of_input geo_quiz "geo" true
           (console ["a"]) StorageMore.geo_quiz_wf).
Defined.

Lemma run_quiz_command_nothing_to_ask_witness :
  Storage.wf geo_quiz /\ Storage.quiz_exists "math" geo_quiz = false /\
  run_quiz_command geo_quiz "math" false (console ["a"]) =
    (Ok tt, io (console ["a"]) ["a"] [("Quiz '" +:+ "math" +:+ "' not found!") +:+ nl]).
Proof.
  split; [exact StorageMore.geo_quiz_wf|]. split; [reflexivity|].
  apply (run_quiz_command_nothing_to_ask geo_quiz "math" false (console ["a"])
           StorageMore.geo_quiz_wf).
  reflexivity.
Defined.

Lemma run_quiz_command_session_witness :
  let info := Storage.mkQuizInfo "geo" "Geography" (Some "") 3 in
  let w := console ["a"; ""; "e"; " C "; ""; "x"; " Quit "; "b"] in
  let answers := [mk_answer [] "a" ""; mk_answer ["e"] " C " ""] in
  Storage.wf geo_quiz /\ Storage.get_quiz_info "geo" geo_quiz = Some info /\
  plain_lines (stdin w) /\ Forall accepted answers /\
  exists w',
    run_quiz_command geo_quiz "geo" false w = (Ok tt, w') /\
    stdin w' = ["b"] /\
    heap w' = [geo_questions; geo_questions] /\
    stdout w' =
    [nl +:+ "============================================================" +:+ nl;
     "  Geography" +:+ nl;
     "============================================================" +:+ nl;
     "Total Questions: 3" +:+ nl;
     "Type the letter (a, b, c, d) for your answer" +:+ nl;
     "Type 'quit' to exit early" +:+ nl;
     "------------------------------------------------------------" +:+ nl;
     nl +:+ "Question 1/3:" +:+ nl;
     "Capital of France?" +:+ nl;
     "" +:+ nl;
     "  a) Paris" +:+ nl;
     "  b) Rome" +:+ nl;
     "  c) Oslo" +:+ nl;
     "  d) Bern" +:+ nl;
     nl +:+ "Your answer: ";
     "✓ Correct!" +:+ nl;
     nl +:+ "Press Enter to continue...";
     nl +:+ "Question 2/3:" +:+ nl;
     "Capital of Italy?" +:+ nl;
     "" +:+ nl;
     "  a) Paris" +:+ nl;
     "  b) Rome" +:+ nl;
     "  c) Oslo" +:+ nl;
     "  d) Bern" +:+ nl;
     nl +:+ "Your answer: ";
     "Please enter a valid letter (a, b, c, d) or 'quit'" +:+ nl;
     nl +:+ "Your answer: ";
     "✗ Wrong! The correct answer was b) Rome" +:+ nl;
     "Explanation: It is Rome." +:+ nl;
     nl +:+ "Press Enter to continue...";
     nl +:+ "Question 3/3:" +:+ nl;
     "Capital of Norway?" +:+ nl;
     "" +:+ nl;
     "  a) Paris" +:+ nl;
     "  b) Rome" +:+ nl;
     "  c) Oslo" +:+ nl;
     "  d) Bern" +:+ nl;
     nl +:+ "Your answer: ";
     "Please enter a valid letter (a, b, c, d) or 'quit'" +:+ nl;
     nl +:+ "Your answer: ";
     nl +:+ "============================================================" +:+ nl;
     "QUIZ RESULTS" +:+ nl;
     "============================================================" +:+ nl;
     "Score: 1/3 (33.3%)" +:+ nl;
     "💪 Practice makes perfect!" +:+ nl].
Proof.
  intros info w answers.
  assert (Hacc : Forall accepted answers) by (repeat constructor).
  assert (Hplain : plain_lines (stdin w)) by (repeat constructor).
  split; [exact StorageMore.geo_quiz_wf|]. split; [reflexivity|].
  split; [exact Hplain|]. split; [exact Hacc|].
  destruct (run_quiz_command_session geo_quiz "geo" false w info answers
              ["x"; " Quit "; "b"] ["b"] ["x"] " Quit "
              StorageMore.geo_quiz_wf eq_refl)
    as (qs & order & w' & Hget & _ & Hsame & Hrun & Hin & Hout & Hheap).
  - discriminate.
  - exact Hplain.
  - exact Hacc.
  - reflexivity.
  - right. split; [simpl; lia|]. split; [repeat constructor|].
    split; reflexivity.
  - assert (Hqs : qs = geo_questions).
    { assert (H : @Ok (list Question) qs = Ok geo_questions)
        by (rewrite <- Hget; reflexivity).
      injection H as H. exact H. }
    assert (Horder : order = geo_questions)
      by (rewrite (Hsame eq_refl); exact Hqs).
    exists w'. split; [exact Hrun|]. split; [exact Hin|].
    rewrite Hheap, Hout, Horder, Hqs. split; [reflexivity|].
    vm_compute. reflexivity.
Defined.

End RuntimeMore.

(* ===================================================================== *)
(** * The command line *)

Module CliFacts.
Import Storage StorageFacts Cli.
Local Open Scope nat_scope.
Local Open Scope cli_scope.

(** ** Rules for the commands *)

Lemma cmd_bind {A B} Pre (m : P A) Q (k : A -> P B) R X :
  hoare Pre m Q X -> (forall a, hoare (Q a) (k a) R X) ->
  hoare Pre (bind m k) R X.
Proof.
  intros Hm Hk s Hs. specialize (Hm s Hs). unfold bind.
  destruct (m s) as [[a|e] s1]; [exact (Hk a s1 Hm)|exact Hm].
Qed.

Lemma cmd_ret {A} (Pre : system -> Prop) (a : A) (R : A -> system -> Prop) X :
  (forall s, Pre s -> R a s) -> hoare Pre (ret a) R X.
Proof. intros H s Hs. exact (H s Hs). Qed.

Lemma cmd_raise {A} (Pre : system -> Prop) e (R : A -> system -> Prop)
    (X : exn -> system -> Prop) :
  (forall s, Pre s -> X e s) -> hoare Pre (raise e) R X.
Proof. intros H s Hs. exact (H s Hs). Qed.

Lemma cmd_pre {A} (Pre Pre' : system -> Prop) (m : P A) R X :
  (forall s, Pre' s -> Pre s) -> hoare Pre m R X -> hoare Pre' m R X.
Proof. intros H Hm s Hs. exact (Hm s (H s Hs)). Qed.

Lemma cmd_assume {A} (fact : Prop) (Pre : system -> Prop) (m : P A) R X :
  (fact -> hoare Pre m R X) -> hoare (fun s => fact /\ Pre s) m R X.
Proof. intros H s [Hf Hs]. exact (H Hf s Hs). Qed.

Lemma ready_le n m F s : n <= m -> ready n F s -> ready m F s.
Proof. unfold ready. intros Hnm [Hn HF]. split; [lia|exact HF]. Qed.

Lemma ready_file n (F G : database -> Prop) s :
  (forall db, F db -> G db) -> ready n F s -> ready n G s.
Proof. unfold ready. intros H [Hn HF]. auto. Qed.

Lemma cmd_bind_ret {A B} Pre (a : A) (k : A -> P B) R X :
  hoare Pre (k a) R X -> hoare Pre (bind (ret a) k) R X.
Proof. intros H s Hs. exact (H s Hs). Qed.

Lemma cmd_bind_print {B} n F line (k : unit -> P B) R X :
  hoare (ready n F) (k tt) R X ->
  hoare (ready n F) (bind (print line) k) R X.
Proof.
  intros H s Hs. unfold bind at 1. unfold print, on_console, Runtime.print,
    Runtime.write. apply H. exact Hs.
Qed.

Lemma cmd_bind_input {B} n F prompt (k : string -> P B) R
    (X : exn -> system -> Prop) :
  (forall s, Runtime.stdin (console s) = [] -> F (file s) -> X EOFError s) ->
  (forall line n', n = S n' -> hoare (ready n' F) (k line) R X) ->
  hoare (ready n F) (bind (input prompt) k) R X.
Proof.
  intros HX H s [Hn HF]. unfold bind at 1.
  unfold input, on_console, Runtime.input, Runtime.bind, Runtime.write,
    Runtime.read_line.
  cbn [Runtime.stdin Runtime.set_stdout].
  destruct (Runtime.stdin (console s)) as [|line rest] eqn:Hin.
  - apply HX; [exact Hin|exact HF].
  - destruct n as [|n']; [simpl in Hn; lia|].
    apply (H line n' eq_refl). split; [simpl in *; lia|exact HF].
Qed.

Lemma cmd_bind_query {A B} n (F : database -> Prop) (f : database -> A)
    (k : A -> P B) R X :
  (forall db, F db -> hoare (ready n (fun d => d = db /\ F d)) (k (f db)) R X) ->
  hoare (ready n F) (bind (query f) k) R X.
Proof.
  intros H s [Hn HF]. unfold bind at 1. unfold query.
  apply (H (file s) HF). split; [exact Hn|split; [reflexivity|exact HF]].
Qed.

Lemma cmd_bind_update {A B} n (F : database -> Prop)
    (F' : A -> database -> Prop) (f : database -> A * database)
    (k : A -> P B) R X :
  (forall db, F db -> F' (f db).1 (f db).2) ->
  (forall a, hoare (ready n (F' a)) (k a) R X) ->
  hoare (ready n F) (bind (update f) k) R X.
Proof.
  intros Hf H s [Hn HF]. unfold bind at 1. unfold update.
  specialize (Hf (file s) HF). destruct (f (file s)) as [a db].
  apply (H a). split; [exact Hn|exact Hf].
Qed.

Lemma cmd_bind_insert {A B} n (F : database -> Prop)
    (F' : result A -> database -> Prop)
    (f : timestamp -> database -> result A * database)
    (k : result A -> P B) R X :
  (forall now db, F db -> F' (f now db).1 (f now db).2) ->
  (forall r, hoare (ready n (F' r)) (k r) R X) ->
  hoare (ready n F) (bind (try (insert f)) k) R X.
Proof.
  intros Hf H s [Hn HF]. unfold bind at 1. unfold try, insert.
  specialize (Hf (clock s (ticks s)) (file s) HF).
  destruct (f (clock s (ticks s)) (file s)) as [r db].
  apply (H r). split; [exact Hn|exact Hf].
Qed.

(** A computation of the runtime leaves the file alone. *)
Lemma cmd_on_console {A} n (F : database -> Prop) (m : Runtime.M A) :
  hoare (ready n F) (on_console m) (fun _ s => F (file s)) (failed F).
Proof.
  intros s [_ HF]. unfold on_console.
  destruct (m (console s)) as [[a|e] w]; exact HF.
Qed.

Lemma cmd_run_quiz n (F : database -> Prop) quiz_name shuffle :
  (forall db, F db -> wf db) ->
  hoare (ready n F) (run_quiz quiz_name shuffle) (fun _ s => F (file s))
        (stopped F).
Proof.
  intros HF s [_ Hs]. unfold run_quiz, on_console.
  pose proof (RuntimeMore.safe_run_quiz_command (file s) quiz_name shuffle
                (console s) (HF _ Hs)) as H.
  destruct (run_quiz_command (file s) quiz_name shuffle (console s))
    as [[a|e] w]; [exact Hs|].
  destruct H as [-> Hin]. split; [reflexivity|]. split; [exact Hin|exact Hs].
Qed.

Lemma stopped_from (F G : database -> Prop) :
  (forall db, G db -> F db) ->
  forall s, Runtime.stdin (console s) = [] -> G (file s) -> stopped F EOFError s.
Proof. intros H s Hin HG. split; [reflexivity|]. split; [exact Hin|auto]. Qed.

Lemma failed_from (F G : database -> Prop) e :
  (forall db, G db -> F db) ->
  forall s, Runtime.stdin (console s) = [] -> G (file s) -> failed F e s.
Proof. intros H s _ HG. exact (H _ HG). Qed.

(** ** [create_quiz_command] *)

Lemma create_quiz_outcome now name title description db :
  (exists id, (create_quiz now name title description db).1 = Ok id) \/
  (create_quiz now name title description db).1 = Raise (DuplicateNameError name).
Proof.
  destruct (quiz_exists name db) eqn:He.
  - right. rewrite create_quiz_on_existing by exact He. reflexivity.
  - left. rewrite create_quiz_on_fresh by exact He. eexists. reflexivity.
Qed.

Lemma safe_create_quiz_command n name (F : database -> Prop) :
  (forall now title description db,
     F db -> F (create_quiz now name title description db).2) ->
  hoare (ready n F) (create_quiz_command name) (fun _ s => ready n F s)
        (stopped F).
Proof.
  intros HF. unfold create_quiz_command. do 2 apply cmd_bind_print.
  apply cmd_bind_input; [apply stopped_from; auto|]. intros line1 n1 ->.
  cbv zeta.
  apply cmd_bind_input; [apply stopped_from; auto|]. intros line2 n2 ->.
  apply cmd_bind_insert with
    (F' := fun r db =>
             ((exists id, r = Ok id) \/ r = Raise (DuplicateNameError name)) /\ F db).
  - intros now db Hdb. split; [apply create_quiz_outcome|apply HF, Hdb].
  - intros r.
    apply cmd_pre with
      (Pre := fun s => ((exists id, r = Ok id) \/ r = Raise (DuplicateNameError name))
                       /\ ready n2 F s).
    { intros s [Hn [Hr Hs]]. split; [exact Hr|split; assumption]. }
    apply cmd_assume. intros [[id ->]| ->].
    + apply cmd_bind_print. apply cmd_ret. intros s Hs.
      eapply ready_le; [|exact Hs]. lia.
    + unfold DuplicateNameError. apply cmd_bind_print. apply cmd_ret.
      intros s Hs. eapply ready_le; [|exact Hs]. lia.
Qed.

(** ** [add_questions_command] *)

Lemma safe_read_choices (F : database -> Prop) X remaining :
  (forall s, Runtime.stdin (console s) = [] -> F (file s) -> X EOFError s) ->
  forall n i choices,
    (0 <= i)%Z -> (i + Z.of_nat remaining <= 4)%Z ->
    Forall (fun c => c <> "") choices ->
    hoare (ready n F) (read_choices remaining i choices)
          (fun cs s => Forall (fun c => c <> "") cs /\ ready n F s) X.
Proof.
  intros HX. induction remaining as [|remaining IH]; intros n i choices Hi Hr Hch.
  - apply cmd_ret. auto.
  - cbn [read_choices]. rewrite RuntimeFacts.chr_in_range by lia. cbn [lift].
    apply cmd_bind_ret. apply cmd_bind_input; [exact HX|].
    intros line n' ->. cbv zeta.
    destruct (String.eqb (strip line) "") eqn:E.
    + apply cmd_bind_print. apply cmd_ret. intros s Hs.
      split; [exact Hch|]. eapply ready_le; [|exact Hs]. lia.
    + apply String.eqb_neq in E.
      eapply RuntimeMore.hoare_weaken_post; [apply (IH n' (i + 1)%Z (choices ++ [strip line]))|].
      * lia.
      * lia.
      * apply Forall_app. split; [exact Hch|]. repeat constructor. exact E.
      * intros cs s [Hcs Hs]. split; [exact Hcs|].
        eapply ready_le; [|exact Hs]. lia.
Qed.

Lemma read_correct_eq pending :
  read_correct pending =
  (line <- input "Correct answer (a, b, c, d): " ;;
   if check_correct_answer (lower (strip line)) then ret (lower (strip line))
   else
     print "Please enter a, b, c, or d" ;;
     match pending with
     | [] => raise EOFError
     | _ :: pending' => read_correct pending'
     end).
Proof. destruct pending; reflexivity. Qed.

Lemma safe_read_correct (F : database -> Prop) X :
  (forall s, Runtime.stdin (console s) = [] -> F (file s) -> X EOFError s) ->
  forall pending,
    hoare (ready (length pending) F) (read_correct pending)
          (fun c s => check_correct_answer c = true /\ ready (length pending) F s)
          X.
Proof.
  intros HX pending. induction pending as [|first pending IH];
    rewrite read_correct_eq; (apply cmd_bind_input; [exact HX|]);
    intros line n' Hn; [discriminate|]. injection Hn as <-.
  destruct (check_correct_answer (lower (strip line))) eqn:E.
  - apply cmd_ret. intros s Hs. split; [exact E|].
    eapply ready_le; [|exact Hs]. simpl. lia.
  - apply cmd_bind_print.
    eapply RuntimeMore.hoare_weaken_post; [exact IH|].
    intros c s [Hc Hs]. split; [exact Hc|].
    eapply ready_le; [|exact Hs]. simpl. lia.
Qed.

Lemma safe_read_correct_here n (F : database -> Prop) X :
  (forall s, Runtime.stdin (console s) = [] -> F (file s) -> X EOFError s) ->
  hoare (ready n F) (fun s => read_correct (Runtime.stdin (console s)) s)
        (fun c s => check_correct_answer c = true /\ ready n F s) X.
Proof.
  intros HX s [Hn HF].
  pose proof (safe_read_correct F X HX (Runtime.stdin (console s)) s
                (conj (le_n _) HF)) as H.
  destruct (read_correct (Runtime.stdin (console s)) s) as [[c|e] s'];
    [|exact H].
  destruct H as [Hc Hs]. split; [exact Hc|]. eapply ready_le; [|exact Hs]. exact Hn.
Qed.

Lemma add_loop_head quiz_name pending question_num :
  exists k,
    add_loop quiz_name pending question_num =
    (print (nl +:+ "--- Question " +:+ str question_num +:+ " ---") ;;
     question_line <- input "Question: " ;; k question_line).
Proof. destruct pending; eexists; reflexivity. Qed.

Lemma add_loop_eq quiz_name first pending question_num :
  add_loop quiz_name (first :: pending) question_num =
  (print (nl +:+ "--- Question " +:+ str question_num +:+ " ---") ;;
   question_line <- input "Question: " ;;
   if String.eqb (strip question_line) "" then
     print "Question cannot be empty!" ;;
     add_loop quiz_name pending question_num
   else
     choices <- read_choices 4 0 [] ;;
     if negb (length choices =? 4) then add_loop quiz_name pending question_num
     else
       correct <- (fun s => read_correct (Runtime.stdin (console s)) s) ;;
       explanation_line <- input "Explanation (optional): " ;;
       r <- try (insert (fun now =>
                   add_question now quiz_name (strip question_line) choices
                                correct (strip explanation_line))) ;;
       match r with
       | Raise e =>
         print ("Error adding question: " +:+ str_exn e) ;;
         add_loop quiz_name pending question_num
       | Ok _ =>
         print "✓ Question added!" ;;
         more <- input (nl +:+ "Add another question? (y/n): ") ;;
         if negb (String.eqb (lower (strip more)) "y") then ret tt
         else add_loop quiz_name pending (question_num + 1)
       end).
Proof. reflexivity. Qed.

(** The loop keeps an invariant [F] of the file that every call of
    [add_question] with a text, four choices that are not blank and a
    label among a, b, c, d keeps; it ends only after a call that
    succeeded, which established [G]. *)
Lemma add_loop_inv quiz_name (F G : database -> Prop) :
  (forall db, G db -> F db) ->
  (forall now text choices correct explanation db,
     text <> "" -> length choices = 4 -> Forall (fun c => c <> "") choices ->
     check_correct_answer correct = true -> F db ->
     F (add_question now quiz_name text choices correct explanation db).2 /\
     ((add_question now quiz_name text choices correct explanation db).1 = Ok tt ->
      G (add_question now quiz_name text choices correct explanation db).2)) ->
  forall pending question_num,
    hoare (ready (length pending) F) (add_loop quiz_name pending question_num)
          (fun _ s => G (file s)) (stopped F).
Proof.
  intros HG Hadd pending. induction pending as [|first pending IH];
    intros question_num.
  { destruct (add_loop_head quiz_name [] question_num) as [k ->].
    apply cmd_bind_print. apply cmd_bind_input; [apply stopped_from; auto|].
    intros line n' Hn. discriminate. }
  assert (Hagain : forall n G' num,
            n <= length pending -> (forall db, G' db -> F db) ->
            hoare (ready n G') (add_loop quiz_name pending num)
                  (fun _ s => G (file s)) (stopped F)).
  { intros n G' num Hn HG'. eapply cmd_pre; [|exact (IH num)].
    intros s Hs. eapply ready_le; [exact Hn|].
    eapply ready_file; [exact HG'|exact Hs]. }
  rewrite add_loop_eq. apply cmd_bind_print.
  apply cmd_bind_input; [apply stopped_from; auto|].
  intros question_line n' Hn. injection Hn as <-.
  destruct (String.eqb (strip question_line) "") eqn:Htext.
  { apply cmd_bind_print. apply Hagain; auto. }
  apply String.eqb_neq in Htext.
  eapply cmd_bind.
  { apply (safe_read_choices F (stopped F) 4 (stopped_from F F (fun _ H => H))
             (length pending) 0%Z []); [lia|lia|constructor]. }
  intros choices. cbv beta. apply cmd_assume. intros Hchoices.
  destruct (length choices =? 4) eqn:Hlen; cbn [negb];
    [|apply Hagain; auto].
  apply Nat.eqb_eq in Hlen.
  eapply cmd_bind.
  { apply safe_read_correct_here. apply stopped_from. auto. }
  intros correct. cbv beta. apply cmd_assume. intros Hcorrect.
  apply cmd_bind_input; [apply stopped_from; auto|].
  intros explanation_line n1 Hn1.
  apply cmd_bind_insert with
    (F' := fun r db => F db /\ (r = Ok tt -> G db)).
  { intros now db Hdb. apply Hadd; assumption. }
  intros [[]|e].
  - apply cmd_pre with (Pre := ready n1 G).
    { intros s [Hn [_ Hs]]. split; [exact Hn|auto]. }
    apply cmd_bind_print.
    apply cmd_bind_input; [apply stopped_from; auto|].
    intros more n2 Hn2.
    destruct (String.eqb (lower (strip more)) "y"); cbn [negb].
    + apply Hagain; [lia|exact HG].
    + apply cmd_ret. intros s [_ Hs]. exact Hs.
  - apply cmd_bind_print. apply Hagain; [lia|]. intros db [Hdb _]. exact Hdb.
Qed.

Lemma add_question_keeps_quizzes now quiz_name text choices correct explanation db :
  quizzes (add_question now quiz_name text choices correct explanation db).2
  = quizzes db.
Proof.
  destruct (add_question _ _ _ _ _ _ _) as [r db'] eqn:E. simpl.
  apply add_question_inv in E as [->|(row & -> & _)]; reflexivity.
Qed.

Lemma get_quiz_info_same_quizzes name db db' :
  quizzes db' = quizzes db ->
  get_quiz_info name db = None <-> get_quiz_info name db' = None.
Proof.
  intros Hq. rewrite !get_quiz_info_none. unfold quiz_exists. rewrite Hq.
  reflexivity.
Qed.

(** The command as a whole: the quizzes table is never touched; an
    invariant [I] of the file that clean calls of [add_question] keep
    holds at the end; and on a stored quiz the command returns only after
    a call that succeeded. *)
Lemma safe_add_questions_command quiz_name db0 (I J : database -> Prop) n :
  (forall db, J db -> I db) -> I db0 ->
  (forall now text choices correct explanation db,
     text <> "" -> length choices = 4 -> Forall (fun c => c <> "") choices ->
     check_correct_answer correct = true ->
     quizzes db = quizzes db0 -> I db ->
     I (add_question now quiz_name text choices correct explanation db).2 /\
     ((add_question now quiz_name text choices correct explanation db).1 = Ok tt ->
      J (add_question now quiz_name text choices correct explanation db).2)) ->
  hoare (ready n (fun db => db = db0)) (add_questions_command quiz_name)
        (fun _ s => quizzes (file s) = quizzes db0 /\ I (file s) /\
                    (quiz_exists quiz_name db0 = true -> J (file s)))
        (stopped (fun db => quizzes db = quizzes db0 /\ I db)).
Proof.
  intros HJ HI Hadd. unfold add_questions_command.
  set (F := fun db => quizzes db = quizzes db0 /\ I db).
  set (G := fun db => quizzes db = quizzes db0 /\ J db).
  assert (H0 : forall db, db = db0 -> F db) by (intros db ->; split; auto).
  apply cmd_pre with (Pre := ready n (fun db => db = db0)); [auto|].
  apply cmd_bind_query. intros db ->.
  apply cmd_pre with (Pre := ready n F).
  { intros s Hs. eapply ready_file; [|exact Hs]. intros db [-> _]. auto. }
  destruct (get_quiz_info quiz_name db0) as [quiz_info|] eqn:Hinfo.
  - do 3 apply cmd_bind_print.
    apply cmd_bind with (Q := fun _ s => ready 0 G s \/ G (file s)).
    { intros s Hs.
      pose proof (add_loop_inv quiz_name F G) as Hloop.
      specialize (Hloop (fun db '(conj Hq Hj) => conj Hq (HJ db Hj))).
      assert (Hstep : forall now text choices correct explanation db,
        text <> "" -> length choices = 4 -> Forall (fun c => c <> "") choices ->
        check_correct_answer correct = true -> F db ->
        F (add_question now quiz_name text choices correct explanation db).2 /\
        ((add_question now quiz_name text choices correct explanation db).1 = Ok tt ->
         G (add_question now quiz_name text choices correct explanation db).2)).
      { intros now text choices correct explanation db Ht Hl Hc Hk [Hq Hdb].
        destruct (Hadd now text choices correct explanation db Ht Hl Hc Hk Hq Hdb)
          as [H1 H2].
        unfold F, G. rewrite add_question_keeps_quizzes. auto. }
      specialize (Hloop Hstep (Runtime.stdin (console s))
                    (question_count quiz_info + 1) s
                    (conj (le_n _) (proj2 Hs))).
      destruct (add_loop _ _ _ s) as [[[]|e] s']; [right; exact Hloop|exact Hloop]. }
    intros _.
    apply cmd_pre with (Pre := fun s => G (file s)).
    { intros s [[_ Hs]|Hs]; exact Hs. }
    intros s [Hq Hj]. unfold bind, query.
    destruct (get_quiz_info quiz_name (file s)) as [updated_info|] eqn:Hup.
    + unfold print, on_console, Runtime.print, Runtime.write. cbn.
      split; [exact Hq|]. split; [apply HJ, Hj|]. intros _. exact Hj.
    + apply (get_quiz_info_same_quizzes quiz_name db0 (file s) Hq) in Hup.
      congruence.
  - apply cmd_bind_print. intros s [_ [Hq Hi]].
    unfold print, on_console, Runtime.print, Runtime.write. cbn.
    split; [exact Hq|]. split; [exact Hi|].
    apply get_quiz_info_none in Hinfo. congruence.
Qed.

(** Whatever is typed, [add_questions_command] leaves the quizzes table
    as it was and only appends to the questions table, and every row it
    appends is owned by the named quiz and has a text, four choices that
    are not blank and the label of one of them.  On a stored quiz it
    returns only after it appended a row.  It fails in one way only: with
    [EOFError], when a line is asked for and none is left. *)
Theorem add_questions_command_adds_clean_questions quiz_name s :
  let (r, s') := add_questions_command quiz_name s in
  quizzes (file s') = quizzes (file s) /\
  (exists added,
     questions (file s') = questions (file s) ++ added /\
     Forall (clean_row quiz_name (file s)) added /\
     (r = Ok tt -> quiz_exists quiz_name (file s) = true -> added <> [])) /\
  (forall e, r = Raise e -> e = EOFError /\ Runtime.stdin (console s') = []).
Proof.
  set (db0 := file s).
  set (I := fun db => exists added,
              questions db = questions db0 ++ added /\
              Forall (clean_row quiz_name db0) added).
  set (J := fun db => exists added,
              questions db = questions db0 ++ added /\
              Forall (clean_row quiz_name db0) added /\ added <> []).
  pose proof (safe_add_questions_command quiz_name db0 I J
                (length (Runtime.stdin (console s)))) as H.
  assert (HJ : forall db, J db -> I db).
  { intros db (added & Hq & Hc & _). exists added. auto. }
  assert (HI : I db0).
  { exists []. rewrite app_nil_r. split; [reflexivity|constructor]. }
  specialize (H HJ HI).
  assert (Hadd : forall now text choices correct explanation db,
     text <> "" -> length choices = 4 -> Forall (fun c => c <> "") choices ->
     check_correct_answer correct = true ->
     quizzes db = quizzes db0 -> I db ->
     I (add_question now quiz_name text choices correct explanation db).2 /\
     ((add_question now quiz_name text choices correct explanation db).1 = Ok tt ->
      J (add_question now quiz_name text choices correct explanation db).2)).
  { intros now text choices correct explanation db Ht Hl Hc Hk Hq (added & Ha & Hclean).
    destruct (select_quiz_id quiz_name (connect db)) as [id|] eqn:Hs.
    - destruct (four_choices choices Hl) as (a & b & c & d & ->).
      rewrite (add_question_on_valid now quiz_name text a b c d correct
                 explanation db id Hs Hk).
      cbn [fst snd questions].
      assert (Hrow : Forall (clean_row quiz_name db0)
                (added ++ [mk_question_row
                             (next_rowid q_id (questions db) (seq_questions db))
                             id text a b c d correct (Some explanation) now])).
      { apply Forall_app. split; [exact Hclean|]. repeat constructor; cbn.
        - unfold select_quiz_id, connect, connect_with in *. cbn in *.
          rewrite <- Hq. exact Hs.
        - exact Ht.
        - apply Forall_cons in Hc as [Hc _]. exact Hc.
        - apply Forall_cons in Hc as [_ [Hc _]%Forall_cons]. exact Hc.
        - apply Forall_cons in Hc as [_ [_ [Hc _]%Forall_cons]%Forall_cons].
          exact Hc.
        - apply Forall_cons in Hc
            as [_ [_ [_ [Hc _]%Forall_cons]%Forall_cons]%Forall_cons].
          exact Hc.
        - exact Hk. }
      split.
      + eexists. split; [|exact Hrow]. rewrite Ha, <- app_assoc. reflexivity.
      + intros _. eexists. split; [|split; [exact Hrow|]].
        * rewrite Ha, <- app_assoc. reflexivity.
        * intros Hnil. apply app_eq_nil in Hnil as [_ Hnil]. discriminate.
    - apply select_quiz_id_none in Hs.
      rewrite add_question_on_missing by exact Hs. cbn [fst snd].
      split; [exists added; auto|discriminate]. }
  specialize (H Hadd s (conj (le_n _) eq_refl)).
  destruct (add_questions_command quiz_name s) as [[[]|e] s'].
  - destruct H as (Hq & (added & Ha & Hc) & Hj). split; [exact Hq|]. split.
    + destruct (quiz_exists quiz_name db0) eqn:He.
      * destruct (Hj eq_refl) as (added' & Ha' & Hc' & Hne).
        exists added'. auto.
      * exists added. split; [exact Ha|]. split; [exact Hc|]. discriminate.
    + discriminate.
  - destruct H as (-> & Hin & Hq & (added & Ha & Hc)). split; [exact Hq|]. split.
    + exists added. split; [exact Ha|]. split; [exact Hc|]. discriminate.
    + intros e' [= <-]. auto.
Qed.

(** ** [list_quizzes_command] and the menu *)

Lemma list_quizzes_described db :
  Forall (fun qz => qz_description qz <> None) (quizzes db) ->
  Forall (fun row => description row <> None) (list_quizzes db).
Proof.
  intros H. unfold list_quizzes, connect, connect_with. cbn.
  rewrite order_by_perm. rewrite Forall_fmap.
  eapply Forall_impl; [exact H|]. intros qz Hqz. exact Hqz.
Qed.

Lemma safe_print_rows n (F : database -> Prop) X rows :
  Forall (fun row => description row <> None) rows ->
  hoare (ready n F) (print_rows rows) (fun _ s => ready n F s) X.
Proof.
  induction 1 as [|row rows Hrow _ IH]; cbn [print_rows].
  - apply cmd_ret. auto.
  - destruct (description row) as [d|]; [|contradiction].
    cbn [shorten lift]. apply cmd_bind_ret. apply cmd_bind_print. exact IH.
Qed.

Lemma safe_list_quizzes_command n (F : database -> Prop) X :
  (forall db, F db -> Forall (fun qz => qz_description qz <> None) (quizzes db)) ->
  hoare (ready n F) list_quizzes_command (fun _ s => F (file s)) X.
Proof.
  intros HF. unfold list_quizzes_command. apply cmd_bind_query.
  intros db Hdb. pose proof (list_quizzes_described db (HF db Hdb)) as Hrows.
  destruct (list_quizzes db) as [|row rows].
  - apply cmd_bind_print. intros s [_ [_ Hs]].
    unfold print, on_console, Runtime.print, Runtime.write. cbn. exact Hs.
  - do 2 apply cmd_bind_print.
    eapply RuntimeMore.hoare_weaken_post; [apply safe_print_rows, Hrows|].
    intros _ s [_ [_ Hs]]. exact Hs.
Qed.

Lemma safe_print_menu n (F : database -> Prop) X rows : forall i,
  hoare (ready n F) (print_menu i rows) (fun _ s => ready n F s) X.
Proof.
  induction rows as [|row rows IH]; intros i; cbn [print_menu].
  - apply cmd_ret. auto.
  - apply cmd_bind_print. apply IH.
Qed.

Lemma select_loop_eq rows pending :
  select_loop rows pending =
  (line <- input (nl +:+ "Select quiz (1-" +:+ str (length rows) +:+ "): ") ;;
   if isdigit (strip line) && (1 <=? int (strip line))
      && (int (strip line) <=? length rows)
   then
     match rows !! (int (strip line) - 1) with
     | Some selected => run_quiz (name selected) false
     | None => raise IndexError
     end
   else
     print "Invalid selection!" ;;
     match pending with
     | [] => raise EOFError
     | _ :: pending' => select_loop rows pending'
     end).
Proof. destruct pending; reflexivity. Qed.

(** A selection the loop accepts names a row of the menu. *)
Lemma selection_in_range (rows : Datatypes.list QuizInfo) choice :
  isdigit choice && (1 <=? int choice) && (int choice <=? length rows) = true ->
  exists selected, rows !! (int choice - 1) = Some selected.
Proof.
  intros [[_ H1%Nat.leb_le]%andb_true_iff H2%Nat.leb_le]%andb_true_iff.
  apply lookup_lt_is_Some_2. lia.
Qed.

Lemma safe_select_loop (F : database -> Prop) rows :
  (forall db, F db -> wf db) ->
  forall pending,
    hoare (ready (length pending) F) (select_loop rows pending)
          (fun _ s => F (file s)) (stopped F).
Proof.
  intros HF pending. induction pending as [|first pending IH];
    rewrite select_loop_eq;
    (apply cmd_bind_input; [apply stopped_from; auto|]);
    intros line n' Hn; [discriminate|]. injection Hn as <-.
  destruct (isdigit (strip line) && (1 <=? int (strip line))
            && (int (strip line) <=? length rows)) eqn:Hc.
  - destruct (selection_in_range rows _ Hc) as [selected ->].
    apply cmd_run_quiz, HF.
  - apply cmd_bind_print. exact IH.
Qed.

(** ** [main] *)

Lemma cmd_fix_file {A} n (F : database -> Prop) (m : P A) R X :
  (forall db0, F db0 -> hoare (ready n (fun db => db = db0)) m R X) ->
  hoare (ready n F) m R X.
Proof.
  intros H s [Hn HF]. apply (H (file s) HF). split; [exact Hn|reflexivity].
Qed.

Lemma safe_main args n :
  hoare (ready n reachable) (main args) (fun _ s => reachable (file s))
        (stopped reachable).
Proof.
  unfold main.
  apply cmd_bind_update with (F' := fun _ db => reachable db); [auto|].
  intros [].
  destruct (given (create args)) as [quiz_name|].
  { eapply cmd_bind.
    - apply safe_create_quiz_command. intros now title description db.
      apply reach_create.
    - intros [|].
      + intros s [_ Hs].
        unfold print, on_console, Runtime.print, Runtime.write. cbn. exact Hs.
      + apply cmd_ret. intros s [_ Hs]. exact Hs. }
  destruct (given (add args)) as [quiz_name|].
  { apply cmd_fix_file. intros db0 Hdb0.
    eapply RuntimeMore.hoare_weaken;
      [apply (safe_add_questions_command quiz_name db0 reachable reachable n)
      |auto| |].
    - auto.
    - exact Hdb0.
    - intros now text choices correct explanation db _ _ _ _ _ Hdb.
      split; [|intros _]; apply reach_add, Hdb.
    - intros _ s (_ & Hs & _). exact Hs.
    - intros e s (He & Hin & _ & Hs). split; [exact He|]. split; assumption. }
  destruct (list args).
  { apply safe_list_quizzes_command. apply StorageMore.described_reachable. }
  destruct (given (delete args)) as [quiz_name|].
  { apply cmd_bind_update with (F' := fun _ db => reachable db).
    - intros db Hdb. apply reach_delete, Hdb.
    - intros deleted s [_ Hs].
      unfold print, on_console, Runtime.print, Runtime.write.
      destruct deleted; cbn; exact Hs. }
  destruct (given (info args)) as [quiz_name|].
  { apply cmd_bind_query. intros db Hdb.
    destruct (get_quiz_info quiz_name db) as [quiz_info|].
    - do 3 apply cmd_bind_print. intros s [_ [_ Hs]].
      unfold print, on_console, Runtime.print, Runtime.write. cbn. exact Hs.
    - intros s [_ [_ Hs]].
      unfold print, on_console, Runtime.print, Runtime.write. cbn. exact Hs. }
  destruct (given (quiz args)) as [quiz_name|].
  { apply cmd_run_quiz. apply reachable_wf. }
  apply cmd_bind_query. intros db Hdb.
  apply cmd_pre with (Pre := ready n reachable).
  { intros s Hs. eapply ready_file; [|exact Hs]. intros d [_ Hd]. exact Hd. }
  destruct (list_quizzes db) as [|row rows].
  - apply cmd_bind_print. intros s [_ Hs].
    unfold print, on_console, Runtime.print, Runtime.write. cbn. exact Hs.
  - apply cmd_bind_print.
    eapply cmd_bind; [apply safe_print_menu|].
    intros _ s Hs.
    apply (safe_select_loop reachable (row :: rows) reachable_wf
             (Runtime.stdin (console s)) s).
    split; [apply le_n|exact (proj2 Hs)].
Qed.

(** Whatever the options and whatever plain ASCII lines are typed,
    [main] turns a file this program can produce into another such file,
    and fails in one way only: with [EOFError], when a line is asked for
    and none is left. *)
Theorem main_keeps_files_reachable args s :
  reachable (file s) -> plain_lines (Runtime.stdin (console s)) ->
  match main args s with
  | (Ok _, s') => reachable (file s')
  | (Raise e, s') =>
    e = EOFError /\ Runtime.stdin (console s') = [] /\ reachable (file s')
  end.
Proof.
  intros Hs _.
  exact (safe_main args (length (Runtime.stdin (console s))) s (conj (le_n _) Hs)).
Qed.

(** ** Commands that only read the file *)

Lemma cmd_bind_raise {A B} (Pre : system -> Prop) e (k : A -> P B) R
    (X : exn -> system -> Prop) :
  (forall s, Pre s -> X e s) -> hoare Pre (bind (raise e) k) R X.
Proof. intros H s Hs. exact (H s Hs). Qed.

Lemma cmd_print n (F : database -> Prop) line X :
  hoare (ready n F) (print line) (fun _ s => F (file s)) X.
Proof. intros s [_ Hs]. exact Hs. Qed.

Lemma quiet_run_quiz n (F : database -> Prop) quiz_name shuffle :
  hoare (ready n F) (run_quiz quiz_name shuffle) (fun _ s => F (file s))
        (failed F).
Proof.
  intros s [_ Hs]. unfold run_quiz, on_console.
  destruct (run_quiz_command _ _ _ _) as [[a|e] w]; exact Hs.
Qed.

Lemma quiet_print_rows n (F : database -> Prop) rows :
  hoare (ready n F) (print_rows rows) (fun _ s => F (file s)) (failed F).
Proof.
  induction rows as [|row rows IH]; cbn [print_rows].
  - apply cmd_ret. intros s [_ Hs]. exact Hs.
  - destruct (description row) as [d|]; cbn [shorten lift].
    + apply cmd_bind_ret. apply cmd_bind_print. exact IH.
    + apply cmd_bind_raise. intros s [_ Hs]. exact Hs.
Qed.

Lemma quiet_select_loop (F : database -> Prop) rows : forall pending,
  hoare (ready (length pending) F) (select_loop rows pending)
        (fun _ s => F (file s)) (failed F).
Proof.
  intros pending. induction pending as [|first pending IH];
    rewrite select_loop_eq;
    (apply cmd_bind_input; [apply failed_from; auto|]);
    intros line n' Hn; [discriminate|]. injection Hn as <-.
  destruct (isdigit (strip line) && (1 <=? int (strip line))
            && (int (strip line) <=? length rows)).
  - destruct (rows !! _) as [selected|].
    + apply quiet_run_quiz.
    + apply cmd_raise. intros s [_ Hs]. exact Hs.
  - apply cmd_bind_print. exact IH.
Qed.

Lemma quiet_main args n (F : database -> Prop) :
  given (create args) = None -> given (add args) = None ->
  given (delete args) = None ->
  hoare (ready n F) (main args) (fun _ s => F (file s)) (failed F).
Proof.
  intros Hc Ha Hd. unfold main. rewrite Hc, Ha, Hd.
  apply cmd_bind_update with (F' := fun _ db => F db); [auto|].
  intros [].
  assert (Hback : forall db s,
            ready n (fun d => d = db /\ F d) s -> ready n F s).
  { intros db s Hs. eapply ready_file; [|exact Hs]. intros d [_ HFd]. exact HFd. }
  destruct (list args).
  { unfold list_quizzes_command. apply cmd_bind_query. intros db Hdb.
    eapply cmd_pre; [apply Hback|].
    destruct (list_quizzes db) as [|row rows].
    - apply cmd_bind_print. apply cmd_print.
    - do 2 apply cmd_bind_print. apply quiet_print_rows. }
  destruct (given (info args)) as [quiz_name|].
  { apply cmd_bind_query. intros db Hdb. eapply cmd_pre; [apply Hback|].
    destruct (get_quiz_info quiz_name db) as [quiz_info|].
    - do 3 apply cmd_bind_print. apply cmd_print.
    - apply cmd_print. }
  destruct (given (quiz args)) as [quiz_name|].
  { apply quiet_run_quiz. }
  apply cmd_bind_query. intros db Hdb. eapply cmd_pre; [apply Hback|].
  destruct (list_quizzes db) as [|row rows].
  - apply cmd_bind_print. apply cmd_print.
  - apply cmd_bind_print.
    eapply cmd_bind; [apply safe_print_menu|].
    intros _ s Hs.
    apply (quiet_select_loop F (row :: rows) (Runtime.stdin (console s)) s).
    split; [apply le_n|exact (proj2 Hs)].
Qed.

Lemma main_keeps_tables args s :
  given (create args) = None -> given (add args) = None ->
  given (delete args) = None ->
  file (main args s).2 = file s.
Proof.
  intros Hc Ha Hd.
  pose proof (quiet_main args (length (Runtime.stdin (console s)))
                (fun db => db = file s) Hc Ha Hd s (conj (le_n _) eq_refl)) as H.
  destruct (main args s) as [[a|e] s']; exact H.
Qed.

(** An invocation without [--create], [--add] and [--delete] writes
    nothing but what [QuizDatabase()] writes: a database file that
    exists with its two tables, as an earlier invocation left it, is
    left exactly as it was, whatever is typed and however the command
    ends; when the file is absent, as before the first invocation, it is
    created with both tables empty. *)
Theorem main_reads_only args w d clock ticks :
  given (create args) = None -> given (add args) = None ->
  given (delete args) = None ->
  let d' := (invoke args w d clock ticks).2 in
  (forall db, d = Some db -> d' = Some db) /\
  (d = None -> d' = Some empty_database).
Proof.
  intros Hc Ha Hd. unfold invoke.
  pose proof (main_keeps_tables args (mk_system w (opened d) clock ticks)
                Hc Ha Hd) as H.
  destruct (main args (mk_system w (opened d) clock ticks)) as [r s'].
  cbn [fst snd file] in *. split.
  - intros db ->. rewrite H. reflexivity.
  - intros ->. rewrite H. reflexivity.
Qed.

Lemma given_idem x n : given x = Some n -> given (Some n) = Some n.
Proof.
  destruct x as [x|]; [|discriminate]. cbn.
  destruct (String.eqb x "") eqn:E; [discriminate|]. intros [= <-].
  rewrite E. reflexivity.
Qed.

(** [main] acts on one option only: the first given among [--create],
    [--add], [--list], [--delete], [--info] and the quiz name, whatever
    else is on the command line; and [--shuffle] counts only when the
    quiz name is the one acted on, so that a quiz chosen from the menu is
    never shuffled. *)
Theorem main_acts_on_first_option args s :
  main args s = main (effective args) s.
Proof.
  unfold effective, main.
  destruct (given (create args)) as [n|] eqn:Hc;
    [|destruct (given (add args)) as [n|] eqn:Ha;
      [|destruct (list args) eqn:Hl;
        [|destruct (given (delete args)) as [n|] eqn:Hd;
          [|destruct (given (info args)) as [n|] eqn:Hi;
            [|destruct (given (quiz args)) as [n|] eqn:Hq]]]]];
    cbn [create add list delete info quiz shuffle];
    rewrite ?(given_idem _ _ Hc), ?(given_idem _ _ Ha), ?(given_idem _ _ Hd),
      ?(given_idem _ _ Hi), ?(given_idem _ _ Hq);
    reflexivity.
Qed.

(** ** Commands followed line by line *)

Lemma at_bind_print {B} lines out db t c line (k : unit -> P B) R X :
  hoare (standing lines (out ++ [line +:+ nl]) db t c) (k tt) R X ->
  hoare (standing lines out db t c) (bind (print line) k) R X.
Proof.
  intros H s (Hin & Hout & Hs). unfold bind at 1.
  unfold print, on_console, Runtime.print, Runtime.write.
  apply H. split; [exact Hin|]. split; [cbn; rewrite Hout; reflexivity|exact Hs].
Qed.

Lemma at_bind_input {B} line rest out db t c prompt (k : string -> P B) R X :
  hoare (standing rest (out ++ [prompt]) db t c) (k line) R X ->
  hoare (standing (line :: rest) out db t c) (bind (input prompt) k) R X.
Proof.
  intros H s (Hin & Hout & Hs). unfold bind at 1.
  unfold input, on_console, Runtime.input, Runtime.bind, Runtime.write,
    Runtime.read_line.
  cbn [Runtime.stdin Runtime.set_stdout]. rewrite Hin.
  apply H. split; [reflexivity|].
  split; [cbn; rewrite Hout; reflexivity|exact Hs].
Qed.

Lemma at_bind_query {A B} lines out db t c (f : database -> A)
    (k : A -> P B) R X :
  hoare (standing lines out db t c) (k (f db)) R X ->
  hoare (standing lines out db t c) (bind (query f) k) R X.
Proof.
  intros H s Hs. unfold bind at 1. unfold query.
  destruct Hs as (Hin & Hout & Hdb & Hs). rewrite Hdb.
  apply H. repeat split; tauto.
Qed.

Lemma at_bind_update {A B} lines out db t c (f : database -> A * database)
    (k : A -> P B) R X :
  hoare (standing lines out (f db).2 t c) (k (f db).1) R X ->
  hoare (standing lines out db t c) (bind (update f) k) R X.
Proof.
  intros H s (Hin & Hout & Hdb & Ht & Hc). unfold bind at 1. unfold update.
  rewrite Hdb. destruct (f db) as [a db']. apply H.
  repeat split; assumption.
Qed.

Lemma at_bind_insert {A B} lines out db t c
    (f : timestamp -> database -> result A * database)
    (k : result A -> P B) R X :
  hoare (standing lines out (f (c t) db).2 (S t) c) (k (f (c t) db).1) R X ->
  hoare (standing lines out db t c) (bind (try (insert f)) k) R X.
Proof.
  intros H s (Hin & Hout & Hdb & Ht & Hc). unfold bind at 1. unfold try, insert.
  rewrite Hdb, Ht, Hc. destruct (f (c t) db) as [r db']. apply H.
  repeat split; cbn; congruence.
Qed.

Lemma at_print lines out db t c line X :
  hoare (standing lines out db t c) (print line)
        (fun _ s => standing lines (out ++ [line +:+ nl]) db t c s) X.
Proof.
  intros s (Hin & Hout & Hs). split; [exact Hin|].
  split; [cbn; rewrite Hout; reflexivity|exact Hs].
Qed.

(** What a specification followed line by line says of one state. *)
Lemma at_start {A} s (m : P A) (R : A -> system -> Prop) :
  hoare (standing (Runtime.stdin (console s)) (Runtime.stdout (console s))
                  (file s) (ticks s) (clock s)) m R never ->
  exists a s', m s = (Ok a, s') /\ R a s'.
Proof.
  intros H. specialize (H s). unfold standing in H.
  destruct (m s) as [[a|e] s']; [|destruct H; auto].
  exists a, s'. split; [reflexivity|]. apply H. auto.
Qed.

(** [create_quiz_command] on a name that is not stored yet reads the
    title and the description, stores the quiz under the trimmed title,
    or under the name with spaces for underscores and capitals when the
    title is blank, with the trimmed description and no questions, and
    returns [True].  The name and the two lines are plain ASCII. *)
Theorem create_quiz_command_stores_quiz quiz_name s title_line description_line rest :
  wf (file s) -> quiz_exists quiz_name (file s) = false ->
  ascii_only quiz_name = true -> plain_lines [title_line; description_line] ->
  Runtime.stdin (console s) = title_line :: description_line :: rest ->
  exists s',
    create_quiz_command quiz_name s = (Ok true, s') /\
    Runtime.stdin (console s') = rest /\
    Runtime.stdout (console s') =
      Runtime.stdout (console s) ++
      [("Creating quiz: " +:+ quiz_name) +:+ nl; repeat_string "-" 40 +:+ nl;
       "Quiz title: "; "Quiz description (optional): ";
       ("✓ Quiz '" +:+ quiz_name +:+ "' created successfully!") +:+ nl] /\
    wf (file s') /\
    get_quiz_info quiz_name (file s') =
      Some (mkQuizInfo quiz_name
              (if String.eqb (strip title_line) "" then default_title quiz_name
               else strip title_line)
              (Some (strip description_line)) 0) /\
    get_quiz_questions quiz_name (file s') = Ok [].
Proof.
  intros Hwf He _ _ Hin.
  set (title := if String.eqb (strip title_line) "" then default_title quiz_name
                else strip title_line).
  set (now := clock s (ticks s)).
  pose proof (StorageMore.create_quiz_fresh_spec now quiz_name title
                (strip description_line) (file s) Hwf He) as Hspec.
  pose proof (wf_create_quiz now quiz_name title (strip description_line)
                (file s) Hwf) as Hwf'.
  destruct (create_quiz now quiz_name title (strip description_line) (file s))
    as [r db'] eqn:Hcreate.
  destruct Hspec as (id & -> & _ & _ & Hinfo & Hget & _).
  destruct (at_start s (create_quiz_command quiz_name)
              (fun a s' => a = true /\
                 standing rest
                   (((((Runtime.stdout (console s)
                        ++ [("Creating quiz: " +:+ quiz_name) +:+ nl])
                       ++ [repeat_string "-" 40 +:+ nl])
                      ++ ["Quiz title: "])
                     ++ ["Quiz description (optional): "])
                    ++ [("✓ Quiz '" +:+ quiz_name +:+ "' created successfully!") +:+ nl])
                   db' (S (ticks s)) (clock s) s'))
    as (a & s' & Hrun & -> & Hrest & Hout & Hfile & _).
  { rewrite Hin. unfold create_quiz_command. do 2 apply at_bind_print.
    do 2 apply at_bind_input. cbv zeta. apply at_bind_insert.
    fold title now. rewrite Hcreate. cbn [fst snd].
    apply at_bind_print. apply cmd_ret. auto. }
  exists s'. split; [exact Hrun|]. split; [exact Hrest|].
  split; [rewrite Hout, <- !app_assoc; reflexivity|].
  rewrite Hfile. auto.
Qed.

(** [create_quiz_command] on a name that is stored already reads the
    title and the description all the same, then reports the error
    [create_quiz] raised, returns [False] and leaves the file as it was. *)
Theorem create_quiz_command_reports_duplicate quiz_name s title_line
    description_line rest :
  quiz_exists quiz_name (file s) = true ->
  Runtime.stdin (console s) = title_line :: description_line :: rest ->
  exists s',
    create_quiz_command quiz_name s = (Ok false, s') /\
    Runtime.stdin (console s') = rest /\
    Runtime.stdout (console s') =
      Runtime.stdout (console s) ++
      [("Creating quiz: " +:+ quiz_name) +:+ nl; repeat_string "-" 40 +:+ nl;
       "Quiz title: "; "Quiz description (optional): ";
       ("Error: Quiz '" +:+ quiz_name +:+ "' already exists!") +:+ nl] /\
    file s' = file s.
Proof.
  intros He Hin.
  destruct (at_start s (create_quiz_command quiz_name)
              (fun a s' => a = false /\
                 standing rest
                   (((((Runtime.stdout (console s)
                        ++ [("Creating quiz: " +:+ quiz_name) +:+ nl])
                       ++ [repeat_string "-" 40 +:+ nl])
                      ++ ["Quiz title: "])
                     ++ ["Quiz description (optional): "])
                    ++ [("Error: Quiz '" +:+ quiz_name +:+ "' already exists!") +:+ nl])
                   (file s) (S (ticks s)) (clock s) s'))
    as (a & s' & Hrun & -> & Hrest & Hout & Hfile & _).
  { rewrite Hin. unfold create_quiz_command. do 2 apply at_bind_print.
    do 2 apply at_bind_input. cbv zeta. apply at_bind_insert.
    rewrite create_quiz_on_existing by exact He. cbn [fst snd].
    unfold DuplicateNameError.
    apply at_bind_print. apply cmd_ret. auto. }
  exists s'. split; [exact Hrun|]. split; [exact Hrest|].
  split; [rewrite Hout, <- !app_assoc; reflexivity|exact Hfile].
Qed.

(** [add_questions_command] on a name that is not stored prints the
    error and the hint, asks nothing, and leaves the file as it was. *)
Theorem add_questions_command_unknown_quiz quiz_name s :
  quiz_exists quiz_name (file s) = false ->
  exists s',
    add_questions_command quiz_name s = (Ok tt, s') /\
    Runtime.stdin (console s') = Runtime.stdin (console s) /\
    Runtime.stdout (console s') =
      Runtime.stdout (console s) ++
      [("Error: Quiz '" +:+ quiz_name +:+ "' not found!") +:+ nl;
       "Use --create to create it first, or --list to see available quizzes."
         +:+ nl] /\
    file s' = file s.
Proof.
  intros He. apply get_quiz_info_none in He.
  unfold add_questions_command, bind, query. rewrite He.
  eexists. split; [reflexivity|]. cbn.
  split; [reflexivity|]. split; [|reflexivity].
  rewrite <- app_assoc. reflexivity.
Qed.

(** ** Questions typed and read back *)

Lemma cmd_exists {A T} (Pre : T -> system -> Prop) (m : P A) R X :
  (forall x, hoare (Pre x) m R X) -> hoare (fun s => exists x, Pre x s) m R X.
Proof. intros H s [x Hs]. exact (H x s Hs). Qed.

Lemma at_read_choices a b c d rest out db t cl :
  strip a <> "" -> strip b <> "" -> strip c <> "" -> strip d <> "" ->
  hoare (standing (a :: b :: c :: d :: rest) out db t cl) (read_choices 4 0 [])
        (fun cs s => cs = [strip a; strip b; strip c; strip d] /\
                     exists out', standing rest out' db t cl s)
        never.
Proof.
  intros Ha Hb Hc Hd. cbn [read_choices].
  apply String.eqb_neq in Ha, Hb, Hc, Hd.
  repeat (rewrite RuntimeFacts.chr_in_range by lia; cbn [lift];
          apply cmd_bind_ret; apply at_bind_input; cbv zeta;
          rewrite ?Ha, ?Hb, ?Hc, ?Hd).
  apply cmd_ret. intros s Hs. split; [reflexivity|]. eauto.
Qed.

Lemma at_read_correct_here line rest out db t cl :
  check_correct_answer (lower (strip line)) = true ->
  hoare (standing (line :: rest) out db t cl)
        (fun s => read_correct (Runtime.stdin (console s)) s)
        (fun c s => c = lower (strip line) /\
                    exists out', standing rest out' db t cl s)
        never.
Proof.
  intros Hc.
  assert (H : hoare (standing (line :: rest) out db t cl)
                (read_correct (line :: rest))
                (fun c s => c = lower (strip line) /\
                            exists out', standing rest out' db t cl s)
                never).
  { rewrite read_correct_eq. apply at_bind_input. rewrite Hc.
    apply cmd_ret. intros s Hs. split; [reflexivity|]. eauto. }
  intros s Hs. rewrite (proj1 Hs). exact (H s Hs).
Qed.

Lemma entry_inputs_questions c entries : forall t,
  question_of_input <$> entry_inputs c t entries = entry_question <$> entries.
Proof.
  induction entries as [|e entries IH]; intros t; [reflexivity|].
  cbn [entry_inputs fmap list_fmap]. f_equal. apply IH.
Qed.

Lemma add_loop_entries quiz_name c id entries :
  forall pending question_num db t out rest old,
    wf db -> select_quiz_id quiz_name (connect db) = Some id ->
    get_quiz_questions quiz_name db = Ok old ->
    Forall clean_entry entries -> session entries ->
    length entries <= length pending ->
    hoare (standing ((entries ≫= entry_lines) ++ rest) out db t c)
          (add_loop quiz_name pending question_num)
          (fun _ s =>
             exists out' db',
               standing rest out' db' (t + length entries) c s /\
               wf db' /\ quizzes db' = quizzes db /\
               get_quiz_questions quiz_name db' =
                 Ok (old ++ (entry_question <$> entries)))
          never.
Proof.
  induction entries as [|e entries IH];
    intros pending question_num db t out rest old Hwf Hsel Hold Hclean Hsession Hlen;
    [destruct Hsession|].
  destruct pending as [|first pending]; [simpl in Hlen; lia|].
  apply Forall_cons in Hclean as [(Hq & Ha & Hb & Hc & Hd & Hk) Hclean].
  rewrite add_loop_eq. rewrite bind_cons. unfold entry_lines at 1.
  cbn [app]. apply at_bind_print. apply at_bind_input.
  rewrite (proj2 (String.eqb_neq _ _) Hq).
  eapply cmd_bind; [apply at_read_choices; assumption|].
  intros choices. cbv beta. apply cmd_assume. intros ->.
  apply cmd_exists. intros out1. cbn [length Nat.eqb negb].
  eapply cmd_bind; [apply at_read_correct_here; exact Hk|].
  intros correct. cbv beta. apply cmd_assume. intros ->.
  apply cmd_exists. intros out2.
  apply at_bind_input. apply at_bind_insert.
  destruct (add_question_appends quiz_name (entry_input (c t) e) db id old
              Hwf Hsel Hold) as (db1 & Hadd & Hquizzes & Hget).
  { split; [reflexivity|exact Hk]. }
  cbn [in_now in_text in_choices in_correct in_explanation entry_input] in Hadd.
  rewrite Hadd. cbn [fst snd].
  assert (Hwf1 : wf db1).
  { pose proof (wf_add_question (c t) quiz_name (strip (e_question e))
                  [strip (e_a e); strip (e_b e); strip (e_c e); strip (e_d e)]
                  (lower (strip (e_correct e))) (strip (e_explanation e)) db Hwf)
      as H.
    rewrite Hadd in H. exact H. }
  apply at_bind_print. apply at_bind_input.
  fold (wants_more e). cbn [session] in Hsession.
  destruct entries as [|e' entries].
  - rewrite Hsession. cbn [negb]. apply cmd_ret. intros s Hs.
    eexists _, db1. split; [|split; [exact Hwf1|split; [exact Hquizzes|]]].
    + cbn [length]. rewrite Nat.add_1_r. exact Hs.
    + exact Hget.
  - destruct Hsession as [Hmore Hsession]. rewrite Hmore. cbn [negb].
    eapply RuntimeMore.hoare_weaken_post.
    + apply (IH pending (question_num + 1) db1 (S t) _ rest
               (old ++ [question_of_input (entry_input (c t) e)])).
      * exact Hwf1.
      * unfold select_quiz_id, connect, connect_with in *. cbn in *.
        rewrite Hquizzes. exact Hsel.
      * exact Hget.
      * exact Hclean.
      * exact Hsession.
      * simpl in *. lia.
    + intros _ s (out' & db' & Hs & Hwf' & Hq' & Hget').
      exists out', db'. split; [|split; [exact Hwf'|split; [congruence|]]].
      * cbn [length] in *. rewrite Nat.add_succ_r. exact Hs.
      * rewrite Hget', <- app_assoc. reflexivity.
Qed.

Lemma length_entry_lines entries :
  length entries <= length (entries ≫= entry_lines).
Proof.
  induction entries as [|e entries IH]; [reflexivity|].
  rewrite bind_cons, length_app. simpl. lia.
Qed.

(** Questions typed at [add_questions_command] come back from
    [get_quiz_questions]: when the lines typed are those of one or more
    questions in which nothing is turned down, with y after each but the
    last, the command returns having read just these lines, and the quiz
    then has the questions it had followed by the typed ones, trimmed,
    in the order typed.  The lines typed are plain ASCII. *)
Theorem add_questions_command_round_trip quiz_name s entries rest old :
  wf (file s) -> quiz_exists quiz_name (file s) = true ->
  get_quiz_questions quiz_name (file s) = Ok old ->
  plain_lines (entries ≫= entry_lines) ->
  Forall clean_entry entries -> session entries ->
  Runtime.stdin (console s) = (entries ≫= entry_lines) ++ rest ->
  exists s',
    add_questions_command quiz_name s = (Ok tt, s') /\
    Runtime.stdin (console s') = rest /\
    wf (file s') /\
    get_quiz_questions quiz_name (file s') =
      Ok (old ++ (entry_question <$> entries)).
Proof.
  intros Hwf He Hold _ Hclean Hsession Hin.
  destruct (select_quiz_id quiz_name (connect (file s))) as [id|] eqn:Hsel;
    [|apply select_quiz_id_none in Hsel; congruence].
  destruct (get_quiz_info quiz_name (file s)) as [quiz_info|] eqn:Hinfo;
    [|apply get_quiz_info_none in Hinfo; congruence].
  destruct (at_start s (add_questions_command quiz_name)
              (fun _ s' =>
                 Runtime.stdin (console s') = rest /\ wf (file s') /\
                 get_quiz_questions quiz_name (file s') =
                   Ok (old ++ (entry_question <$> entries))))
    as ([] & s' & Hrun & H).
  { rewrite Hin. unfold add_questions_command. apply at_bind_query.
    rewrite Hinfo. do 3 apply at_bind_print.
    apply cmd_bind with
      (Q := fun _ s' =>
              exists out' db',
                standing rest out' db' (ticks s + length entries) (clock s) s' /\
                wf db' /\ quizzes db' = quizzes (file s) /\
                get_quiz_questions quiz_name db' =
                  Ok (old ++ (entry_question <$> entries))).
    - intros s1 Hs1. rewrite (proj1 Hs1).
      refine (add_loop_entries quiz_name (clock s) id entries _ _ (file s)
                (ticks s) _ rest old Hwf Hsel Hold Hclean Hsession _ s1 Hs1).
      rewrite length_app. pose proof (length_entry_lines entries). lia.
    - intros _. apply cmd_exists. intros out'. apply cmd_exists. intros db'.
      intros s1 (Hs1 & Hwf' & Hq' & Hget').
      destruct Hs1 as (Hin1 & _ & Hfile1 & _).
      unfold bind, query. rewrite Hfile1.
      destruct (get_quiz_info quiz_name db') as [updated_info|] eqn:Hup.
      + unfold print, on_console, Runtime.print, Runtime.write. cbn.
        rewrite Hfile1. auto.
      + apply (get_quiz_info_same_quizzes quiz_name (file s) db' Hq') in Hup.
        congruence. }
  exists s'. split; [exact Hrun|exact H].
Qed.

(** ** The listing *)

Lemma at_print_rows lines db t c rows : forall out,
  Forall (fun row => description row <> None) rows ->
  hoare (standing lines out db t c) (print_rows rows)
        (fun _ s =>
           standing lines
             (out ++ ((fun row => listing_row row (shown (description row)) +:+ nl)
                        <$> rows)) db t c s)
        never.
Proof.
  induction rows as [|row rows IH]; intros out Hrows; cbn [print_rows].
  - apply cmd_ret. intros s Hs. cbn. rewrite app_nil_r. exact Hs.
  - apply Forall_cons in Hrows as [Hrow Hrows].
    destruct (description row) as [d|] eqn:Hd; [|contradiction].
    cbn [shorten lift]. apply cmd_bind_ret. apply at_bind_print.
    eapply RuntimeMore.hoare_weaken_post; [apply IH, Hrows|].
    intros [] s Hs. cbn [fmap list_fmap]. unfold shown at 1. rewrite Hd.
    cbn [shorten]. rewrite <- app_assoc in Hs. exact Hs.
Qed.

(** On a file in which every quiz has a description, as in every file
    this program produces, and the stored text is ASCII,
    [list_quizzes_command] prints the heading, the rule and one line per
    stored quiz in the order of [list_quizzes], with the description cut
    to 30 characters and marked when it is longer; on a file without
    quizzes it prints the two lines that say so.  It reads nothing and
    leaves the file as it was. *)
Theorem list_quizzes_command_prints_listing s :
  Forall plain_quiz (quizzes (file s)) ->
  exists s',
    list_quizzes_command s = (Ok tt, s') /\
    Runtime.stdin (console s') = Runtime.stdin (console s) /\
    Runtime.stdout (console s') =
      Runtime.stdout (console s) ++ listing (list_quizzes (file s)) /\
    file s' = file s.
Proof.
  intros Hplain.
  assert (Hd : Forall (fun qz => qz_description qz <> None) (quizzes (file s))).
  { eapply Forall_impl; [exact Hplain|].
    intros qz (_ & _ & d & -> & _). discriminate. }
  pose proof (list_quizzes_described (file s) Hd) as Hrows.
  destruct (at_start s list_quizzes_command
              (fun _ s' =>
                 standing (Runtime.stdin (console s))
                   (Runtime.stdout (console s) ++ listing (list_quizzes (file s)))
                   (file s) (ticks s) (clock s) s'))
    as ([] & s' & Hrun & Hin & Hout & Hfile & _).
  { unfold list_quizzes_command. apply at_bind_query.
    destruct (list_quizzes (file s)) as [|row rows] eqn:Hl.
    - apply at_bind_print.
      eapply RuntimeMore.hoare_weaken_post; [apply at_print|].
      intros [] s' Hs. cbn [listing]. rewrite <- app_assoc in Hs. exact Hs.
    - do 2 apply at_bind_print.
      eapply RuntimeMore.hoare_weaken_post; [apply at_print_rows, Hrows|].
      intros [] s' Hs. cbn [listing]. rewrite <- !app_assoc in Hs. exact Hs. }
  exists s'. auto.
Qed.

Lemma failing_print_rows n (F : database -> Prop) rows :
  Exists (fun row => description row = None) rows ->
  hoare (ready n F) (print_rows rows) (fun _ _ => False)
        (fun e s => e = TypeError /\ F (file s)).
Proof.
  induction rows as [|row rows IH]; intros Hex; [inversion Hex|].
  cbn [print_rows]. destruct (description row) as [d|] eqn:Hd.
  - cbn [shorten lift]. apply cmd_bind_ret. apply cmd_bind_print. apply IH.
    apply Exists_cons in Hex as [Hex|Hex]; [congruence|exact Hex].
  - cbn [shorten lift]. apply cmd_bind_raise. intros s [_ Hs]. auto.
Qed.

(** A quiz row without description, which the schema allows and another
    program may have written, makes [list_quizzes_command] fail with
    [TypeError]; the file is left as it was. *)
Theorem list_quizzes_command_null_description s :
  Exists (fun qz => qz_description qz = None) (quizzes (file s)) ->
  exists s', list_quizzes_command s = (Raise TypeError, s') /\ file s' = file s.
Proof.
  intros Hex.
  assert (Hrows : Exists (fun row => description row = None)
                    (list_quizzes (file s))).
  { unfold list_quizzes, connect, connect_with. cbn.
    rewrite order_by_perm. rewrite Exists_fmap. exact Hex. }
  assert (H : hoare (ready (length (Runtime.stdin (console s)))
                       (fun db => db = file s))
                list_quizzes_command (fun _ _ => False)
                (fun e s' => e = TypeError /\ file s' = file s)).
  { unfold list_quizzes_command. apply cmd_bind_query. intros db Hdb.
    rewrite Hdb.
    destruct (list_quizzes (file s)) as [|row rows]; [inversion Hrows|].
    do 2 apply cmd_bind_print.
    eapply RuntimeMore.hoare_weaken;
      [exact (failing_print_rows (length (Runtime.stdin (console s)))
                (fun d => d = file s) _ Hrows)| | |].
    - intros s' Hs'. eapply ready_file; [|exact Hs']. intros d [_ Hd]. exact Hd.
    - auto.
    - auto. }
  specialize (H s (conj (le_n _) eq_refl)).
  destruct (list_quizzes_command s) as [[[]|e] s']; [destruct H|].
  destruct H as [-> Hfile]. eauto.
Qed.

(** ** [main]: deleting *)

(** [main] with [--delete] as the first option given: the quiz row of
    that name is deleted, the message tells whether there was one,
    nothing is read, and the name is not stored afterwards. *)
Theorem main_delete_reports args s quiz_name :
  given (create args) = None -> given (add args) = None -> list args = false ->
  given (delete args) = Some quiz_name ->
  exists s',
    main args s = (Ok tt, s') /\
    file s' = (delete_quiz quiz_name (file s)).2 /\
    quiz_exists quiz_name (file s') = false /\
    Runtime.stdin (console s') = Runtime.stdin (console s) /\
    Runtime.stdout (console s') =
      Runtime.stdout (console s) ++
      [(if quiz_exists quiz_name (file s)
        then "Quiz '" +:+ quiz_name +:+ "' deleted successfully!"
        else "Quiz '" +:+ quiz_name +:+ "' not found!") +:+ nl].
Proof.
  intros Hc Ha Hl Hd.
  pose proof (quiz_exists_after_delete quiz_name (file s)) as Hgone.
  unfold main. rewrite Hc, Ha, Hl, Hd.
  unfold bind, update, init_database. cbn [fst snd file console clock ticks].
  rewrite delete_quiz_spec in *. cbn [fst snd] in *.
  destruct (quiz_exists quiz_name (file s)); eexists;
    (split; [reflexivity|]); cbn; auto.
Qed.

(** ** [main]: the menu *)

Lemma all_digits_string_of_uint d :
  all_digits (NilEmpty.string_of_uint d) = true.
Proof. induction d; cbn; auto. Qed.

Lemma isdigit_str n : isdigit (str n) = true.
Proof.
  unfold str, isdigit, NilZero.string_of_uint.
  destruct (Nat.to_uint n) eqn:E; try reflexivity;
    cbn [NilEmpty.string_of_uint String.eqb negb andb all_digits];
    cbn; apply all_digits_string_of_uint.
Qed.

Lemma int_from_string_of_uint d : forall acc,
  int_from acc (NilEmpty.string_of_uint d) = Nat.of_uint_acc d acc.
Proof.
  induction d; intros acc; cbn [NilEmpty.string_of_uint int_from Nat.of_uint_acc];
    [reflexivity|..]; rewrite IHd, Nat.tail_mul_spec; f_equal;
    match goal with
    | |- context [nat_of_ascii ?c - 48] =>
      let v := eval vm_compute in (nat_of_ascii c - 48) in
      change (nat_of_ascii c - 48) with v
    end; lia.
Qed.

(** The number the menu shows for a quiz is read back as that number. *)
Lemma int_str n : int (str n) = n.
Proof.
  rewrite <- (Unsigned.of_to n) at 2. unfold str, int, Nat.of_uint.
  destruct (Nat.to_uint n) eqn:E;
    try (unfold NilZero.string_of_uint; apply int_from_string_of_uint).
  reflexivity.
Qed.

Lemma moved_moved s r1 o1 r2 o2 :
  moved (moved s r1 o1) r2 o2 = moved s r2 (o1 ++ o2).
Proof.
  unfold moved, set_console. cbn. rewrite RuntimeFacts.io_io. reflexivity.
Qed.

Lemma stdin_moved s rest out : Runtime.stdin (console (moved s rest out)) = rest.
Proof. reflexivity. Qed.

Lemma bind_print_moved {B} line (k : unit -> P B) s :
  bind (print line) k s = k tt (moved s (Runtime.stdin (console s)) [line +:+ nl]).
Proof. reflexivity. Qed.

Lemma bind_input_moved {B} prompt (k : string -> P B) s line rest :
  Runtime.stdin (console s) = line :: rest ->
  bind (input prompt) k s = k line (moved s rest [prompt]).
Proof.
  intros Hin. unfold bind at 1.
  unfold input, on_console, Runtime.input, Runtime.bind, Runtime.write,
    Runtime.read_line.
  cbn [Runtime.stdin Runtime.set_stdout]. rewrite Hin. reflexivity.
Qed.

Lemma moved_id s : moved s (Runtime.stdin (console s)) [] = s.
Proof.
  unfold moved, set_console. rewrite RuntimeFacts.io_id. destruct s; reflexivity.
Qed.

Lemma bind_bind {A B C} (m : P A) (f : A -> P B) (k : B -> P C) s :
  bind (bind m f) k s = bind m (fun a => bind (f a) k) s.
Proof. unfold bind. destruct (m s) as [[a|e] s']; reflexivity. Qed.

Lemma print_menu_moved rows : forall i B (k : unit -> P B) s,
  bind (print_menu i rows) k s =
  k tt (moved s (Runtime.stdin (console s)) (menu_lines i rows)).
Proof.
  induction rows as [|row rows IH]; intros i B k s.
  - cbn [print_menu menu_lines]. rewrite moved_id. reflexivity.
  - cbn [print_menu menu_lines]. rewrite bind_bind, bind_print_moved.
    rewrite IH, stdin_moved, moved_moved. reflexivity.
Qed.

Lemma select_loop_selects rows line rest selected junk : forall pending s,
  Forall (fun l => valid_selection (length rows) l = false) junk ->
  valid_selection (length rows) line = true ->
  rows !! (int (strip line) - 1) = Some selected ->
  Runtime.stdin (console s) = junk ++ line :: rest ->
  length junk <= length pending ->
  select_loop rows pending s =
  run_quiz (name selected) false
    (moved s rest
       ((junk ≫= (fun _ =>
           [select_prompt (length rows); "Invalid selection!" +:+ nl])) ++
        [select_prompt (length rows)])).
Proof.
  induction junk as [|l junk IH]; intros pending s Hjunk Hline Hsel Hin Hlen.
  - rewrite select_loop_eq.
    rewrite (bind_input_moved _ _ s line rest Hin).
    unfold valid_selection in Hline. rewrite Hline, Hsel. reflexivity.
  - apply Forall_cons in Hjunk as [Hl Hjunk].
    destruct pending as [|first pending]; [simpl in Hlen; lia|].
    rewrite select_loop_eq.
    rewrite (bind_input_moved _ _ s l (junk ++ line :: rest) Hin).
    unfold valid_selection in Hl. rewrite Hl. rewrite bind_print_moved.
    rewrite stdin_moved, moved_moved.
    rewrite (IH pending (moved s (junk ++ line :: rest)
               ([nl +:+ "Select quiz (1-" +:+ str (length rows) +:+ "): "] ++
                ["Invalid selection!" +:+ nl])) Hjunk Hline Hsel eq_refl)
      by (simpl in Hlen; lia).
    rewrite moved_moved, bind_cons, <- !app_assoc. reflexivity.
Qed.

(** Without options [main] shows the menu, and the number typed selects
    the quiz: the heading and one numbered line per stored quiz are
    printed; each line typed that is not the number of a row is answered
    with "Invalid selection!" and a new prompt; and the line with the
    number the menu shows beside a quiz, spaces around it or not, runs
    that quiz as [run_quiz_command] does without shuffle, even under
    [--shuffle].  The lines typed are plain ASCII. *)
Theorem main_menu_runs_selection args s junk line rest k selected :
  given (create args) = None -> given (add args) = None -> list args = false ->
  given (delete args) = None -> given (info args) = None ->
  given (quiz args) = None ->
  plain_lines junk ->
  Forall (fun l => valid_selection (length (list_quizzes (file s))) l = false)
         junk ->
  strip line = str k -> list_quizzes (file s) !! (k - 1) = Some selected ->
  1 <= k ->
  Runtime.stdin (console s) = junk ++ line :: rest ->
  main args s =
  run_quiz (name selected) false
    (moved s rest (menu_transcript (list_quizzes (file s)) junk)).
Proof.
  intros Hc Ha Hl Hd Hi Hq _ Hjunk Hline Hsel Hk Hin.
  unfold main. rewrite Hc, Ha, Hl, Hd, Hi, Hq.
  unfold bind at 1. unfold update, init_database. cbn [fst snd].
  unfold bind at 1. unfold query. cbn [file].
  replace (mk_system (console s) (file s) (clock s) (ticks s)) with s
    by (destruct s; reflexivity).
  destruct (list_quizzes (file s)) as [|row rows] eqn:Hrows;
    [rewrite lookup_nil in Hsel; discriminate|].
  rewrite bind_print_moved, print_menu_moved, stdin_moved, moved_moved.
  rewrite !stdin_moved, Hin.
  rewrite (select_loop_selects (row :: rows) line rest selected junk
             (junk ++ line :: rest)).
  - rewrite moved_moved. unfold menu_transcript.
    rewrite <- !app_assoc. reflexivity.
  - exact Hjunk.
  - unfold valid_selection. rewrite Hline, isdigit_str, int_str.
    apply lookup_lt_Some in Hsel.
    rewrite (proj2 (Nat.leb_le 1 k) Hk). cbn [andb].
    apply Nat.leb_le. lia.
  - rewrite Hline, int_str. exact Hsel.
  - apply stdin_moved.
  - rewrite length_app. lia.
Qed.

(** ** The properties at concrete inputs *)

Lemma main_keeps_files_reachable_witness :
  let args := mk_arguments (Some "geo") None None false None true None in
  let s := desk ["a"] geo_quiz in
  reachable (file s) /\ plain_lines (Runtime.stdin (console s)) /\
  match main args s with
  | (Ok _, s') => reachable (file s')
  | (Raise e, s') =>
    e = EOFError /\ Runtime.stdin (console s') = [] /\ reachable (file s')
  end.
Proof.
  intros args s.
  assert (Hascii : plain_lines (Runtime.stdin (console s))) by (repeat constructor).
  split; [exact StorageMore.geo_quiz_reachable|]. split; [exact Hascii|].
  exact (main_keeps_files_reachable args s StorageMore.geo_quiz_reachable Hascii).
Defined.

Lemma main_reads_only_witness :
  let args := mk_arguments None None None false None true (Some "geo") in
  let clock := fun t : nat => (10 + Z.of_nat t)%Z in
  let w := Runtime.mk_world [] ["a"] [] (fun _ => 0) 0 in
  given (create args) = None /\ given (add args) = None /\
  given (delete args) = None /\
  (invoke args w (Some geo_quiz) clock 0).2 = Some geo_quiz /\
  (invoke args w None clock 0).2 = Some empty_database.
Proof.
  intros args clock w. do 3 (split; [reflexivity|]). split.
  - exact (proj1 (main_reads_only args w (Some geo_quiz) clock 0
                    eq_refl eq_refl eq_refl) geo_quiz eq_refl).
  - exact (proj2 (main_reads_only args w None clock 0
                    eq_refl eq_refl eq_refl) eq_refl).
Defined.

Lemma create_quiz_command_stores_quiz_witness :
  let s := desk ["  "; " About capitals "; "x"] geo_quiz in
  wf (file s) /\ quiz_exists "world_capitals" (file s) = false /\
  exists s',
    create_quiz_command "world_capitals" s = (Ok true, s') /\
    Runtime.stdin (console s') = ["x"] /\
    Runtime.stdout (console s') =
      Runtime.stdout (console s) ++
      [("Creating quiz: " +:+ "world_capitals") +:+ nl; repeat_string "-" 40 +:+ nl;
       "Quiz title: "; "Quiz description (optional): ";
       ("✓ Quiz '" +:+ "world_capitals" +:+ "' created successfully!") +:+ nl] /\
    wf (file s') /\
    get_quiz_info "world_capitals" (file s') =
      Some (mkQuizInfo "world_capitals" "World Capitals" (Some "About capitals") 0) /\
    get_quiz_questions "world_capitals" (file s') = Ok [].
Proof.
  intros s. split; [exact StorageMore.geo_quiz_wf|]. split; [reflexivity|].
  apply (create_quiz_command_stores_quiz "world_capitals" s "  "
           " About capitals " ["x"] StorageMore.geo_quiz_wf eq_refl eq_refl).
  - repeat constructor.
  - reflexivity.
Defined.

Lemma create_quiz_command_reports_duplicate_witness :
  let s := desk ["Geo"; ""; "x"] geo_quiz in
  quiz_exists "geo" (file s) = true /\
  exists s',
    create_quiz_command "geo" s = (Ok false, s') /\
    Runtime.stdin (console s') = ["x"] /\
    Runtime.stdout (console s') =
      Runtime.stdout (console s) ++
      [("Creating quiz: " +:+ "geo") +:+ nl; repeat_string "-" 40 +:+ nl;
       "Quiz title: "; "Quiz description (optional): ";
       ("Error: Quiz '" +:+ "geo" +:+ "' already exists!") +:+ nl] /\
    file s' = file s.
Proof.
  intros s. split; [reflexivity|].
  exact (create_quiz_command_reports_duplicate "geo" s "Geo" "" ["x"]
           eq_refl eq_refl).
Defined.

Lemma add_questions_command_unknown_quiz_witness :
  let s := desk ["x"] geo_quiz in
  quiz_exists "math" (file s) = false /\
  exists s',
    add_questions_command "math" s = (Ok tt, s') /\
    Runtime.stdin (console s') = Runtime.stdin (console s) /\
    Runtime.stdout (console s') =
      Runtime.stdout (console s) ++
      [("Error: Quiz '" +:+ "math" +:+ "' not found!") +:+ nl;
       "Use --create to create it first, or --list to see available quizzes."
         +:+ nl] /\
    file s' = file s.
Proof.
  intros s. split; [reflexivity|].
  exact (add_questions_command_unknown_quiz "math" s eq_refl).
Defined.

Lemma add_questions_command_round_trip_witness :
  let entries :=
    [mk_entry " Capital of Spain? " "Madrid" " Rome" "Oslo " "Bern" " A " "" "Y";
     mk_entry "Capital of Peru?" "Quito" "Lima" "Oslo" "Bern" "b" "It is Lima." "n"] in
  let s := desk ((entries ≫= entry_lines) ++ ["x"]) geo_one_question in
  let old := [mkQuestion "Capital of France?" ["Paris"; "Rome"; "Oslo"; "Bern"] 0 ""] in
  wf (file s) /\ quiz_exists "geo" (file s) = true /\
  get_quiz_questions "geo" (file s) = Ok old /\
  plain_lines (entries ≫= entry_lines) /\
  Forall clean_entry entries /\ session entries /\
  exists s',
    add_questions_command "geo" s = (Ok tt, s') /\
    Runtime.stdin (console s') = ["x"] /\
    wf (file s') /\
    get_quiz_questions "geo" (file s') =
      Ok (old ++
          [mkQuestion "Capital of Spain?" ["Madrid"; "Rome"; "Oslo"; "Bern"] 0 "";
           mkQuestion "Capital of Peru?" ["Quito"; "Lima"; "Oslo"; "Bern"] 1
                      "It is Lima."]).
Proof.
  intros entries s old.
  assert (Hwf : wf (file s))
    by (apply reachable_wf, StorageMore.geo_one_question_reachable).
  assert (Hascii : plain_lines (entries ≫= entry_lines)) by (repeat constructor).
  assert (Hclean : Forall clean_entry entries).
  { repeat constructor; try discriminate. }
  assert (Hsession : session entries) by (split; reflexivity).
  split; [exact Hwf|]. split; [reflexivity|]. split; [reflexivity|].
  split; [exact Hascii|]. split; [exact Hclean|]. split; [exact Hsession|].
  exact (add_questions_command_round_trip "geo" s entries ["x"] old Hwf eq_refl
           eq_refl Hascii Hclean Hsession eq_refl).
Defined.

Lemma list_quizzes_command_prints_listing_witness :
  let s := desk ["x"] geo_and_capitals in
  Forall plain_quiz (quizzes (file s)) /\
  (qz_description <$> quizzes (file s)) =
    [Some ""; Some "The capital cities of every country of the world"] /\
  exists s',
    list_quizzes_command s = (Ok tt, s') /\
    Runtime.stdin (console s') = ["x"] /\
    Runtime.stdout (console s') =
    ["Name                 Title                          Questions  Description" +:+ nl;
     "--------------------------------------------------------------------------------" +:+ nl;
     "capitals             World Capitals                 1          The capital cities of every co..." +:+ nl;
     "geo                  Geography                      3          " +:+ nl] /\
    file s' = file s.
Proof.
  intros s.
  assert (Hplain : Forall plain_quiz (quizzes (file s))).
  { repeat (apply List.Forall_cons;
            [split; [reflexivity|split; [reflexivity|eexists; split; reflexivity]]|]).
    apply List.Forall_nil. }
  split; [exact Hplain|]. split; [reflexivity|].
  destruct (list_quizzes_command_prints_listing s Hplain)
    as (s' & Hrun & Hin & Hout & Hfile).
  exists s'. split; [exact Hrun|]. split; [exact Hin|].
  split; [exact (eq_trans Hout eq_refl)|exact Hfile].
Defined.

Lemma list_quizzes_command_null_description_witness :
  let s := desk [] (mk_database [mk_quiz_row 1 "geo" "Geography" None 0%Z] [] 1 0) in
  Exists (fun qz => qz_description qz = None) (quizzes (file s)) /\
  exists s', list_quizzes_command s = (Raise TypeError, s') /\ file s' = file s.
Proof.
  intros s.
  assert (Hex : Exists (fun qz => qz_description qz = None) (quizzes (file s)))
    by (left; reflexivity).
  split; [exact Hex|]. exact (list_quizzes_command_null_description s Hex).
Defined.

Lemma main_delete_reports_witness :
  let args := mk_arguments (Some "geo") None None false (Some "geo") true None in
  let s := desk ["x"] geo_quiz in
  given (create args) = None /\ given (add args) = None /\ list args = false /\
  given (delete args) = Some "geo" /\
  exists s',
    main args s = (Ok tt, s') /\
    file s' = (delete_quiz "geo" (file s)).2 /\
    quiz_exists "geo" (file s') = false /\
    Runtime.stdin (console s') = Runtime.stdin (console s) /\
    Runtime.stdout (console s') =
      Runtime.stdout (console s) ++
      [(if quiz_exists "geo" (file s)
        then "Quiz '" +:+ "geo" +:+ "' deleted successfully!"
        else "Quiz '" +:+ "geo" +:+ "' not found!") +:+ nl].
Proof.
  intros args s. repeat (split; [reflexivity|]).
  exact (main_delete_reports args s "geo" eq_refl eq_refl eq_refl eq_refl).
Defined.

Lemma main_menu_runs_selection_witness :
  let args := mk_arguments None None None false None true None in
  let s := desk ["0"; "geo"; "3"; " 2 "; "quit"] geo_and_capitals in
  plain_lines ["0"; "geo"; "3"] /\
  Forall (fun l => valid_selection (length (list_quizzes (file s))) l = false)
         ["0"; "geo"; "3"] /\
  strip " 2 " = str 2 /\
  main args s =
  run_quiz "geo" false
    (moved s ["quit"]
       ["Available quizzes:" +:+ nl;
        "  1. capitals - World Capitals (1 questions)" +:+ nl;
        "  2. geo - Geography (3 questions)" +:+ nl;
        nl +:+ "Select quiz (1-2): ";
        "Invalid selection!" +:+ nl;
        nl +:+ "Select quiz (1-2): ";
        "Invalid selection!" +:+ nl;
        nl +:+ "Select quiz (1-2): ";
        "Invalid selection!" +:+ nl;
        nl +:+ "Select quiz (1-2): "]).
Proof.
  intros args s.
  assert (Hplain : plain_lines ["0"; "geo"; "3"]) by (repeat constructor).
  assert (Hjunk : Forall (fun l => valid_selection
                            (length (list_quizzes (file s))) l = false)
                         ["0"; "geo"; "3"]) by (repeat constructor).
  split; [exact Hplain|]. split; [exact Hjunk|]. split; [reflexivity|].
  exact (eq_trans
           (main_menu_runs_selection args s ["0"; "geo"; "3"] " 2 " ["quit"] 2
              (mkQuizInfo "geo" "Geography" (Some "") 3)
              eq_refl eq_refl eq_refl eq_refl eq_refl eq_refl Hplain Hjunk
              eq_refl eq_refl (le_S _ _ (le_n 1)) eq_refl)
           eq_refl).
Defined.

End CliFacts.
